(** * ZIP-to-GitHub pipeline: the extraction and publication core

  A shallow embedding of [src/unzip-code.js] (class [ZipProcessor]), of
  the GitHub agent (class [GitHubAgent]) and of the connection test of
  [src/index.js] (class [WorkflowController]), with the properties of the
  specification proved, or refuted, against it, and further properties of
  the code proved after them.

  Conventions.
  - JavaScript strings are [string]s; case mapping acts on the letters
    [A]-[Z], which is all that the code relies on after it has replaced or
    compared characters. Where a result depends on what [toLowerCase] does
    to other letters (it can even lengthen a string), the statement is made
    for names of ASCII characters.
  - JavaScript numbers that hold counts and times are integers [Z], exact
    below [2^53]. A size is a number or [undefined] ([option Z]); a sum of
    sizes is an integer or [NaN] ([JsNumber.Num]); the one quantity that the
    code computes in fractions, [compressionRatio], is computed in binary64
    floating point.
  - Time passes in timers and in calls of [fetch] only, and a timer sleeps
    for the time it is asked for, as [Date.now] measures it.
  - A JavaScript object used as a dictionary is a [gmap string _] of its own
    properties; the members every object inherits from [Object.prototype]
    are listed in [objectPrototypeKeys] and taken into account wherever the
    code reads a property by a computed name. *)

From Stdlib Require Import ZArith Ascii String List Bool Lia Permutation.
From Stdlib Require PrimFloat FloatOps SpecFloat Uint63.
From stdpp Require Import gmap strings list fin_maps pretty.

Open Scope string_scope.
Open Scope Z_scope.

(* ===================================================================== *)
(** * JavaScript strings *)
(* ===================================================================== *)

Module JsString.

Definition code (c : ascii) : N := N_of_ascii c.

Definition isUpper (c : ascii) : bool := (65 <=? code c)%N && (code c <=? 90)%N.
Definition isLower (c : ascii) : bool := (97 <=? code c)%N && (code c <=? 122)%N.
Definition isDigit (c : ascii) : bool := (48 <=? code c)%N && (code c <=? 57)%N.

(** The characters of ASCII. *)
Definition isAscii (c : ascii) : bool := (code c <? 128)%N.

(** [String.prototype.toLowerCase], one character. *)
Definition lowerChar (c : ascii) : ascii :=
  if isUpper c then ascii_of_N (code c + 32) else c.

Fixpoint toLowerCase (s : string) : string :=
  match s with
  | EmptyString => EmptyString
  | String c t => String (lowerChar c) (toLowerCase t)
  end.

Definition len (s : string) : Z := Z.of_nat (String.length s).

(** [s.lastIndexOf(c)]: the last position of [c], or [-1]. *)
Fixpoint lastIndexOf (c : ascii) (s : string) : Z :=
  match s with
  | EmptyString => -1
  | String d t =>
      let r := lastIndexOf c t in
      if 0 <=? r then r + 1
      else if Ascii.eqb d c then 0 else -1
  end.

Fixpoint dropChars (n : nat) (s : string) : string :=
  match n, s with
  | O, _ => s
  | S _, EmptyString => EmptyString
  | S m, String _ t => dropChars m t
  end.

(** [s.substring(start)]: a negative start counts as [0], one past the end
    as the length. *)
Definition substringFrom (start : Z) (s : string) : string :=
  dropChars (Z.to_nat start) s.

(** [s.includes(c)] for a one-character needle. *)
Fixpoint includesChar (c : ascii) (s : string) : bool :=
  match s with
  | EmptyString => false
  | String d t => Ascii.eqb d c || includesChar c t
  end.

(** [s.split(c)]: never empty; the pieces between the separators. *)
Fixpoint split (c : ascii) (s : string) : list string :=
  match s with
  | EmptyString => [EmptyString]
  | String d t =>
      if Ascii.eqb d c then EmptyString :: split c t
      else match split c t with
           | p :: ps => String d p :: ps
           | [] => [String d EmptyString]
           end
  end.

End JsString.

(* ===================================================================== *)
(** * ZipProcessor.generateFolderName *)
(* ===================================================================== *)

Module FolderName.
Import JsString.

Definition dash : ascii := "-"%char.

(** Does the whole of [s] match [\.zip] under the [i] flag? *)
Definition isDotZip (s : string) : bool :=
  match s with
  | String c0 (String c1 (String c2 (String c3 EmptyString))) =>
      Ascii.eqb c0 "."%char
      && Ascii.eqb (lowerChar c1) "z"%char
      && Ascii.eqb (lowerChar c2) "i"%char
      && Ascii.eqb (lowerChar c3) "p"%char
  | _ => false
  end.

(** [.replace(/\.zip$/i, '')] *)
Fixpoint stripZipSuffix (s : string) : string :=
  match s with
  | EmptyString => EmptyString
  | String c t => if isDotZip s then EmptyString else String c (stripZipSuffix t)
  end.

(** The class [[a-zA-Z0-9\-_]]. *)
Definition allowedChar (c : ascii) : bool :=
  isLower c || isUpper c || isDigit c || Ascii.eqb c dash || Ascii.eqb c "_"%char.

(** [.replace(/[^a-zA-Z0-9\-_]/g, '-')] *)
Fixpoint replaceDisallowed (s : string) : string :=
  match s with
  | EmptyString => EmptyString
  | String c t => String (if allowedChar c then c else dash) (replaceDisallowed t)
  end.

(** [.replace(/-+/g, '-')] *)
Fixpoint collapseDashes (s : string) : string :=
  match s with
  | EmptyString => EmptyString
  | String c t =>
      match t with
      | String d _ =>
          if Ascii.eqb c dash && Ascii.eqb d dash then collapseDashes t
          else String c (collapseDashes t)
      | EmptyString => String c EmptyString
      end
  end.

Definition stripLeadingDash (s : string) : string :=
  match s with
  | String c t => if Ascii.eqb c dash then t else s
  | EmptyString => EmptyString
  end.

Fixpoint stripTrailingDash (s : string) : string :=
  match s with
  | EmptyString => EmptyString
  | String c EmptyString => if Ascii.eqb c dash then EmptyString else s
  | String c t => String c (stripTrailingDash t)
  end.

(** [.replace(/^-|-$/g, '')]: the dash at the first position and the dash at
    the last position are removed (one dash alone is removed once). *)
Definition trimDashes (s : string) : string :=
  stripTrailingDash (stripLeadingDash s).

Definition generateFolderName (originalFileName : string) : string :=
  toLowerCase
    (trimDashes
       (collapseDashes
          (replaceDisallowed
             (stripZipSuffix originalFileName)))).

(** The character class of [^[a-z0-9_-]+$]. *)
Definition identChar (c : ascii) : bool :=
  isLower c || isDigit c || Ascii.eqb c dash || Ascii.eqb c "_"%char.

Fixpoint allChars (p : ascii -> bool) (s : string) : bool :=
  match s with
  | EmptyString => true
  | String c t => p c && allChars p t
  end.

(** [/^[a-z0-9_-]+$/.test(s)] *)
Definition matchesIdentifier (s : string) : bool :=
  negb (String.eqb s EmptyString) && allChars identChar s.

End FolderName.


(* ===================================================================== *)
(** * JavaScript numbers that hold sizes *)
(* ===================================================================== *)

Module JsNumber.

(** A sum of sizes: an integer, or [NaN] once an [undefined] was added. *)
Inductive Num :=
| Int (z : Z)
| NaN.

(** [a + s] for a size [s]: a number, or [undefined] ([None]). *)
Definition plus (a : Num) (s : option Z) : Num :=
  match a, s with
  | Int x, Some y => Int (x + y)
  | _, _ => NaN
  end.

(** [s || 0] *)
Definition orZero (s : option Z) : Z :=
  match s with
  | Some z => z
  | None => 0
  end.

(** [a > b] and [a < b] on sizes: false when either is [undefined]. *)
Definition greater (a b : option Z) : bool :=
  match a, b with
  | Some x, Some y => y <? x
  | _, _ => false
  end.

Definition less (a b : option Z) : bool :=
  match a, b with
  | Some x, Some y => x <? y
  | _, _ => false
  end.

(** [a > 0] on a sum: false for [NaN]. *)
Definition positive (a : Num) : bool :=
  match a with
  | Int x => 0 <? x
  | NaN => false
  end.

Definition isNumber (s : option Z) : bool :=
  match s with
  | Some _ => true
  | None => false
  end.

(** The sum of a list of sizes: [NaN] when one of them is [undefined]. *)
Definition total (sizes : list (option Z)) : Num :=
  if forallb isNumber sizes then Int (fold_right Z.add 0 (map orZero sizes)) else NaN.

(** [Math.round(a / b)] for [0 < b]: the nearest integer, halves upwards.
    The quotient of two integers is a double; below [2^52] it lies on the
    same side of every half-integer as the exact quotient, so that rounding
    the one is rounding the other. *)
Definition roundDiv (a b : Z) : Z := (2 * a + b) / (2 * b).

(** The double that holds an integer (exact below [2^53]; the integers of
    the model are below [2^63]). *)
Definition toDouble (z : Z) : PrimFloat.float :=
  if z <? 0 then PrimFloat.opp (PrimFloat.of_uint63 (Uint63.of_Z (- z)))
  else PrimFloat.of_uint63 (Uint63.of_Z z).

(** [Math.round(x)] for a double [x]: [floor(x + 1/2)], taken exactly on
    the value [(-1)^s * m * 2^e] of [x]; [NaN] for [NaN] (and for the
    infinities, which no quotient of two integers gives). *)
Definition mathRound (x : PrimFloat.float) : Num :=
  match FloatOps.Prim2SF x with
  | SpecFloat.S754_zero _ => Int 0
  | SpecFloat.S754_finite s m e =>
      let v := if s then Z.neg m else Z.pos m in
      if 0 <=? e then Int (v * 2 ^ e)
      else Int ((2 * v + 2 ^ (- e)) / 2 ^ (- e + 1))
  | _ => NaN
  end.

(** [Math.round((1 - compressed / size) * 100)], in doubles as the code
    computes it. *)
Definition roundedRatio (compressed size : Z) : Num :=
  mathRound
    (PrimFloat.mul
       (PrimFloat.sub PrimFloat.one
          (PrimFloat.div (toDouble compressed) (toDouble size)))
       (toDouble 100)).

End JsNumber.

(* ===================================================================== *)
(** * JavaScript objects used as dictionaries *)
(* ===================================================================== *)

Module JsObject.

(** The members that every plain object inherits from [Object.prototype].
    Reading [obj[key]] for one of these names yields a function (or, for
    [__proto__], the prototype object) when [obj] has no own property of
    that name; all of them are truthy. *)
Definition objectPrototypeKeys : list string :=
  [ "constructor"; "__proto__"; "hasOwnProperty"; "isPrototypeOf";
    "propertyIsEnumerable"; "toLocaleString"; "toString"; "valueOf";
    "__defineGetter__"; "__defineSetter__"; "__lookupGetter__";
    "__lookupSetter__" ].

Definition inStrings (k : string) (l : list string) : bool :=
  existsb (String.eqb k) l.

Definition inherited (key : string) : bool := inStrings key objectPrototypeKeys.

(** What [String(v)] gives for the inherited member [key]. *)
Definition inheritedToString (key : string) : string :=
  if String.eqb key "__proto__" then "[object Object]"
  else "function " ++ (if String.eqb key "constructor" then "Object" else key)
       ++ "() { [native code] }".

End JsObject.

(* ===================================================================== *)
(** * ZipProcessor: file records, MIME types, statistics, structure *)
(* ===================================================================== *)

Module ZipProcessor.
Import JsString JsObject JsNumber.

(** The value of [mimeTypes[extension] || 'application/octet-stream']: a
    string, or the inherited member read through the table. *)
Inductive MimeValue :=
| MimeString (s : string)
| MimeInherited (key : string).

Definition mimeTruthy (m : MimeValue) : bool :=
  match m with
  | MimeString s => negb (String.eqb s "")
  | MimeInherited _ => true
  end.

(** One element of [extractedFiles]. *)
Record ExtractedFile := mkFile {
  file_path : string;
  file_name : string;
  file_content : string;
  file_size : option Z;
  file_compressedSize : option Z;
  file_directory : string;
  file_mimeType : MimeValue;
  file_lastModified : Z;
  file_checksum : string
}.

Definition mimeTypes : gmap string string :=
  list_to_map
    [ ("js", "application/javascript"); ("json", "application/json");
      ("html", "text/html"); ("css", "text/css"); ("txt", "text/plain");
      ("md", "text/markdown"); ("xml", "application/xml");
      ("pdf", "application/pdf"); ("jpg", "image/jpeg");
      ("jpeg", "image/jpeg"); ("png", "image/png"); ("gif", "image/gif");
      ("svg", "image/svg+xml"); ("zip", "application/zip");
      ("py", "text/x-python"); ("java", "text/x-java-source");
      ("cpp", "text/x-c++src"); ("c", "text/x-csrc");
      ("php", "application/x-httpd-php") ].

(** [s.substring(s.lastIndexOf('.') + 1).toLowerCase()] *)
Definition extensionOf (s : string) : string :=
  toLowerCase (substringFrom (lastIndexOf "."%char s + 1) s).

Definition detectMimeType (filePath : string) : MimeValue :=
  let extension := extensionOf filePath in
  match mimeTypes !! extension with
  | Some m => MimeString m
  | None =>
      if inherited extension then MimeInherited extension
      else MimeString "application/octet-stream"
  end.

(** ** calculateChecksum *)

(** [ToInt32]: wrap into the signed 32-bit range. *)
Definition toInt32 (z : Z) : Z :=
  let m := z mod 2 ^ 32 in if m <? 2 ^ 31 then m else m - 2 ^ 32.

Definition hexDigit (d : Z) : ascii :=
  if d <? 10 then ascii_of_N (Z.to_N (48 + d)) else ascii_of_N (Z.to_N (87 + d)).

Fixpoint toHexDigits (fuel : nat) (z : Z) (acc : string) : string :=
  match fuel with
  | O => acc
  | S f =>
      let acc' := String (hexDigit (z mod 16)) acc in
      if z / 16 =? 0 then acc' else toHexDigits f (z / 16) acc'
  end.

(** [n.toString(16)] for a non-negative integer below [2^32 + 1]. *)
Definition toString16 (z : Z) : string := toHexDigits 9 z "".

Fixpoint checksumLoop (content : string) (hash : Z) : Z :=
  match content with
  | EmptyString => hash
  | String ch t =>
      let char := Z.of_N (N_of_ascii ch) in
      let hash1 := (toInt32 (Z.shiftl hash 5) - hash) + char in
      checksumLoop t (toInt32 hash1)
  end.

Definition calculateChecksum (content : string) : string :=
  toString16 (Z.abs (checksumLoop content 0)).

(** ** extractAllFiles *)

(** An entry of [zip.files]: [dir] flag, the outcome of
    [zipEntry.async('base64')] ([None] when it rejects), the object [_data]
    if there is one, and the optional [date]. Of [_data] the code reads
    [uncompressedSize] and [compressedSize]: numbers for a compressed object,
    [undefined] ([None]) for the promise that the library keeps for an entry
    without content. *)
Record ZipEntry := mkEntry {
  entry_dir : bool;
  entry_async : option string;
  entry_data : option (option Z * option Z);
  entry_date : option Z
}.

Definition lastSegment (parts : list string) : string := List.last parts "".

Definition fileInfoOf (now : Z) (relativePath : string) (zipEntry : ZipEntry)
    (fileContent : string) : ExtractedFile :=
  {| file_path := relativePath;
     file_name := lastSegment (split "/"%char relativePath);
     file_content := fileContent;
     file_size :=
       match entry_data zipEntry with Some (u, _) => u | None => Some 0 end;
     file_compressedSize :=
       match entry_data zipEntry with Some (_, c) => c | None => Some 0 end;
     file_directory :=
       if includesChar "/"%char relativePath
       then String.substring 0 (Z.to_nat (lastIndexOf "/"%char relativePath)) relativePath
       else "";
     file_mimeType := detectMimeType relativePath;
     file_lastModified := match entry_date zipEntry with Some d => d | None => now end;
     file_checksum := calculateChecksum fileContent |}.

(** The loop of [extractAllFiles]: directories are passed over, an entry
    whose content cannot be read is logged and passed over. *)
Fixpoint extractAllFiles (now : Z) (entries : list (string * ZipEntry))
  : list ExtractedFile :=
  match entries with
  | [] => []
  | (relativePath, zipEntry) :: rest =>
      if entry_dir zipEntry then extractAllFiles now rest
      else match entry_async zipEntry with
           | Some fileContent =>
               fileInfoOf now relativePath zipEntry fileContent
                 :: extractAllFiles now rest
           | None => extractAllFiles now rest
           end
  end.

(** ** generateStatistics *)

(** A value of the [fileTypes] histogram: a count, or the text that [+ 1]
    produces once the value read through the object was not a number. *)
Inductive HistValue :=
| Count (n : Z)
| Text (s : string).

(** [fileTypes[extension] = (fileTypes[extension] || 0) + 1]. Assigning a
    string to [__proto__] goes to the inherited setter, which ignores it. *)
Definition bumpFileType (fileTypes : gmap string HistValue) (extension : string)
  : gmap string HistValue :=
  let next :=
    match fileTypes !! extension with
    | Some (Count n) => Count (n + 1)
    | Some (Text s) => if String.eqb s "" then Count 1 else Text (s ++ "1")
    | None =>
        if inherited extension then Text (inheritedToString extension ++ "1")
        else Count 1
    end in
  if String.eqb extension "__proto__" then fileTypes
  else <[extension := next]> fileTypes.

Record Statistics := mkStats {
  totalFiles : Z;
  totalSize : Num;
  totalCompressedSize : Z;
  fileTypes : gmap string HistValue;
  directories : list string;
  largestFile : option (string * option Z);
  smallestFile : option (string * option Z);
  averageFileSize : Num;
  compressionRatio : Num
}.

Definition addDirectory (dirs : list string) (d : string) : list string :=
  if inStrings d dirs then dirs else dirs ++ [d].

(** The body of the [forEach] of [generateStatistics]. *)
Definition statsStep (stats : Statistics) (file : ExtractedFile) : Statistics :=
  {| totalFiles := totalFiles stats;
     totalSize := plus (totalSize stats) (file_size file);
     totalCompressedSize := totalCompressedSize stats + orZero (file_compressedSize file);
     fileTypes := bumpFileType (fileTypes stats) (extensionOf (file_name file));
     directories :=
       if String.eqb (file_directory file) "" then directories stats
       else addDirectory (directories stats) (file_directory file);
     largestFile :=
       match largestFile stats with
       | None => Some (file_name file, file_size file)
       | Some (n, s) =>
           if greater (file_size file) s then Some (file_name file, file_size file)
           else Some (n, s)
       end;
     smallestFile :=
       match smallestFile stats with
       | None => Some (file_name file, file_size file)
       | Some (n, s) =>
           if less (file_size file) s then Some (file_name file, file_size file)
           else Some (n, s)
       end;
     averageFileSize := averageFileSize stats;
     compressionRatio := compressionRatio stats |}.

Definition generateStatistics (extractedFiles : list ExtractedFile) : Statistics :=
  let init :=
    {| totalFiles := Z.of_nat (List.length extractedFiles);
       totalSize := Int 0; totalCompressedSize := 0; fileTypes := ∅;
       directories := []; largestFile := None; smallestFile := None;
       averageFileSize := Int 0; compressionRatio := Int 0 |} in
  let stats := fold_left statsStep extractedFiles init in
  {| totalFiles := totalFiles stats;
     totalSize := totalSize stats;
     totalCompressedSize := totalCompressedSize stats;
     fileTypes := fileTypes stats;
     directories := directories stats;
     largestFile := largestFile stats;
     smallestFile := smallestFile stats;
     averageFileSize :=
       if 0 <? totalFiles stats
       then match totalSize stats with
            | Int size => Int (roundDiv size (totalFiles stats))
            | NaN => NaN
            end
       else Int 0;
     compressionRatio :=
       match totalSize stats with
       | Int size =>
           if 0 <? size then roundedRatio (totalCompressedSize stats) size else Int 0
       | NaN => Int 0
       end |}.

(** ** buildFileStructure *)

Record FileMeta := mkMeta {
  meta_size : option Z;
  meta_mimeType : MimeValue;
  meta_lastModified : Z
}.

(** A node of [fileStructure]. A directory node carries its [children]
    object: the own properties of that object and, once a file called
    [__proto__] was stored in it, the file node that the assignment made its
    prototype. *)
#[warnings="-register-all"]
Inductive Node :=
| DirNode (children : gmap string Node) (childrenProto : option FileMeta)
          (fileCount : Z) (totalSize : Num)
| FileNode (meta : FileMeta).

(** What [currentLevel[key]] yields, as far as the code tells the cases
    apart: nothing (falsy), a node stored under that name, or a truthy value
    that is no node of the structure (an inherited member). *)
Inductive PropRead :=
| Missing
| OwnProp (n : Node)
| Alien.

(** The truthy properties that a level inherits from a file node installed
    as its prototype: [type], [size] unless zero or [undefined], [mimeType],
    and [lastModified] (a [Date]). *)
Definition protoTruthy (proto : option FileMeta) (key : string) : bool :=
  match proto with
  | None => false
  | Some m =>
      String.eqb key "type"
      || (String.eqb key "size" && negb (orZero (meta_size m) =? 0))
      || (String.eqb key "mimeType" && mimeTruthy (meta_mimeType m))
      || String.eqb key "lastModified"
  end.

Definition readProp (own : gmap string Node) (proto : option FileMeta)
    (key : string) : PropRead :=
  match own !! key with
  | Some n => OwnProp n
  | None => if inherited key || protoTruthy proto key then Alien else Missing
  end.

Definition metaOf (file : ExtractedFile) : FileMeta :=
  {| meta_size := file_size file;
     meta_mimeType := file_mimeType file;
     meta_lastModified := file_lastModified file |}.

(** The body of the [forEach] for one file, from the level [currentLevel]
    (own properties [own], prototype [proto]) downwards: [dirs] are the
    components [pathParts[0 .. length-2]], [fileName] the last one. [None]
    stands for the [TypeError] that the code raises when it takes the
    [children] of something that is not a directory node. *)
Fixpoint placeFile (dirs : list string) (fileName : string) (file : ExtractedFile)
    (own : gmap string Node) (proto : option FileMeta)
  : option (gmap string Node * option FileMeta) :=
  match dirs with
  | [] =>
      if String.eqb fileName "__proto__" then Some (own, Some (metaOf file))
      else Some (<[fileName := FileNode (metaOf file)]> own, proto)
  | dirName :: rest =>
      match readProp own proto dirName with
      | Missing =>
          match placeFile rest fileName file ∅ None with
          | Some (ch, chp) =>
              Some (<[dirName := DirNode ch chp (0 + 1) (plus (Int 0) (file_size file))]> own,
                    proto)
          | None => None
          end
      | OwnProp (DirNode ch chp fc ts) =>
          match placeFile rest fileName file ch chp with
          | Some (ch', chp') =>
              Some (<[dirName := DirNode ch' chp' (fc + 1) (plus ts (file_size file))]> own,
                    proto)
          | None => None
          end
      | OwnProp (FileNode _) => None
      | Alien => None
      end
  end.

Definition pathParts (file : ExtractedFile) : list string :=
  split "/"%char (file_path file).

Definition buildStep (structure : option (gmap string Node * option FileMeta))
    (file : ExtractedFile) : option (gmap string Node * option FileMeta) :=
  match structure with
  | Some (own, proto) =>
      placeFile (removelast (pathParts file)) (lastSegment (pathParts file))
        file own proto
  | None => None
  end.

Definition buildFileStructure (extractedFiles : list ExtractedFile)
  : option (gmap string Node * option FileMeta) :=
  fold_left buildStep extractedFiles (Some (∅, None)).

(** The node found by following the components [q] from a level. *)
Fixpoint nodeAt (own : gmap string Node) (q : list string) : option Node :=
  match q with
  | [] => None
  | k :: q' =>
      match own !! k with
      | Some n =>
          match q' with
          | [] => Some n
          | _ :: _ =>
              match n with
              | DirNode ch _ _ _ => nodeAt ch q'
              | FileNode _ => None
              end
          end
      | None => None
      end
  end.

Fixpoint isPrefix (d parts : list string) : bool :=
  match d, parts with
  | [], _ => true
  | x :: d', y :: parts' => String.eqb x y && isPrefix d' parts'
  | _ :: _, [] => false
  end.

(** The path [parts] lies under the directory [d]: [d] is a proper prefix of
    its components. *)
Definition liesUnder (d parts : list string) : bool :=
  isPrefix d parts && (List.length d <? List.length parts)%nat.

Definition filesUnder (d : list string) (files : list ExtractedFile) : Z :=
  Z.of_nat (List.length (List.filter (fun f => liesUnder d (pathParts f)) files)).

(** The sum of the sizes of the files under [d]: [NaN] when one of them has
    no size. *)
Definition sizeUnder (d : list string) (files : list ExtractedFile) : Num :=
  total (map file_size (List.filter (fun f => liesUnder d (pathParts f)) files)).

End ZipProcessor.

(* ===================================================================== *)
(** * Asynchronous programs: effects and their sequential meaning *)
(* ===================================================================== *)

Module Js.

(** A thrown value: an [Error] object with its [message] and, when the code
    set one, its [status]; or [undefined]. *)
Inductive Thrown :=
| ErrorObj (message : string) (status : option Z)
| UndefinedValue.

(** How a call ends: it returns, it throws, or it never completes. *)
Inductive Completion (A : Type) :=
| Returned (a : A)
| Threw (e : Thrown)
| Diverges.
Arguments Returned {A} a.
Arguments Threw {A} e.
Arguments Diverges {A}.

(** The part of a JSON body that the code reads; an absent field is the
    empty string, which the code cannot tell from it ([x || ...], [if (x)]). *)
Record Json := mkJson {
  json_message : string;
  json_sha : string;
  json_html_url : string
}.

Inductive Body :=
| NoBody
| RepoConfig (name description : string) (private : bool)
| FileData (message content branch sha : string).

Record Request := mkRequest {
  req_method : string;
  req_endpoint : string;
  req_body : Body
}.

(** The answer to [fetch]: a response with [ok] and a JSON body, a response
    without [ok] (status, status text, and the body or [{}]), or a rejection:
    of [fetch] itself, or of the reading of the body of a response with
    [ok]. Either way the error thrown has no [status]. *)
Inductive Response :=
| Success (json : Json)
| Failure (status : Z) (statusText : string) (errorData : Json)
| Rejected (message : string).

(** The effects of the agent: the clock, timers, the network and the field
    [this.lastRequestTime]. *)
Inductive Op : Type -> Type :=
| DateNow : Op Z
| Delay (ms : Z) : Op unit
| Fetch (r : Request) : Op Response
| GetLastRequestTime : Op Z
| SetLastRequestTime (t : Z) : Op unit.

Inductive Prog (A : Type) : Type :=
| Ret (a : A)
| Throw (e : Thrown)
| Hang
| Vis {X : Type} (op : Op X) (k : X -> Prog A).
Arguments Ret {A} a.
Arguments Throw {A} e.
Arguments Hang {A}.
Arguments Vis {A X} op k.

Fixpoint bind {A B : Type} (p : Prog A) (f : A -> Prog B) : Prog B :=
  match p with
  | Ret a => f a
  | Throw e => Throw e
  | Hang => Hang
  | Vis op k => Vis op (fun x => bind (k x) f)
  end.

(** [try { p } catch (e) { h e }] *)
Fixpoint tryCatch {A : Type} (p : Prog A) (h : Thrown -> Prog A) : Prog A :=
  match p with
  | Ret a => Ret a
  | Throw e => h e
  | Hang => Hang
  | Vis op k => Vis op (fun x => tryCatch (k x) h)
  end.

Definition perform {X : Type} (op : Op X) : Prog X := Vis op Ret.

Inductive Event :=
| Slept (ms : Z)
| Fetched (at_time : Z) (r : Request) (resp : Response).

Record World := mkWorld {
  clock : Z;
  lastRequestTime : Z;
  trace : list Event
}.

(** The remote side: its answer to a request and the time the call takes,
    given everything that happened so far. *)
Definition Remote := World -> Request -> Response * Z.

(** One flow of control, run to its end: timers and calls advance the clock
    by the time they take. The timer of the model is exact: it sleeps for the
    time it is asked for (none for a negative time), neither less nor more by
    [Date.now], and is not asked for [2^31] ms or more, where the timers of
    Node start to fire at once. *)
Fixpoint exec {A : Type} (remote : Remote) (p : Prog A) (w : World)
  : Completion A * World :=
  match p with
  | Ret a => (Returned a, w)
  | Throw e => (Threw e, w)
  | Hang => (Diverges, w)
  | Vis op k =>
      match op in Op X return (X -> Prog A) -> Completion A * World with
      | DateNow => fun k => exec remote (k (clock w)) w
      | Delay ms => fun k =>
          exec remote (k tt)
            {| clock := clock w + Z.max 0 ms;
               lastRequestTime := lastRequestTime w;
               trace := trace w ++ [Slept ms] |}
      | Fetch r => fun k =>
          let '(resp, took) := remote w r in
          exec remote (k resp)
            {| clock := clock w + Z.max 0 took;
               lastRequestTime := lastRequestTime w;
               trace := trace w ++ [Fetched (clock w) r resp] |}
      | GetLastRequestTime => fun k => exec remote (k (lastRequestTime w)) w
      | SetLastRequestTime t => fun k =>
          exec remote (k tt)
            {| clock := clock w; lastRequestTime := t; trace := trace w |}
      end k
  end.

End Js.

Notation "x <- p ;; q" := (Js.bind p (fun x => q))
  (at level 100, p at next level, right associativity).
Notation "p ;;; q" := (Js.bind p (fun _ => q))
  (at level 100, right associativity).

(* ===================================================================== *)
(** * GitHubAgent *)
(* ===================================================================== *)

Module GitHubAgent.
Import JsString JsNumber Js ZipProcessor.

(** The [config] object handed to the constructor; an absent field is [None]. *)
Record Config := mkConfig {
  config_owner : string;
  config_maxRetries : option Z;
  config_retryDelay : option Z;
  config_batchSize : option Z;
  config_rateLimitDelay : option Z
}.

(** [x || d] on a number: [undefined] and [0] give [d]. *)
Definition orDefault (x : option Z) (d : Z) : Z :=
  match x with
  | Some v => if v =? 0 then d else v
  | None => d
  end.

(** The fields of the agent that never change after construction; the one
    that does, [lastRequestTime], lives in the [World]. *)
Record Agent := mkAgent {
  owner : string;
  maxRetries : Z;
  retryDelay : Z;
  batchSize : Z;
  rateLimitDelay : Z
}.

Definition newAgent (config : Config) : Agent :=
  {| owner := config_owner config;
     maxRetries := orDefault (config_maxRetries config) 3;
     retryDelay := orDefault (config_retryDelay config) 1000;
     batchSize := orDefault (config_batchSize config) 10;
     rateLimitDelay := orDefault (config_rateLimitDelay config) 100 |}.

(** The world just after [new GitHubAgent(config)], at time [now]. *)
Definition freshWorld (now : Z) : World :=
  {| clock := now; lastRequestTime := 0; trace := [] |}.

(** The [options] object; an absent string is the empty string. *)
Record Options := mkOptions {
  opt_maxFileSize : option Z;
  opt_allowedExtensions : option (list string);
  opt_createReadme : option bool;
  opt_checkExisting : option bool;
  opt_commitMessage : string;
  opt_branch : string;
  opt_description : string;
  opt_private : bool
}.

Definition noOptions : Options :=
  {| opt_maxFileSize := None; opt_allowedExtensions := None;
     opt_createReadme := None; opt_checkExisting := None;
     opt_commitMessage := ""; opt_branch := ""; opt_description := "";
     opt_private := false |}.

(** [x !== false] *)
Definition notFalse (x : option bool) : bool :=
  match x with
  | Some false => false
  | _ => true
  end.

(** [a || b] on strings. *)
Definition orString (a b : string) : string :=
  if String.eqb a "" then b else a.

Inductive Status := success | failed | skipped.

Record UploadDetail := mkDetail {
  detail_path : string;
  detail_status : Status;
  detail_size : option Z;
  detail_error : option string
}.

Record Results := mkResults {
  successCount : Z;
  failedCount : Z;
  skippedCount : Z;
  details : list UploadDetail;
  totalSize : Z
}.

Inductive RunResult :=
| RunSuccess (repository : Json) (uploadResults : Results)
             (processingTime : Z) (message : string) (timestamp : Z)
| RunFailure (error : string) (folderName : string) (fileCount : Z)
             (processingTime : Z) (timestamp : Z).

(** [Promise]s whose outcome was turned into a value by [.then] / [.catch]. *)
Inductive Settled (A : Type) :=
| Fulfilled (result : A)
| RejectedWith (error : Thrown).
Arguments Fulfilled {A} result.
Arguments RejectedWith {A} error.

(** What [generateReadmeContent] comes to: the text of the README, or the
    message of the [TypeError] that it throws. *)
Inductive Generated :=
| ReadmeText (readme : string)
| ReadmeThrows (message : string).

Definition settle {A : Type} (p : Prog A) : Prog (Settled A) :=
  tryCatch (result <- p ;; Ret (Fulfilled result))
           (fun error => Ret (RejectedWith error)).

(** [await Promise.all(promises)]: the values of the promises, in the order
    of the array. The promises are run here to their ends one after the
    other; [EventLoop] below gives the interleaving of the event loop. *)
Fixpoint promiseAll {A : Type} (promises : list (Prog A)) : Prog (list A) :=
  match promises with
  | [] => Ret []
  | p :: rest => x <- p ;; xs <- promiseAll rest ;; Ret (x :: xs)
  end.

(** [error.message]; reading it off [undefined] is a [TypeError]. *)
Definition typeErrorMessage : string :=
  "Cannot read properties of undefined (reading 'message')".

Definition messageOf (error : Thrown) : Prog string :=
  match error with
  | ErrorObj message _ => Ret message
  | UndefinedValue => Throw (ErrorObj typeErrorMessage None)
  end.

Definition statusOf (error : Thrown) : option Z :=
  match error with
  | ErrorObj _ status => status
  | UndefinedValue => None
  end.

Definition statusIs (error : Thrown) (code : Z) : bool :=
  match statusOf error with
  | Some s => s =? code
  | None => false
  end.

Section Methods.

(** [a.localeCompare(b)], which depends on the locale of the host. *)
Variable localeCompare : string -> string -> Z.
(** [generateReadmeContent] (it reads the clock and renders statistics and a
    tree; only the text matters to the upload) and the base64 encoder. For
    some lists the rendering of the tree throws a [TypeError]: where a path
    leads through a member of [Object.prototype], as [toString/length]
    does. *)
Variable generateReadmeContent : string -> list ExtractedFile -> Generated.
Variable base64 : string -> string.

Variable this : Agent.

(** ** enforceRateLimit, makeGitHubApiCall *)

Definition enforceRateLimit : Prog unit :=
  now <- perform DateNow ;;
  last <- perform GetLastRequestTime ;;
  let timeSinceLastRequest := now - last in
  (if timeSinceLastRequest <? rateLimitDelay this
   then perform (Delay (rateLimitDelay this - timeSinceLastRequest))
   else Ret tt) ;;;
  now' <- perform DateNow ;;
  perform (SetLastRequestTime now').

Definition carriesBody (method : string) : bool :=
  String.eqb method "POST" || String.eqb method "PUT" || String.eqb method "PATCH".

Definition hasData (data : Body) : bool :=
  match data with NoBody => false | _ => true end.

Definition failureMessage (status : Z) (statusText : string) : string :=
  "GitHub API调用失败: " ++ pretty status ++ " " ++ statusText.

Definition makeGitHubApiCall (method endpoint : string) (data : Body) : Prog Json :=
  enforceRateLimit ;;;
  response <- perform (Fetch
    {| req_method := method;
       req_endpoint := "https://api.github.com" ++ endpoint;
       req_body := if hasData data && carriesBody method then data else NoBody |}) ;;
  match response with
  | Success json => Ret json
  | Failure status statusText errorData =>
      Throw (ErrorObj
               (orString (json_message errorData) (failureMessage status statusText))
               (Some status))
  | Rejected message => Throw (ErrorObj message None)
  end.

(** ** validateInput, createRepository, waitForRepositoryReady *)

(** The class of [/^[a-zA-Z0-9._-]+$/]. *)
Definition repoNameChar (c : ascii) : bool :=
  FolderName.allowedChar c || Ascii.eqb c "."%char.

Definition validateInput (folderName : string) (extractedFiles : list ExtractedFile)
  : Prog unit :=
  if String.eqb folderName "" then Throw (ErrorObj "文件夹名称不能为空" None)
  else if (List.length extractedFiles =? 0)%nat then Throw (ErrorObj "文件列表不能为空" None)
  else if negb (FolderName.allChars repoNameChar folderName)
       then Throw (ErrorObj "仓库名称包含无效字符" None)
  else if 100 <? len folderName then Throw (ErrorObj "仓库名称过长（最大100字符）" None)
  else Ret tt.

Definition createRepository (repoName : string) (options : Options) : Prog Json :=
  makeGitHubApiCall "POST" "/user/repos"
    (RepoConfig repoName
       (orString (opt_description options)
                 ("自动创建的仓库，来源于ZIP文件: " ++ repoName))
       (opt_private options)).

Definition timeoutError : Thrown := ErrorObj "等待仓库初始化超时" None.

(** The [while] loop of [waitForRepositoryReady]; [fuel] bounds the number of
    times its condition is evaluated. *)
Fixpoint waitLoop (fuel : nat) (owner repoName : string) (startTime maxWaitTime : Z)
  : Prog unit :=
  match fuel with
  | O => Hang
  | S fuel' =>
      now <- perform DateNow ;;
      if now - startTime <? maxWaitTime then
        tryCatch
          (_ <- makeGitHubApiCall "GET" ("/repos/" ++ owner ++ "/" ++ repoName) NoBody ;;
           Ret tt)
          (fun error =>
             if statusIs error 404
             then perform (Delay 1000) ;;;
                  waitLoop fuel' owner repoName startTime maxWaitTime
             else Throw error)
      else Throw timeoutError
  end.

(** Every pass through the loop that does not leave it waits a second, so
    the condition is evaluated at most [maxWaitTime / 1000 + 2] times. *)
Definition waitFuel (maxWaitTime : Z) : nat := Z.to_nat (maxWaitTime / 1000) + 2.

Definition waitForRepositoryReady (owner repoName : string) (maxWaitTime : Z)
  : Prog unit :=
  startTime <- perform DateNow ;;
  waitLoop (waitFuel maxWaitTime) owner repoName startTime maxWaitTime.

(** ** uploadSingleFile and its retry wrapper *)

Definition contentsEndpoint (owner repoName path : string) : string :=
  "/repos/" ++ owner ++ "/" ++ repoName ++ "/contents/" ++ path.

Definition uploadSingleFile (owner repoName : string) (file : ExtractedFile)
    (options : Options) : Prog Json :=
  enforceRateLimit ;;;
  let commitMessage := orString (opt_commitMessage options) ("Add " ++ file_name file) in
  let branch := orString (opt_branch options) "main" in
  sha <- (if notFalse (opt_checkExisting options) then
            tryCatch
              (existingFile <- makeGitHubApiCall "GET"
                                 (contentsEndpoint owner repoName (file_path file)) NoBody ;;
               Ret (json_sha existingFile))
              (fun error => if statusIs error 404 then Ret "" else Throw error)
          else Ret "") ;;
  makeGitHubApiCall "PUT" (contentsEndpoint owner repoName (file_path file))
    (FileData commitMessage (file_content file) branch sha).

(** The [for] loop of [uploadSingleFileWithRetry] around one attempt
    [uploadAttempt]: [remaining] passes are left, [attempt] is the loop
    variable and [lastError] the variable of that name. *)
Fixpoint retryLoop {A : Type} (uploadAttempt : Prog A) (remaining : nat)
    (attempt : Z) (lastError : Thrown) : Prog A :=
  match remaining with
  | O => Throw lastError
  | S remaining' =>
      tryCatch uploadAttempt
        (fun error =>
           (if attempt <? maxRetries this
            then perform (Delay (retryDelay this * 2 ^ (attempt - 1)))
            else Ret tt) ;;;
           retryLoop uploadAttempt remaining' (attempt + 1) error)
  end.

Definition withRetry {A : Type} (uploadAttempt : Prog A) : Prog A :=
  retryLoop uploadAttempt (Z.to_nat (maxRetries this)) 1 UndefinedValue.

Definition uploadSingleFileWithRetry (owner repoName : string) (file : ExtractedFile)
    (options : Options) : Prog Json :=
  withRetry (uploadSingleFile owner repoName file options).

(** ** filterAndSortFiles, createBatches *)

Definition maxFileSizeSet (options : Options) : option Z :=
  match opt_maxFileSize options with
  | Some m => if m =? 0 then None else Some m
  | None => None
  end.

(** [file.name.substring(file.name.lastIndexOf('.')).toLowerCase()] *)
Definition dottedExtension (name : string) : string :=
  toLowerCase (substringFrom (lastIndexOf "."%char name) name).

Definition passesFilter (options : Options) (file : ExtractedFile) : bool :=
  match maxFileSizeSet options with
  | Some m => orZero (file_size file) <=? m
  | None => true
  end
  &&
  match opt_allowedExtensions options with
  | Some exts => JsObject.inStrings (dottedExtension (file_name file)) exts
  | None => true
  end.

Definition compareFiles (a b : ExtractedFile) : Z :=
  if negb (String.eqb (file_directory a) (file_directory b))
  then localeCompare (file_directory a) (file_directory b)
  else localeCompare (file_name a) (file_name b).

Fixpoint insertSorted (x : ExtractedFile) (sorted : list ExtractedFile)
  : list ExtractedFile :=
  match sorted with
  | [] => [x]
  | y :: rest =>
      if 0 <? compareFiles y x then x :: y :: rest
      else y :: insertSorted x rest
  end.

(** [Array.prototype.sort] with [compareFiles]: a stable sort. *)
Definition sortFiles (files : list ExtractedFile) : list ExtractedFile :=
  fold_left (fun sorted x => insertSorted x sorted) files [].

Definition filterAndSortFiles (files : list ExtractedFile) (options : Options)
  : list ExtractedFile :=
  sortFiles (List.filter (passesFilter options) files).

(** [sort] works in place: without a filter the array sorted is the caller's
    own, which is what the caller holds afterwards. *)
Definition filesAfterUpload (files : list ExtractedFile) (options : Options)
  : list ExtractedFile :=
  match maxFileSizeSet options, opt_allowedExtensions options with
  | None, None => sortFiles files
  | _, _ => files
  end.

Fixpoint chunks (fuel : nat) (n : nat) (files : list ExtractedFile)
  : list (list ExtractedFile) :=
  match fuel with
  | O => []
  | S fuel' =>
      match files with
      | [] => []
      | _ :: _ => firstn n files :: chunks fuel' n (skipn n files)
      end
  end.

(** [createBatches]; with [batchSize <= 0] the index never passes the length
    of a non-empty array and the loop does not end ([None]). *)
Definition createBatches (files : list ExtractedFile) (batchSize : Z)
  : option (list (list ExtractedFile)) :=
  if 0 <? batchSize then Some (chunks (List.length files) (Z.to_nat batchSize) files)
  else match files with
       | [] => Some []
       | _ :: _ => None
       end.

(** ** processBatch, uploadFilesToRepository *)

(** The body of [batchResults.forEach]. *)
Definition tally (results : Results) (entry : ExtractedFile * Settled Json)
  : Prog Results :=
  let (file, outcome) := entry in
  match outcome with
  | Fulfilled _ =>
      Ret {| successCount := successCount results + 1;
             failedCount := failedCount results;
             skippedCount := skippedCount results;
             details := details results ++
               [ {| detail_path := file_path file; detail_status := success;
                    detail_size := file_size file; detail_error := None |} ];
             totalSize := totalSize results + orZero (file_size file) |}
  | RejectedWith error =>
      message <- messageOf error ;;
      Ret {| successCount := successCount results;
             failedCount := failedCount results + 1;
             skippedCount := skippedCount results;
             details := details results ++
               [ {| detail_path := file_path file; detail_status := failed;
                    detail_size := None; detail_error := Some message |} ];
             totalSize := totalSize results |}
  end.

Fixpoint tallyAll (results : Results) (batchResults : list (ExtractedFile * Settled Json))
  : Prog Results :=
  match batchResults with
  | [] => Ret results
  | entry :: rest => results' <- tally results entry ;; tallyAll results' rest
  end.

Definition processBatch (owner repoName : string) (batch : list ExtractedFile)
    (results : Results) (options : Options) : Prog Results :=
  batchResults <-
    promiseAll
      (map (fun file =>
              outcome <- settle (uploadSingleFileWithRetry owner repoName file options) ;;
              Ret (file, outcome))
           batch) ;;
  tallyAll results batchResults.

Fixpoint batchLoop (owner repoName : string) (batches : list (list ExtractedFile))
    (results : Results) (options : Options) : Prog Results :=
  match batches with
  | [] => Ret results
  | batch :: rest =>
      results' <- processBatch owner repoName batch results options ;;
      (match rest with
       | [] => Ret tt
       | _ :: _ => perform (Delay (rateLimitDelay this))
       end) ;;;
      batchLoop owner repoName rest results' options
  end.

Definition emptyResults : Results :=
  {| successCount := 0; failedCount := 0; skippedCount := 0;
     details := []; totalSize := 0 |}.

Definition uploadFilesToRepository (owner repoName : string)
    (files : list ExtractedFile) (options : Options) : Prog Results :=
  let filteredFiles := filterAndSortFiles files options in
  match createBatches filteredFiles (batchSize this) with
  | Some batches => batchLoop owner repoName batches emptyResults options
  | None => Hang
  end.

(** ** createReadmeFile, createRepositoryAndUploadFiles *)

Definition readmeOptions : Options :=
  {| opt_maxFileSize := None; opt_allowedExtensions := None;
     opt_createReadme := None; opt_checkExisting := Some true;
     opt_commitMessage := "Add README.md"; opt_branch := "";
     opt_description := ""; opt_private := false |}.

(** The object [readmeFile] has the four fields that [uploadSingleFile]
    reads; the others are filled with blanks. *)
Definition readmeFile (readme : string) : ExtractedFile :=
  {| file_path := "README.md"; file_name := "README.md";
     file_content := base64 readme; file_size := Some (len readme);
     file_compressedSize := None; file_directory := "";
     file_mimeType := MimeString ""; file_lastModified := 0; file_checksum := "" |}.

Definition createReadmeFile (owner repoName : string) (files : list ExtractedFile)
  : Prog Json :=
  match generateReadmeContent repoName files with
  | ReadmeText readme => uploadSingleFile owner repoName (readmeFile readme) readmeOptions
  | ReadmeThrows message => Throw (ErrorObj message None)
  end.

Definition createRepositoryAndUploadFiles (folderName : string)
    (extractedFiles : list ExtractedFile) (options : Options) : Prog RunResult :=
  startTime <- perform DateNow ;;
  tryCatch
    (validateInput folderName extractedFiles ;;;
     repoData <- createRepository folderName options ;;
     waitForRepositoryReady (owner this) folderName 30000 ;;;
     uploadResults <-
       uploadFilesToRepository (owner this) folderName extractedFiles options ;;
     (if notFalse (opt_createReadme options)
      then _ <- createReadmeFile (owner this) folderName
                  (filesAfterUpload extractedFiles options) ;;
           Ret tt
      else Ret tt) ;;;
     finished <- perform DateNow ;;
     Ret (RunSuccess repoData uploadResults (finished - startTime)
            ("成功创建仓库 " ++ folderName ++ " 并上传 "
               ++ pretty (successCount uploadResults) ++ " 个文件")
            finished))
    (fun error =>
       message <- messageOf error ;;
       finished <- perform DateNow ;;
       Ret (RunFailure message folderName (Z.of_nat (List.length extractedFiles))
              (finished - startTime) finished)).

End Methods.

End GitHubAgent.

(* ===================================================================== *)
(** * The event loop: calls that run concurrently *)
(* ===================================================================== *)

Module EventLoop.
Import Js.

(** A call in flight: suspended at an [await] on a timer or on the network
    until the time [wake] ([seq] orders the suspensions), settled at a time
    with an outcome, or stuck for ever. *)
Inductive Task (A : Type) :=
| Waiting (wake : Z) (seq : nat) (resume : Prog A)
| Settled (at_time : Z) (outcome : Completion A)
| Stuck.
Arguments Waiting {A} wake seq resume.
Arguments Settled {A} at_time outcome.
Arguments Stuck {A}.

(** Run a call until it settles or reaches a timer or the network: code
    between two such points is not interrupted, and takes no time. *)
Fixpoint runSync {A : Type} (remote : Remote) (seq : nat) (p : Prog A) (w : World)
  : Task A * World :=
  match p with
  | Ret a => (Settled (clock w) (Returned a), w)
  | Throw e => (Settled (clock w) (Threw e), w)
  | Hang => (Stuck, w)
  | Vis op k =>
      match op in Op X return (X -> Prog A) -> Task A * World with
      | DateNow => fun k => runSync remote seq (k (clock w)) w
      | Delay ms => fun k =>
          (Waiting (clock w + Z.max 0 ms) seq (k tt),
           {| clock := clock w; lastRequestTime := lastRequestTime w;
              trace := trace w ++ [Slept ms] |})
      | Fetch r => fun k =>
          let '(resp, took) := remote w r in
          (Waiting (clock w + Z.max 0 took) seq (k resp),
           {| clock := clock w; lastRequestTime := lastRequestTime w;
              trace := trace w ++ [Fetched (clock w) r resp] |})
      | GetLastRequestTime => fun k => runSync remote seq (k (lastRequestTime w)) w
      | SetLastRequestTime t => fun k =>
          runSync remote seq (k tt)
            {| clock := clock w; lastRequestTime := t; trace := trace w |}
      end k
  end.

(** The calls are made one after the other in the same turn: each runs up
    to its first suspension. *)
Fixpoint startAll {A : Type} (remote : Remote) (seq : nat) (calls : list (Prog A))
    (w : World) : list (Task A) * World :=
  match calls with
  | [] => ([], w)
  | p :: rest =>
      let '(t, w1) := runSync remote seq p w in
      let '(ts, w2) := startAll remote (S seq) rest w1 in
      (t :: ts, w2)
  end.

(** The suspended task that is due first: least [wake], then least [seq]. *)
Fixpoint firstDue {A : Type} (index : nat) (tasks : list (Task A))
  : option (nat * Z * nat * Prog A) :=
  match tasks with
  | [] => None
  | t :: rest =>
      match t, firstDue (S index) rest with
      | Waiting wake seq p, Some (j, wake', seq', p') =>
          if (wake <? wake') || ((wake =? wake') && (seq <? seq')%nat)
          then Some (index, wake, seq, p)
          else Some (j, wake', seq', p')
      | Waiting wake seq p, None => Some (index, wake, seq, p)
      | _, due => due
      end
  end.

Fixpoint replaceAt {A : Type} (index : nat) (x : A) (l : list A) : list A :=
  match l, index with
  | [], _ => []
  | _ :: rest, O => x :: rest
  | y :: rest, S i => y :: replaceAt i x rest
  end.

(** The loop proper: the clock moves to the task that is due first, which
    runs up to its next suspension; [turns] bounds the number of turns. *)
Fixpoint turnsFrom {A : Type} (remote : Remote) (turns : nat) (seq : nat)
    (tasks : list (Task A)) (w : World) : list (Task A) * World :=
  match turns with
  | O => (tasks, w)
  | S turns' =>
      match firstDue 0 tasks with
      | None => (tasks, w)
      | Some (index, wake, _, p) =>
          let w1 := {| clock := Z.max (clock w) wake;
                       lastRequestTime := lastRequestTime w;
                       trace := trace w |} in
          let '(t, w2) := runSync remote seq p w1 in
          turnsFrom remote turns' (S seq) (replaceAt index t tasks) w2
      end
  end.

Definition runAll {A : Type} (remote : Remote) (turns : nat) (calls : list (Prog A))
    (w : World) : list (Task A) * World :=
  let '(tasks, w1) := startAll remote 0 calls w in
  turnsFrom remote turns (List.length calls) tasks w1.

(** The time at which a call completed, if it did. *)
Definition completedAt {A : Type} (t : Task A) : option Z :=
  match t with
  | Settled at_time (Returned _) => Some at_time
  | _ => None
  end.

End EventLoop.

(* ===================================================================== *)
(** * Vocabulary of the properties *)
(* ===================================================================== *)

(** ** Shapes of a sanitised folder name *)

Module Sanitized.
Import JsString FolderName.

Fixpoint noDoubleDash (s : string) : bool :=
  match s with
  | String c t =>
      match t with
      | String d _ => negb (Ascii.eqb c dash && Ascii.eqb d dash) && noDoubleDash t
      | EmptyString => true
      end
  | EmptyString => true
  end.

Definition startsWithDash (s : string) : bool :=
  match s with
  | String c _ => Ascii.eqb c dash
  | EmptyString => false
  end.

Fixpoint endsWithDash (s : string) : bool :=
  match s with
  | EmptyString => false
  | String c EmptyString => Ascii.eqb c dash
  | String _ t => endsWithDash t
  end.

(** Only characters of [[a-z0-9_-]], no two dashes in a row, no dash at
    either end. *)
Definition sanitized (s : string) : bool :=
  allChars identChar s && noDoubleDash s && negb (startsWithDash s)
  && negb (endsWithDash s).

End Sanitized.

(** ** Counting extensions *)

Module Counting.
Import JsString ZipProcessor.

(** The number of files whose extension, as [generateStatistics] takes it
    from the name, is [extension]. *)
Definition extensionCount (extension : string) (files : list ExtractedFile) : Z :=
  Z.of_nat (List.length
              (List.filter (fun f => String.eqb (extensionOf (file_name f)) extension)
                           files)).

(** The histogram [fileTypes] accounts for the files [done], at the key
    [extension]: nothing is ever stored under [__proto__]; under a member of
    [Object.prototype] some text is stored once a file has that extension;
    under any other key the number of files with that extension. *)
Definition countedAs (fileTypes : gmap string HistValue) (done : list ExtractedFile)
    (extension : string) : Prop :=
  if String.eqb extension "__proto__" then fileTypes !! extension = None
  else if JsObject.inherited extension then
         extensionCount extension done = 0 /\ fileTypes !! extension = None
         \/ 0 < extensionCount extension done
            /\ exists s, fileTypes !! extension = Some (Text s) /\ s <> ""
  else extensionCount extension done = 0 /\ fileTypes !! extension = None
       \/ 0 < extensionCount extension done
          /\ fileTypes !! extension = Some (Count (extensionCount extension done)).

(** The paths form a tree: no file sits where another path has a directory,
    and no component is the name of a member of [Object.prototype]. *)
Definition treeLike (files : list ExtractedFile) : Prop :=
  (forall f g, In f files -> In g files ->
               liesUnder (pathParts f) (pathParts g) = false)
  /\ (forall f c, In f files -> In c (pathParts f) -> JsObject.inherited c = false).

(** Invariants of the loop of [buildFileStructure], after the files [done]:
    the counters of every directory node agree with [done]; a directory of a
    file of [done] is missing only below a file node; every file node is at
    the path of a file of [done]; no level had its prototype replaced. *)
Definition countsAgree (own : gmap string Node) (done : list ExtractedFile) : Prop :=
  forall q ch cp fc ts,
    nodeAt own q = Some (DirNode ch cp fc ts) ->
    fc = filesUnder q done /\ ts = sizeUnder q done.

Definition dirsPresent (own : gmap string Node) (done : list ExtractedFile) : Prop :=
  forall g q,
    In g done -> q <> [] -> liesUnder q (pathParts g) = true ->
    nodeAt own q = None ->
    exists q' m, q' <> [] /\ isPrefix q' q = true
                 /\ (List.length q' < List.length q)%nat
                 /\ nodeAt own q' = Some (FileNode m).

Definition filesFromInput (own : gmap string Node) (done : list ExtractedFile) : Prop :=
  forall q m, nodeAt own q = Some (FileNode m) ->
              exists g, In g done /\ pathParts g = q.

Definition plainLevels (own : gmap string Node) : Prop :=
  forall q ch cp fc ts, nodeAt own q = Some (DirNode ch cp fc ts) -> cp = None.

End Counting.

(** ** Observations on runs of the agent *)

Module Runs.
Import JsString Js ZipProcessor GitHubAgent.

(** The world after [await this.delay(ms)]. *)
Definition slept (ms : Z) (w : World) : World :=
  {| clock := clock w + Z.max 0 ms; lastRequestTime := lastRequestTime w;
     trace := trace w ++ [Slept ms] |}.

(** The world after one call of [fetch] that took [took]. *)
Definition fetched (r : Request) (resp : Response) (took : Z) (w : World) : World :=
  {| clock := clock w + Z.max 0 took; lastRequestTime := lastRequestTime w;
     trace := trace w ++ [Fetched (clock w) r resp] |}.

(** The world after [enforceRateLimit], run on its own. *)
Definition rateLimited (this : Agent) (w : World) : World :=
  let timeSinceLastRequest := clock w - lastRequestTime w in
  let w1 := if timeSinceLastRequest <? rateLimitDelay this
            then slept (rateLimitDelay this - timeSinceLastRequest) w else w in
  {| clock := clock w1; lastRequestTime := clock w1; trace := trace w1 |}.

(** The request that [makeGitHubApiCall] sends, and what it makes of the
    answer. *)
Definition apiRequest (method endpoint : string) (data : Body) : Request :=
  {| req_method := method;
     req_endpoint := "https://api.github.com" ++ endpoint;
     req_body := if hasData data && carriesBody method then data else NoBody |}.

Definition apiOutcome (resp : Response) : Completion Json :=
  match resp with
  | Success json => Returned json
  | Failure status statusText errorData =>
      Threw (ErrorObj (orString (json_message errorData)
                                (failureMessage status statusText))
                      (Some status))
  | Rejected message => Threw (ErrorObj message None)
  end.

Definition requestsOf (events : list Event) : list Request :=
  flat_map (fun ev => match ev with
                      | Fetched _ r _ => [r]
                      | Slept _ => []
                      end) events.

Definition responsesOf (events : list Event) : list Response :=
  flat_map (fun ev => match ev with
                      | Fetched _ _ resp => [resp]
                      | Slept _ => []
                      end) events.


(** The request goes to the [contents] endpoint of the path of [file]. *)
Definition targets (owner repoName : string) (file : ExtractedFile) (r : Request) : Prop :=
  req_endpoint r
  = "https://api.github.com" ++ contentsEndpoint owner repoName (file_path file).

(** The request goes to the [contents] endpoint of one of the files
    [allowed]. *)
Definition aims (owner repoName : string) (allowed : list ExtractedFile) (r : Request)
  : Prop :=
  exists f, In f allowed /\ targets owner repoName f r.

Definition notSkipped (d : UploadDetail) : Prop := detail_status d <> skipped.

(** From [results] to [results']: the skipped counter is untouched, and the
    details grow by entries for [paths], none of them skipped. *)
Definition grownBy (results results' : Results) (paths : list string) : Prop :=
  skippedCount results' = skippedCount results
  /\ exists added,
       details results' = (details results ++ added)%list
       /\ map detail_path added = paths
       /\ Forall notSkipped added.

(** In a list that tells, position by position, whether the upload of a
    file succeeds: how many do, how many do not. *)
Definition succeeding (goods : list bool) : Z :=
  Z.of_nat (List.length (List.filter (fun g => g) goods)).

Definition failing (goods : list bool) : Z :=
  Z.of_nat (List.length (List.filter negb goods)).

(** Every request that the program can send satisfies [P]. *)
Fixpoint fetchesOnly {A : Type} (P : Request -> Prop) (p : Prog A) : Prop :=
  match p with
  | Vis op k =>
      match op in Op X return (X -> Prog A) -> Prop with
      | DateNow => fun k => forall t, fetchesOnly P (k t)
      | Delay _ => fun k => fetchesOnly P (k tt)
      | Fetch r => fun k => P r /\ forall resp, fetchesOnly P (k resp)
      | GetLastRequestTime => fun k => forall t, fetchesOnly P (k t)
      | SetLastRequestTime _ => fun k => fetchesOnly P (k tt)
      end k
  | _ => True
  end.

(** The program throws no value for which [Q] fails, and does not hang. *)
Fixpoint throwsOnly {A : Type} (Q : Thrown -> Prop) (p : Prog A) : Prop :=
  match p with
  | Ret _ => True
  | Throw e => Q e
  | Hang => False
  | Vis op k => forall x, throwsOnly Q (k x)
  end.

Definition isErrorObject (e : Thrown) : Prop :=
  match e with
  | ErrorObj _ _ => True
  | UndefinedValue => False
  end.

Definition alwaysSucceeds {A : Type} (remote : Remote) (op : Prog A) : Prop :=
  forall w, exists a w', exec remote op w = (Returned a, w').

Definition alwaysFails {A : Type} (remote : Remote) (op : Prog A) : Prop :=
  forall w, exists e w', exec remote op w = (Threw e, w').

(** A remote side whose answers depend on the request alone, and the
    outcome of one [uploadSingleFile] against it: the lookup of the existing
    file, if asked for, then the [PUT] with the [sha] found. *)
Definition answering (answer : Request -> Response * Z) : Remote :=
  fun _ r => answer r.

Definition uploadOutcome (answer : Request -> Response * Z) (owner repoName : string)
    (file : ExtractedFile) (options : Options) : Completion Json :=
  let endpoint := contentsEndpoint owner repoName (file_path file) in
  let put sha :=
    apiOutcome
      (fst (answer
              (apiRequest "PUT" endpoint
                 (FileData (orString (opt_commitMessage options) ("Add " ++ file_name file))
                           (file_content file)
                           (orString (opt_branch options) "main") sha)))) in
  if notFalse (opt_checkExisting options) then
    match apiOutcome (fst (answer (apiRequest "GET" endpoint NoBody))) with
    | Returned existingFile => put (json_sha existingFile)
    | Threw error => if statusIs error 404 then put "" else Threw error
    | Diverges => Diverges
    end
  else put "".

(** The upload of [file] behaves as [good] tells, in every world: a single
    attempt succeeds, or every attempt fails. *)
Definition settlesAs (remote : Remote) (this : Agent) (owner repoName : string)
    (options : Options) (file : ExtractedFile) (good : bool) : Prop :=
  if good then alwaysSucceeds remote (uploadSingleFile this owner repoName file options)
  else alwaysFails remote (uploadSingleFile this owner repoName file options).

(** The entry of [batchResults] is a success, or a failure with an [Error]. *)
Definition settledAs (good : bool) (entry : ExtractedFile * Settled Json) : Prop :=
  if good then exists result, snd entry = Fulfilled result
  else exists message status, snd entry = RejectedWith (ErrorObj message status).

(** [op] is attempted [1 + length pauses] times in a row from [w]: every
    attempt fails, the pause [pauses[i]] is taken between attempt [i + 1]
    and attempt [i + 2], and the last attempt fails with [e], leaving [w']. *)
Fixpoint attemptsFail {A : Type} (remote : Remote) (op : Prog A) (pauses : list Z)
    (w : World) (e : Thrown) (w' : World) : Prop :=
  match pauses with
  | [] => exec remote op w = (Threw e, w')
  | ms :: rest =>
      exists e1 w1, exec remote op w = (Threw e1, w1)
                    /\ attemptsFail remote op rest (slept ms w1) e w'
  end.

(** The pauses [baseDelay * 2^(k-2)] before the attempts
    [k = from, from + 1, ..., from + count - 1]. *)
Definition backoffPauses (baseDelay : Z) (from : Z) (count : nat) : list Z :=
  map (fun k => baseDelay * 2 ^ (k - 2))
      (map (fun i => from + Z.of_nat i) (seq 0 count)).

(** *** The readiness wait, in the words of the specification *)

Inductive WaitOutcome :=
| Ready
| TimedOut
| Fatal (error : Thrown).

Definition completionOf (o : WaitOutcome) : Completion unit :=
  match o with
  | Ready => Returned tt
  | TimedOut => Threw timeoutError
  | Fatal e => Threw e
  end.

Definition isNotFound (resp : Response) : bool :=
  match resp with
  | Failure status _ _ => status =? 404
  | _ => false
  end.

Definition isSuccess (resp : Response) : bool :=
  match resp with
  | Success _ => true
  | _ => false
  end.

(** The answers to the lookups of a wait that ended with [outcome]: some
    answers of 404, and then nothing more when the wait timed out, one
    success when it completed, or the failure that ended it. *)
Definition answersOf (outcome : WaitOutcome) (responses : list Response) : Prop :=
  exists notFounds last,
    responses = (notFounds ++ last)%list
    /\ forallb isNotFound notFounds = true
    /\ match outcome with
       | TimedOut => last = []
       | Ready => exists json, last = [Success json]
       | Fatal error =>
           exists resp, last = [resp] /\ isNotFound resp = false
                        /\ isSuccess resp = false /\ apiOutcome resp = Threw error
       end.

Section Polling.
Variable remote : Remote.
Variable this : Agent.
Variables owner repoName : string.
Variables startTime maxWaitTime : Z.

Definition statusLookup : Prog Json :=
  makeGitHubApiCall this "GET" ("/repos/" ++ owner ++ "/" ++ repoName) NoBody.

(** Polling from a world: once the budget has elapsed the wait times out;
    within the budget a lookup is made, which completes the wait when it
    succeeds, ends it with its error when it fails otherwise than by 404,
    and after a 404 is followed by a wait of 1000 ms and another round. *)
Inductive Polls : World -> WaitOutcome -> World -> Prop :=
| polls_timeout w :
    maxWaitTime <= clock w - startTime ->
    Polls w TimedOut w
| polls_ready w json w1 :
    clock w - startTime < maxWaitTime ->
    exec remote statusLookup w = (Returned json, w1) ->
    Polls w Ready w1
| polls_fatal w error w1 :
    clock w - startTime < maxWaitTime ->
    exec remote statusLookup w = (Threw error, w1) ->
    statusIs error 404 = false ->
    Polls w (Fatal error) w1
| polls_again w error w1 o w' :
    clock w - startTime < maxWaitTime ->
    exec remote statusLookup w = (Threw error, w1) ->
    statusIs error 404 = true ->
    Polls (slept 1000 w1) o w' ->
    Polls w o w'.

End Polling.

End Runs.

(** ** The checksum, over the integers *)

Module Checksum.
Import JsString ZipProcessor.

(** The value [c0 * 31^(n-1) + c1 * 31^(n-2) + ... + c(n-1)] of the character
    codes of [content], by Horner's rule from [h]. *)
Fixpoint polynomialFrom (h : Z) (content : string) : Z :=
  match content with
  | EmptyString => h
  | String ch t => polynomialFrom (31 * h + Z.of_N (N_of_ascii ch)) t
  end.

Definition polynomialHash (content : string) : Z := polynomialFrom 0 content.

(** The digits [0]-[9] and [a]-[f], and the number that a string of them
    writes in base 16. *)
Definition isHexDigit (c : ascii) : bool :=
  isDigit c || ((97 <=? code c)%N && (code c <=? 102)%N).

Definition hexDigitValue (c : ascii) : Z :=
  if isDigit c then Z.of_N (code c) - 48 else Z.of_N (code c) - 87.

Fixpoint hexValueFrom (acc : Z) (s : string) : Z :=
  match s with
  | EmptyString => acc
  | String c t => hexValueFrom (16 * acc + hexDigitValue c) t
  end.

Definition hexValue (s : string) : Z := hexValueFrom 0 s.

End Checksum.

(** ** The statistics of a list of files *)

Module Tallies.
Import JsString JsNumber ZipProcessor.

(** The object [stats] before the loop of [generateStatistics]. *)
Definition initialStats (n : Z) : Statistics :=
  {| totalFiles := n; totalSize := Int 0; totalCompressedSize := 0; fileTypes := ∅;
     directories := []; largestFile := None; smallestFile := None;
     averageFileSize := Int 0; compressionRatio := Int 0 |}.

Definition hasSize (file : ExtractedFile) : bool := isNumber (file_size file).

(** The entry kept for the largest file. Nothing is kept for the empty
    list. The first file is taken as it is, and a later file replaces the entry
    only if both sizes are numbers and its size is the larger one: so when the
    first file has no size it is kept to the end; otherwise the entry gives
    the name and the size of a file, and no file that has a size is larger. *)
Definition isLargest (files : list ExtractedFile) (kept : option (string * option Z))
  : Prop :=
  match files with
  | [] => kept = None
  | first :: _ =>
      match file_size first with
      | None => kept = Some (file_name first, None)
      | Some _ =>
          exists f most,
            In f files /\ file_size f = Some most
            /\ kept = Some (file_name f, Some most)
            /\ forall g size, In g files -> file_size g = Some size -> size <= most
      end
  end.

Definition isSmallest (files : list ExtractedFile) (kept : option (string * option Z))
  : Prop :=
  match files with
  | [] => kept = None
  | first :: _ =>
      match file_size first with
      | None => kept = Some (file_name first, None)
      | Some _ =>
          exists f least,
            In f files /\ file_size f = Some least
            /\ kept = Some (file_name f, Some least)
            /\ forall g size, In g files -> file_size g = Some size -> least <= size
      end
  end.

End Tallies.

(* ===================================================================== *)
(** * ZipProcessor: the constructor and validateFile *)
(* ===================================================================== *)

Module ZipProcessorApi.
Import JsString JsObject Js.

(** The [options] object of the constructor; an absent field is [None], or
    the empty string for [encoding]. *)
Record ProcessorOptions := mkProcessorOptions {
  popt_maxFileSize : option Z;
  popt_allowedExtensions : option (list string);
  popt_encoding : string
}.

Record Processor := mkProcessor {
  maxFileSize : Z;
  allowedExtensions : list string;
  encoding : string
}.

(** [new ZipProcessor(options)]: an array, even an empty one, is kept. *)
Definition newProcessor (options : ProcessorOptions) : Processor :=
  {| maxFileSize := GitHubAgent.orDefault (popt_maxFileSize options) (100 * 1024 * 1024);
     allowedExtensions :=
       match popt_allowedExtensions options with
       | Some extensions => extensions
       | None => [".zip"]
       end;
     encoding := GitHubAgent.orString (popt_encoding options) "base64" |}.

(** [validateFile({name, size})]. The extension is cut from the name in
    lower case at the index that the last dot has in the name as given; the
    two have the same length for a name of ASCII characters, for which the
    definition is meant. *)
Definition validateFile (this : Processor) (name : string) (size : Z) : Prog bool :=
  if maxFileSize this <? size then
    Throw (ErrorObj ("文件大小超过限制: " ++ pretty size ++ " > " ++ pretty (maxFileSize this))
                    None)
  else
    let extension := substringFrom (lastIndexOf "."%char name) (toLowerCase name) in
    if negb (inStrings extension (allowedExtensions this)) then
      Throw (ErrorObj ("不支持的文件类型: " ++ extension) None)
    else Ret true.

(** The result object of [processZipFile] ([success] is always [true]);
    [processingTime], a reading of the high-resolution timer, is left out. *)
Record ZipResult := mkZipResult {
  result_folderName : string;
  result_extractedFiles : list ZipProcessor.ExtractedFile;
  result_fileCount : Z;
  result_fileStructure : gmap string ZipProcessor.Node * option ZipProcessor.FileMeta;
  result_statistics : ZipProcessor.Statistics;
  result_timestamp : Z
}.

(** What [zip.loadAsync(zipData, ...)] makes of the data: it rejects with an
    error, or fills [zip.files]. *)
Inductive Loaded :=
| LoadFailed (message : string)
| LoadedFiles (files : list (string * ZipProcessor.ZipEntry)).

Section Processing.

(** The library that reads the archive, and the message of the [TypeError]
    that [buildFileStructure] throws for a list on which it fails. The clock
    is read once: no time passes while the entries are read, so that the
    dates given to entries without one and the time stamp of the result are
    the same reading. *)
Variable loadAsync : string -> Loaded.
Variable structureErrorMessage : list ZipProcessor.ExtractedFile -> string.

Definition processZipFile (zipData originalFileName : string) : Prog ZipResult :=
  let folderName := FolderName.generateFolderName originalFileName in
  match loadAsync zipData with
  | LoadFailed message => Throw (ErrorObj ("ZIP文件处理失败: " ++ message) None)
  | LoadedFiles files =>
      now <- perform DateNow ;;
      let extractedFiles := ZipProcessor.extractAllFiles now files in
      match ZipProcessor.buildFileStructure extractedFiles with
      | None =>
          Throw (ErrorObj ("ZIP文件处理失败: " ++ structureErrorMessage extractedFiles) None)
      | Some fileStructure =>
          Ret {| result_folderName := folderName;
                 result_extractedFiles := extractedFiles;
                 result_fileCount := Z.of_nat (List.length extractedFiles);
                 result_fileStructure := fileStructure;
                 result_statistics := ZipProcessor.generateStatistics extractedFiles;
                 result_timestamp := now |}
      end
  end.

End Processing.

End ZipProcessorApi.

(** ** Paths that collide in the structure *)

Module Conflicts.
Import JsString ZipProcessor.

(** A file node sits on the way to the path [p]: at [p] or above it. *)
Definition blocked (own : gmap string Node) (p : list string) : Prop :=
  exists q m, q <> [] /\ isPrefix q p = true /\ nodeAt own q = Some (FileNode m).

(** No level of the structure has a property of its own called
    [__proto__]: that name always reads the prototype of the level. *)
Definition noProtoKey (own : gmap string Node) : Prop :=
  forall q, nodeAt own (q ++ ["__proto__"]) = None.

(** The state in which no path that goes through [p] can be placed any
    more. *)
Definition closed (p : list string) (own : gmap string Node) : Prop :=
  noProtoKey own /\ (blocked own p \/ In "__proto__" p).

(** Every file of [done] is found at its path, with its own metadata. *)
Definition stored (own : gmap string Node) (done : list ExtractedFile) : Prop :=
  forall f, In f done -> nodeAt own (pathParts f) = Some (FileNode (metaOf f)).

End Conflicts.

(** ** More observations on runs of the agent *)

Module Protocol.
Import JsString Js ZipProcessor GitHubAgent Runs.

(** The two requests of [uploadSingleFile] for a file: the lookup of the
    existing file, and the write that carries the [sha] found, if any. *)
Definition lookupRequest (owner repoName : string) (file : ExtractedFile) : Request :=
  apiRequest "GET" (contentsEndpoint owner repoName (file_path file)) NoBody.

Definition writeRequest (owner repoName : string) (file : ExtractedFile)
    (options : Options) (sha : string) : Request :=
  apiRequest "PUT" (contentsEndpoint owner repoName (file_path file))
    (FileData (orString (opt_commitMessage options) ("Add " ++ file_name file))
              (file_content file)
              (orString (opt_branch options) "main") sha).

(** A call that ends, and not by throwing something that is no [Error]. *)
Definition settlesWell {A : Type} (c : Completion A) : Prop :=
  match c with
  | Returned _ => True
  | Threw e => isErrorObject e
  | Diverges => False
  end.

Definition endsWell {A : Type} (remote : Remote) (p : Prog A) : Prop :=
  forall w, settlesWell (fst (exec remote p w)).

(** The requests that a run for the repository [repoName] of [owner] may
    send: the creation of the repository, the lookup of the repository, and
    for a path the lookup of its contents and the write to it. *)
Definition createRequest (r : Request) : Prop :=
  req_method r = "POST" /\ req_endpoint r = "https://api.github.com/user/repos"
  /\ exists name description private, req_body r = RepoConfig name description private.

Definition statusRequest (owner repoName : string) (r : Request) : Prop :=
  req_method r = "GET"
  /\ req_endpoint r = "https://api.github.com/repos/" ++ owner ++ "/" ++ repoName
  /\ req_body r = NoBody.

Definition contentRequest (owner repoName path : string) (r : Request) : Prop :=
  req_endpoint r = "https://api.github.com" ++ contentsEndpoint owner repoName path
  /\ (req_method r = "GET" /\ req_body r = NoBody
      \/ req_method r = "PUT"
         /\ exists message content branch sha,
             req_body r = FileData message content branch sha).

Definition runRequest (owner repoName : string) (files : list ExtractedFile)
    (options : Options) (r : Request) : Prop :=
  createRequest r
  \/ statusRequest owner repoName r
  \/ contentRequest owner repoName "README.md" r
  \/ exists f, In f files /\ passesFilter options f = true
               /\ contentRequest owner repoName (file_path f) r.

(** The results object that a list of details stands for: its successes
    and failures counted, the sizes of its successes added up. *)
Definition hasStatus (status : Status) (d : UploadDetail) : bool :=
  match detail_status d, status with
  | success, success | failed, failed | skipped, skipped => true
  | _, _ => false
  end.

Definition sizeOf (d : UploadDetail) : Z :=
  match detail_size d with
  | Some size => size
  | None => 0
  end.

Definition recount (uploaded : list UploadDetail) : Results :=
  {| successCount := Z.of_nat (List.length (List.filter (hasStatus success) uploaded));
     failedCount := Z.of_nat (List.length (List.filter (hasStatus failed) uploaded));
     skippedCount := 0;
     details := uploaded;
     totalSize := fold_right Z.add 0 (map sizeOf uploaded) |}.

(** A list in the order of a comparison: every element is in relation with
    all that follow it. *)
Fixpoint sortedBy {A : Type} (R : A -> A -> Prop) (l : list A) : Prop :=
  match l with
  | [] => True
  | x :: rest => Forall (R x) rest /\ sortedBy R rest
  end.

(** [a] may come before [b] in the order of [filterAndSortFiles]. *)
Definition before (localeCompare : string -> string -> Z) (a b : ExtractedFile) : Prop :=
  compareFiles localeCompare a b <= 0.

(** The order of the character codes, as a value for [localeCompare]. *)
Definition codeOrder (a b : string) : Z :=
  match String.compare a b with Lt => -1 | Eq => 0 | Gt => 1 end.

End Protocol.

(* ===================================================================== *)
(** * GitHubAgent.calculateFileStatistics *)
(* ===================================================================== *)

Module Readme.
Import JsString JsNumber JsObject ZipProcessor.

(** The object [stats] of [calculateFileStatistics]. *)
Record FileStatistics := mkFileStatistics {
  stat_totalFiles : Z;
  stat_totalSize : Z;
  stat_fileTypes : gmap string HistValue;
  stat_directories : list string
}.

(** The body of its [forEach]. *)
Definition countFile (stats : FileStatistics) (file : ExtractedFile) : FileStatistics :=
  {| stat_totalFiles := stat_totalFiles stats;
     stat_totalSize := stat_totalSize stats + orZero (file_size file);
     stat_fileTypes := bumpFileType (stat_fileTypes stats) (extensionOf (file_name file));
     stat_directories :=
       if String.eqb (file_directory file) "" then stat_directories stats
       else addDirectory (stat_directories stats) (file_directory file) |}.

Definition calculateFileStatistics (files : list ExtractedFile) : FileStatistics :=
  fold_left countFile files
    {| stat_totalFiles := Z.of_nat (List.length files); stat_totalSize := 0;
       stat_fileTypes := ∅; stat_directories := [] |}.

End Readme.

(* ===================================================================== *)
(** * WorkflowController: the constructor and testConnections *)
(* ===================================================================== *)

Module WorkflowController.
Import JsString Js GitHubAgent.

(** The [config] object of the constructor, and the two variables of the
    environment that it falls back on; an absent string is the empty one. *)
Record ControllerConfig := mkControllerConfig {
  cc_maxFileSize : option Z;
  cc_allowedExtensions : option (list string);
  cc_githubToken : string;
  cc_githubOwner : string;
  cc_batchSize : option Z;
  cc_maxRetries : option Z;
  cc_rateLimitDelay : option Z;
  cc_debug : bool
}.

Record Environment := mkEnvironment {
  GITHUB_TOKEN : string;
  GITHUB_OWNER : string
}.

(** [this.config] *)
Record Settings := mkSettings {
  set_maxFileSize : Z;
  set_allowedExtensions : list string;
  set_githubToken : string;
  set_githubOwner : string;
  set_batchSize : Z;
  set_maxRetries : Z;
  set_rateLimitDelay : Z;
  set_debug : bool
}.

Record Controller := mkController {
  settings : Settings;
  zipProcessor : ZipProcessorApi.Processor;
  githubAgent : Agent
}.

Definition newController (env : Environment) (config : ControllerConfig) : Controller :=
  let settings :=
    {| set_maxFileSize := orDefault (cc_maxFileSize config) (100 * 1024 * 1024);
       set_allowedExtensions :=
         match cc_allowedExtensions config with
         | Some extensions => extensions
         | None => [".zip"]
         end;
       set_githubToken := orString (cc_githubToken config) (GITHUB_TOKEN env);
       set_githubOwner := orString (cc_githubOwner config) (GITHUB_OWNER env);
       set_batchSize := orDefault (cc_batchSize config) 10;
       set_maxRetries := orDefault (cc_maxRetries config) 3;
       set_rateLimitDelay := orDefault (cc_rateLimitDelay config) 200;
       set_debug := cc_debug config |} in
  {| settings := settings;
     zipProcessor :=
       ZipProcessorApi.newProcessor
         (ZipProcessorApi.mkProcessorOptions
            (Some (set_maxFileSize settings)) (Some (set_allowedExtensions settings))
            "base64");
     githubAgent :=
       newAgent
         (mkConfig (set_githubOwner settings) (Some (set_maxRetries settings)) None
            (Some (set_batchSize settings)) (Some (set_rateLimitDelay settings))) |}.

(** The object [results] of [testConnections]. *)
Record Connections := mkConnections {
  github : bool;
  overall : bool;
  errors : list string
}.

Definition testConnections (this : Controller) : Prog Connections :=
  tested <-
    tryCatch
      (_ <- makeGitHubApiCall (githubAgent this) "GET" "/user" NoBody ;;
       Ret (true, []))
      (fun error =>
         message <- messageOf error ;;
         Ret (false, ["GitHub连接失败: " ++ message])) ;;
  Ret {| github := fst tested; overall := fst tested; errors := snd tested |}.

End WorkflowController.

(* ===================================================================== *)
(** * Proofs: generateFolderName *)
(* ===================================================================== *)

Module FolderNameFacts.
Import JsString FolderName Sanitized.

Ltac all_chars c := destruct c as [[] [] [] [] [] [] [] []]; vm_compute; try reflexivity; try discriminate; auto.

Lemma identChar_allowed c : identChar c = true -> allowedChar c = true.
Proof. all_chars c. Qed.

Lemma identChar_lower c : identChar c = true -> lowerChar c = c.
Proof. all_chars c. Qed.

Lemma identChar_not_dot c : identChar c = true -> Ascii.eqb c "."%char = false.
Proof. all_chars c. Qed.

Lemma allowed_lower_ident c : allowedChar c = true -> identChar (lowerChar c) = true.
Proof. all_chars c. Qed.

Lemma lower_dash c : Ascii.eqb (lowerChar c) dash = Ascii.eqb c dash.
Proof. all_chars c. Qed.

Lemma allowed_dash : allowedChar dash = true.
Proof. reflexivity. Qed.

Lemma replaceDisallowed_allowed s : allChars allowedChar (replaceDisallowed s) = true.
Proof.
  induction s as [|c t IH]; simpl; [reflexivity|].
  rewrite IH, andb_true_r. destruct (allowedChar c) eqn:E; [exact E | apply allowed_dash].
Qed.

Lemma collapse_allChars p s : allChars p s = true -> allChars p (collapseDashes s) = true.
Proof.
  induction s as [|c t IH]; [reflexivity|].
  intros H. simpl in H. apply andb_true_iff in H as [Hc Ht].
  specialize (IH Ht). cbn [collapseDashes]. destruct t as [|d u].
  - simpl. now rewrite Hc.
  - destruct (Ascii.eqb c dash && Ascii.eqb d dash); [exact IH|].
    cbn [allChars]. now rewrite Hc, IH.
Qed.

Lemma collapse_head c t :
  exists u, collapseDashes (String c t) = String c u.
Proof.
  revert c. induction t as [|d u IH]; intros c.
  - now exists EmptyString.
  - cbn [collapseDashes]. destruct (Ascii.eqb c dash && Ascii.eqb d dash) eqn:E.
    + apply andb_true_iff in E as [Ec Ed]. apply Ascii.eqb_eq in Ec, Ed. subst.
      apply IH.
    + eexists; reflexivity.
Qed.

Lemma collapse_noDouble s : noDoubleDash (collapseDashes s) = true.
Proof.
  induction s as [|c t IH]; [reflexivity|].
  cbn [collapseDashes]. destruct t as [|d u]; [reflexivity|].
  destruct (Ascii.eqb c dash && Ascii.eqb d dash) eqn:E; [exact IH|].
  destruct (collapse_head d u) as [v Hv]. rewrite Hv in *.
  cbn [noDoubleDash]. cbn [noDoubleDash] in IH. rewrite E. simpl. exact IH.
Qed.

Lemma stripLeading_allChars p s : allChars p s = true -> allChars p (stripLeadingDash s) = true.
Proof.
  destruct s as [|c t]; [reflexivity|]. simpl. intros H.
  apply andb_true_iff in H as [Hc Ht]. destruct (Ascii.eqb c dash); [exact Ht|].
  simpl. now rewrite Hc.
Qed.

Lemma noDouble_tail c t : noDoubleDash (String c t) = true -> noDoubleDash t = true.
Proof.
  cbn [noDoubleDash]. destruct t as [|d u]; [reflexivity|].
  intros H. now apply andb_true_iff in H as [_ H].
Qed.

Lemma stripLeading_noDouble s : noDoubleDash s = true -> noDoubleDash (stripLeadingDash s) = true.
Proof.
  destruct s as [|c t]; [reflexivity|]. intros H. simpl.
  destruct (Ascii.eqb c dash); [now apply noDouble_tail in H | exact H].
Qed.

Lemma stripLeading_starts s :
  noDoubleDash s = true -> startsWithDash (stripLeadingDash s) = false.
Proof.
  destruct s as [|c t]; [reflexivity|]. intros H. simpl.
  destruct (Ascii.eqb c dash) eqn:Ec; [|simpl; exact Ec].
  destruct t as [|d u]; [reflexivity|]. cbn [noDoubleDash] in H. rewrite Ec in H.
  simpl in *. destruct (Ascii.eqb d dash); [discriminate | reflexivity].
Qed.

Lemma stripTrailing_allChars p s : allChars p s = true -> allChars p (stripTrailingDash s) = true.
Proof.
  induction s as [|c t IH]; [reflexivity|]. intros H. simpl in H.
  apply andb_true_iff in H as [Hc Ht]. cbn [stripTrailingDash].
  destruct t as [|d u].
  - destruct (Ascii.eqb c dash); [reflexivity | simpl; now rewrite Hc].
  - cbn [allChars]. now rewrite Hc, IH.
Qed.

Lemma stripTrailing_noDouble s : noDoubleDash s = true -> noDoubleDash (stripTrailingDash s) = true.
Proof.
  induction s as [|c t IH]; [reflexivity|]. intros H.
  pose proof (noDouble_tail _ _ H) as Ht. specialize (IH Ht).
  destruct t as [|d u].
  - simpl. now destruct (Ascii.eqb c dash).
  - change (stripTrailingDash (String c (String d u)))
      with (String c (stripTrailingDash (String d u))).
    cbn [noDoubleDash] in H. apply andb_true_iff in H as [Hcd _].
    remember (stripTrailingDash (String d u)) as v eqn:Ev.
    destruct v as [|e w]; [reflexivity|].
    cbn [noDoubleDash]. cbn [noDoubleDash] in IH.
    assert (He : e = d).
    { destruct u as [|f x]; cbn [stripTrailingDash] in Ev.
      - destruct (Ascii.eqb d dash); [discriminate | now injection Ev].
      - now injection Ev. }
    subst e. rewrite Hcd. exact IH.
Qed.

Lemma stripTrailing_starts s :
  startsWithDash s = false -> startsWithDash (stripTrailingDash s) = false.
Proof.
  destruct s as [|c t]; [reflexivity|]. simpl. intros H.
  destruct t as [|d u]; [now rewrite H | exact H].
Qed.

Lemma stripTrailing_ends s :
  noDoubleDash s = true -> endsWithDash (stripTrailingDash s) = false.
Proof.
  induction s as [|c t IH]; [reflexivity|]. intros H.
  pose proof (noDouble_tail _ _ H) as Ht. specialize (IH Ht).
  destruct t as [|d u].
  - simpl. destruct (Ascii.eqb c dash) eqn:E; [reflexivity | simpl; exact E].
  - change (stripTrailingDash (String c (String d u)))
      with (String c (stripTrailingDash (String d u))).
    remember (stripTrailingDash (String d u)) as v eqn:Ev.
    destruct v as [|e w].
    + (* the tail was a single dash: then c is not a dash *)
      destruct u as [|f x]; cbn [stripTrailingDash] in Ev; [|discriminate].
      destruct (Ascii.eqb d dash) eqn:Ed; [|discriminate].
      cbn [noDoubleDash] in H. rewrite Ed, andb_true_r in H. simpl.
      now destruct (Ascii.eqb c dash).
    + exact IH.
Qed.

Lemma lower_allChars s : allChars allowedChar s = true -> allChars identChar (toLowerCase s) = true.
Proof.
  induction s as [|c t IH]; [reflexivity|]. simpl. intros H.
  apply andb_true_iff in H as [Hc Ht]. now rewrite allowed_lower_ident, IH.
Qed.

Lemma noDouble_cons2 c d u :
  noDoubleDash (String c (String d u))
  = negb (Ascii.eqb c dash && Ascii.eqb d dash) && noDoubleDash (String d u).
Proof. reflexivity. Qed.

Lemma lower_noDouble s : noDoubleDash (toLowerCase s) = noDoubleDash s.
Proof.
  induction s as [|c t IH]; [reflexivity|].
  destruct t as [|d u]; [reflexivity|].
  simpl toLowerCase in *. now rewrite !noDouble_cons2, !lower_dash, IH.
Qed.

Lemma lower_starts s : startsWithDash (toLowerCase s) = startsWithDash s.
Proof. destruct s; [reflexivity|]. simpl. apply lower_dash. Qed.

Lemma lower_ends s : endsWithDash (toLowerCase s) = endsWithDash s.
Proof.
  induction s as [|c t IH]; [reflexivity|].
  destruct t as [|d u]; [simpl; apply lower_dash|].
  change (toLowerCase (String c (String d u)))
    with (String (lowerChar c) (String (lowerChar d) (toLowerCase u))).
  change (toLowerCase (String d u)) with (String (lowerChar d) (toLowerCase u)) in IH.
  exact IH.
Qed.

Lemma generateFolderName_sanitized name : sanitized (generateFolderName name) = true.
Proof.
  unfold generateFolderName, sanitized, trimDashes.
  set (r := replaceDisallowed (stripZipSuffix name)).
  pose proof (replaceDisallowed_allowed (stripZipSuffix name)) as Ha. fold r in Ha.
  pose proof (collapse_allChars _ _ Ha) as Hc.
  pose proof (collapse_noDouble r) as Hn.
  set (k := collapseDashes r) in *.
  rewrite lower_allChars, lower_noDouble, lower_starts, lower_ends.
  - rewrite stripTrailing_noDouble by now apply stripLeading_noDouble.
    rewrite stripTrailing_starts by now apply stripLeading_starts.
    rewrite stripTrailing_ends by now apply stripLeading_noDouble.
    reflexivity.
  - now apply stripTrailing_allChars, stripLeading_allChars.
Qed.

(** A sanitised name is a fixed point of every step. *)
Lemma stripZip_id s : allChars identChar s = true -> stripZipSuffix s = s.
Proof.
  induction s as [|c t IH]; [reflexivity|]. intros H.
  cbn [allChars] in H. apply andb_true_iff in H as [Hc Ht].
  cbn [stripZipSuffix]. rewrite (IH Ht).
  assert (E : isDotZip (String c t) = false).
  { unfold isDotZip. rewrite (identChar_not_dot _ Hc).
    destruct t as [|? [|? [|? [|? ?]]]]; reflexivity. }
  now rewrite E.
Qed.

Lemma replaceDisallowed_id s : allChars identChar s = true -> replaceDisallowed s = s.
Proof.
  induction s as [|c t IH]; [reflexivity|]. simpl. intros H.
  apply andb_true_iff in H as [Hc Ht]. now rewrite (identChar_allowed _ Hc), IH.
Qed.

Lemma collapse_id s : noDoubleDash s = true -> collapseDashes s = s.
Proof.
  induction s as [|c t IH]; [reflexivity|]. intros H.
  pose proof (noDouble_tail _ _ H) as Ht. cbn [collapseDashes].
  destruct t as [|d u]; [reflexivity|].
  cbn [noDoubleDash] in H. apply andb_true_iff in H as [Hcd _].
  apply negb_true_iff in Hcd. rewrite Hcd. now rewrite (IH Ht).
Qed.

Lemma stripLeading_id s : startsWithDash s = false -> stripLeadingDash s = s.
Proof. destruct s as [|c t]; [reflexivity|]. simpl. now intros ->. Qed.

Lemma stripTrailing_id s : endsWithDash s = false -> stripTrailingDash s = s.
Proof.
  induction s as [|c t IH]; [reflexivity|]. intros H.
  destruct t as [|d u]; [simpl in *; now rewrite H|].
  change (stripTrailingDash (String c (String d u)))
    with (String c (stripTrailingDash (String d u))).
  now rewrite IH.
Qed.

Lemma lower_id s : allChars identChar s = true -> toLowerCase s = s.
Proof.
  induction s as [|c t IH]; [reflexivity|]. simpl. intros H.
  apply andb_true_iff in H as [Hc Ht]. now rewrite (identChar_lower _ Hc), IH.
Qed.

Lemma generateFolderName_fixed s : sanitized s = true -> generateFolderName s = s.
Proof.
  unfold sanitized. intros H.
  apply andb_true_iff in H as [H He]. apply andb_true_iff in H as [H Hs].
  apply andb_true_iff in H as [Ha Hn].
  apply negb_true_iff in He, Hs.
  unfold generateFolderName, trimDashes.
  now rewrite stripZip_id, replaceDisallowed_id, collapse_id, stripLeading_id,
    stripTrailing_id, lower_id.
Qed.

(** No step makes the name longer. *)
Lemma stripZip_length s : (String.length (stripZipSuffix s) <= String.length s)%nat.
Proof.
  induction s as [|c t IH]; [simpl; lia|]. cbn [stripZipSuffix].
  destruct (isDotZip (String c t)); simpl; lia.
Qed.
Lemma replace_length s : String.length (replaceDisallowed s) = String.length s.
Proof. induction s; simpl; congruence. Qed.
Lemma collapse_length s : (String.length (collapseDashes s) <= String.length s)%nat.
Proof.
  induction s as [|c t IH]; [simpl; lia|]. cbn [collapseDashes].
  destruct t as [|d u]; [simpl; lia|].
  destruct (Ascii.eqb c dash && Ascii.eqb d dash); simpl in *; lia.
Qed.
Lemma stripLeading_length s : (String.length (stripLeadingDash s) <= String.length s)%nat.
Proof. destruct s as [|c t]; simpl; [lia|]. destruct (Ascii.eqb c dash); simpl; lia. Qed.
Lemma stripTrailing_length s : (String.length (stripTrailingDash s) <= String.length s)%nat.
Proof.
  induction s as [|c t IH]; [simpl; lia|].
  destruct t as [|d u]; [simpl; destruct (Ascii.eqb c dash); simpl; lia|].
  change (stripTrailingDash (String c (String d u)))
    with (String c (stripTrailingDash (String d u))).
  simpl in *. lia.
Qed.
Lemma lower_length s : String.length (toLowerCase s) = String.length s.
Proof. induction s; simpl; congruence. Qed.

Lemma generateFolderName_length s :
  (String.length (generateFolderName s) <= String.length s)%nat.
Proof.
  unfold generateFolderName, trimDashes. rewrite lower_length.
  etransitivity; [apply stripTrailing_length|].
  etransitivity; [apply stripLeading_length|].
  etransitivity; [apply collapse_length|].
  rewrite replace_length. apply stripZip_length.
Qed.

End FolderNameFacts.

(** C5, as stated, fails: the name [.zip] is sanitised to the empty string,
    which does not match [^[a-z0-9_-]+$]. *)
Lemma C5_counterexample :
  ~ (forall name : string,
        FolderName.generateFolderName (FolderName.generateFolderName name)
        = FolderName.generateFolderName name
        /\ FolderName.matchesIdentifier (FolderName.generateFolderName name) = true
        /\ (String.length (FolderName.generateFolderName name) <= 100)%nat).
Proof.
  intros H. destruct (H ".zip") as (_ & Hmatch & _).
  vm_compute in Hmatch. discriminate Hmatch.
Qed.

(** The bound of 100 characters fails as well: a name of 101 letters is
    returned as it is. *)
Lemma generateFolderName_can_exceed_100 :
  String.length (FolderName.generateFolderName (String.concat "" (repeat "a" 101))) = 101%nat.
Proof. vm_compute. reflexivity. Qed.

(** [validateInput] is where the empty and the over-long name are refused. *)
Lemma validateInput_refuses_empty files :
  GitHubAgent.validateInput "" files = Js.Throw (Js.ErrorObj "文件夹名称不能为空" None).
Proof. reflexivity. Qed.

(** C5 (amended): for every archive name, [generateFolderName] is idempotent;
    its result consists of characters of [[a-z0-9_-]] only, so that it matches
    [^[a-z0-9_-]+$] exactly when it is not empty; and it is no longer than
    the name. *)
Theorem C5_generateFolderName_idempotent_and_clean (name : string) :
  let r := FolderName.generateFolderName name in
  FolderName.generateFolderName r = r
  /\ FolderName.allChars FolderName.identChar r = true
  /\ FolderName.matchesIdentifier r = negb (String.eqb r "")
  /\ (String.length r <= String.length name)%nat.
Proof.
  intros r. pose proof (FolderNameFacts.generateFolderName_sanitized name) as Hs.
  fold r in Hs. split; [|split; [|split]].
  - now apply FolderNameFacts.generateFolderName_fixed.
  - unfold Sanitized.sanitized in Hs.
    repeat (apply andb_true_iff in Hs as [Hs _]). exact Hs.
  - unfold FolderName.matchesIdentifier, Sanitized.sanitized in *.
    repeat (apply andb_true_iff in Hs as [Hs _]). now rewrite Hs, andb_true_r.
  - apply FolderNameFacts.generateFolderName_length.
Qed.

(* ===================================================================== *)
(** * Proofs: extensions, MIME types and the histogram *)
(* ===================================================================== *)

Module ExtensionFacts.
Import JsString JsObject ZipProcessor Counting.

Lemma lastIndexOf_absent c s : includesChar c s = false -> lastIndexOf c s = -1.
Proof.
  induction s as [|d t IH]; [reflexivity|]. simpl. intros H.
  apply orb_false_iff in H as [Hd Ht]. now rewrite (IH Ht), Hd.
Qed.

Lemma extensionOf_dotless s :
  includesChar "."%char s = false -> extensionOf s = toLowerCase s.
Proof. intros H. unfold extensionOf. now rewrite (lastIndexOf_absent _ _ H). Qed.

Lemma extracted_is_fileInfo now entries f :
  In f (extractAllFiles now entries) ->
  exists relativePath zipEntry fileContent,
    f = fileInfoOf now relativePath zipEntry fileContent.
Proof.
  induction entries as [|[p e] rest IH]; [intros []|]. simpl.
  destruct (entry_dir e); [exact IH|].
  destruct (entry_async e) as [c|]; [|exact IH].
  intros [<-|H]; [now exists p, e, c | now apply IH].
Qed.

Lemma extensionCount_snoc ext done f :
  extensionCount ext (done ++ [f])
  = extensionCount ext done + (if String.eqb (extensionOf (file_name f)) ext then 1 else 0).
Proof.
  unfold extensionCount. rewrite List.filter_app, List.length_app. simpl.
  destruct (String.eqb (extensionOf (file_name f)) ext); simpl; lia.
Qed.

Lemma extensionCount_nonneg ext done : 0 <= extensionCount ext done.
Proof. unfold extensionCount. lia. Qed.

Lemma append_nonempty (s t : string) : t <> "" -> (s ++ t)%string <> "".
Proof. destruct s; simpl; [auto | discriminate]. Qed.

Lemma bumpFileType_counted ft done f :
  (forall ext, countedAs ft done ext) ->
  forall ext, countedAs (bumpFileType ft (extensionOf (file_name f))) (done ++ [f]) ext.
Proof.
  intros Hinv ext. specialize (Hinv ext).
  unfold countedAs in *. rewrite extensionCount_snoc.
  pose proof (extensionCount_nonneg ext done) as Hnn.
  set (e := extensionOf (file_name f)). unfold bumpFileType.
  destruct (String.eqb_spec e ext) as [->|Hne].
  - (* the key that is bumped *)
    destruct (String.eqb ext "__proto__") eqn:Hp; [exact Hinv|].
    rewrite lookup_insert_eq.
    destruct (inherited ext) eqn:Hi.
    + right. split; [lia|].
      destruct Hinv as [[_ ->]|[_ (s & -> & Hs)]].
      * eexists; split; [reflexivity|]. apply append_nonempty. discriminate.
      * apply String.eqb_neq in Hs. rewrite Hs.
        eexists; split; [reflexivity|]. apply append_nonempty. discriminate.
    + right. split; [lia|].
      destruct Hinv as [[Hz ->]|[_ ->]]; [now rewrite Hz | reflexivity].
  - (* another key *)
    rewrite Z.add_0_r.
    destruct (String.eqb e "__proto__"); [exact Hinv|].
    now rewrite lookup_insert_ne.
Qed.

Lemma statsStep_fileTypes stats f :
  fileTypes (statsStep stats f) = bumpFileType (fileTypes stats) (extensionOf (file_name f)).
Proof. reflexivity. Qed.

Lemma fold_statsStep_counted files :
  forall stats done,
    (forall ext, countedAs (fileTypes stats) done ext) ->
    forall ext, countedAs (fileTypes (fold_left statsStep files stats)) (done ++ files) ext.
Proof.
  induction files as [|f rest IH]; intros stats done Hinv ext.
  - simpl. rewrite app_nil_r. apply Hinv.
  - simpl. replace (done ++ f :: rest)%list with ((done ++ [f]) ++ rest)%list
      by (rewrite <- app_assoc; reflexivity).
    apply IH. intros ext'. rewrite statsStep_fileTypes.
    now apply bumpFileType_counted.
Qed.

Lemma generateStatistics_counted files ext :
  countedAs (fileTypes (generateStatistics files)) files ext.
Proof.
  unfold generateStatistics. cbn [fileTypes].
  apply (fold_statsStep_counted files _ [] ).
  intros ext'. unfold countedAs. cbn [fileTypes].
  rewrite lookup_empty. unfold extensionCount. simpl.
  destruct (String.eqb ext' "__proto__"); [reflexivity|].
  destruct (inherited ext'); left; split; reflexivity.
Qed.

Lemma extensionCount_member ext files f :
  In f files -> extensionOf (file_name f) = ext -> 0 < extensionCount ext files.
Proof.
  intros Hin He. unfold extensionCount.
  assert (In f (List.filter (fun f => String.eqb (extensionOf (file_name f)) ext) files)) as H.
  { apply List.filter_In. split; [exact Hin|]. now apply String.eqb_eq. }
  destruct (List.filter _ files); [destruct H | simpl; lia].
Qed.

End ExtensionFacts.

(** C10, as stated, fails: the file extracted from the entry [src/json] has
    the name [json], which has no dot and is a key of the MIME table, but its
    MIME type is the default one. *)
Lemma C10_counterexample :
  ~ (forall (now : Z) (relativePath : string) (zipEntry : ZipProcessor.ZipEntry)
            (fileContent m : string),
        let file := ZipProcessor.fileInfoOf now relativePath zipEntry fileContent in
        JsString.includesChar "."%char (ZipProcessor.file_name file) = false ->
        ZipProcessor.mimeTypes !! JsString.toLowerCase (ZipProcessor.file_name file) = Some m ->
        ZipProcessor.file_mimeType file = ZipProcessor.MimeString m).
Proof.
  intros H.
  specialize (H 0 "src/json" (ZipProcessor.mkEntry false (Some "") None None) ""
                "application/json" eq_refl eq_refl).
  vm_compute in H. discriminate H.
Qed.

(** C10 (amended): for every extracted file, (1) if its path has no dot, the
    MIME type is the entry of the table for the whole lowercased path, when
    there is one; (2) if its name has no dot and is not [__proto__] in lower
    case, the whole lowercased name is a key of the [fileTypes] histogram,
    whose count, unless the name is a member of [Object.prototype], is the
    number of files with that extension. *)
Theorem C10_dotless_names_are_their_own_extension
    (now : Z) (entries : list (string * ZipProcessor.ZipEntry))
    (file : ZipProcessor.ExtractedFile)
    (Hfile : In file (ZipProcessor.extractAllFiles now entries)) :
  (JsString.includesChar "."%char (ZipProcessor.file_path file) = false ->
   forall m, ZipProcessor.mimeTypes !! JsString.toLowerCase (ZipProcessor.file_path file) = Some m ->
             ZipProcessor.file_mimeType file = ZipProcessor.MimeString m)
  /\
  (JsString.includesChar "."%char (ZipProcessor.file_name file) = false ->
   JsString.toLowerCase (ZipProcessor.file_name file) <> "__proto__" ->
   let key := JsString.toLowerCase (ZipProcessor.file_name file) in
   let stats := ZipProcessor.generateStatistics (ZipProcessor.extractAllFiles now entries) in
   exists v, ZipProcessor.fileTypes stats !! key = Some v
             /\ (JsObject.inherited key = false ->
                 v = ZipProcessor.Count
                       (Counting.extensionCount key (ZipProcessor.extractAllFiles now entries))
                 /\ 1 <= Counting.extensionCount key (ZipProcessor.extractAllFiles now entries))).
Proof.
  split.
  - intros Hdot m Hm.
    destruct (ExtensionFacts.extracted_is_fileInfo _ _ _ Hfile) as (p & e & c & ->).
    cbn [ZipProcessor.file_mimeType ZipProcessor.file_path ZipProcessor.fileInfoOf] in *.
    unfold ZipProcessor.detectMimeType.
    rewrite (ExtensionFacts.extensionOf_dotless _ Hdot). now rewrite Hm.
  - intros Hdot Hproto key stats.
    pose proof (ExtensionFacts.generateStatistics_counted
                  (ZipProcessor.extractAllFiles now entries) key) as Hc.
    pose proof (ExtensionFacts.extensionCount_member key _ _ Hfile
                  (ExtensionFacts.extensionOf_dotless _ Hdot)) as Hpos.
    unfold Counting.countedAs in Hc. fold stats in Hc.
    apply String.eqb_neq in Hproto. fold key in Hproto. rewrite Hproto in Hc.
    destruct (JsObject.inherited key).
    + destruct Hc as [[Hz _]|[_ (s & Hs & _)]]; [lia|].
      exists (ZipProcessor.Text s). split; [exact Hs | discriminate].
    + destruct Hc as [[Hz _]|[_ Hs]]; [lia|].
      eexists. split; [exact Hs|]. intros _. split; [reflexivity | lia].
Qed.

Lemma C10_witness :
  let entries := [("json", ZipProcessor.mkEntry false (Some "e30=") (Some (Some 2, Some 2)) None);
                  ("src/Makefile", ZipProcessor.mkEntry false (Some "") None None)] in
  let file := ZipProcessor.fileInfoOf 0 "json" (ZipProcessor.mkEntry false (Some "e30=") (Some (Some 2, Some 2)) None) "e30=" in
  ZipProcessor.file_mimeType file = ZipProcessor.MimeString "application/json"
  /\ exists v, ZipProcessor.fileTypes
                 (ZipProcessor.generateStatistics (ZipProcessor.extractAllFiles 0 entries))
               !! "json" = Some v.
Proof.
  intros entries file.
  destruct (C10_dotless_names_are_their_own_extension 0 entries file) as [H1 H2].
  - left. reflexivity.
  - split.
    + apply H1; [reflexivity|]. vm_compute. reflexivity.
    + destruct H2 as (v & Hv & _); [reflexivity | discriminate |].
      exists v. exact Hv.
Defined.

(* ===================================================================== *)
(** * Proofs: buildFileStructure *)
(* ===================================================================== *)

Module NumberFacts.
Import JsNumber.

Lemma sum_snoc (l : list Z) x : fold_right Z.add 0 (l ++ [x]) = fold_right Z.add 0 l + x.
Proof. induction l as [|y l IH]; simpl; lia. Qed.

Lemma forallb_snoc {A : Type} (p : A -> bool) l x :
  forallb p (l ++ [x]) = forallb p l && p x.
Proof. rewrite forallb_app. simpl. now rewrite andb_true_r. Qed.

Lemma forallb_map {A B : Type} (f : A -> B) (p : B -> bool) l :
  forallb p (map f l) = forallb (fun x => p (f x)) l.
Proof. induction l as [|x l IH]; simpl; [reflexivity | now rewrite IH]. Qed.

(** Adding the sizes one by one, as the code does, gives their sum, or [NaN]
    from the first [undefined] on. *)
Lemma total_snoc sizes s : total (sizes ++ [s]) = plus (total sizes) s.
Proof.
  unfold total. rewrite forallb_snoc, map_app. cbn [map]. rewrite sum_snoc.
  destruct (forallb isNumber sizes); destruct s; reflexivity.
Qed.

Lemma total_numbers sizes :
  forallb isNumber sizes = true -> total sizes = Int (fold_right Z.add 0 (map orZero sizes)).
Proof. unfold total. now intros ->. Qed.

Lemma total_undefined sizes : forallb isNumber sizes = false -> total sizes = NaN.
Proof. unfold total. now intros ->. Qed.

End NumberFacts.

Module StructureFacts.
Import JsString JsNumber JsObject ZipProcessor Counting.

Lemma split_nonempty c s : split c s <> [].
Proof.
  destruct s as [|d t]; simpl; [discriminate|].
  destruct (Ascii.eqb d c); [discriminate|].
  destruct (split c t); discriminate.
Qed.

Lemma pathParts_split file :
  pathParts file = (removelast (pathParts file) ++ [lastSegment (pathParts file)])%list.
Proof. apply app_removelast_last, split_nonempty. Qed.

(** ** Prefixes *)

Lemma isPrefix_refl q : isPrefix q q = true.
Proof. induction q as [|k q IH]; simpl; [reflexivity|]. now rewrite String.eqb_refl. Qed.

Lemma isPrefix_length q p : isPrefix q p = true -> (List.length q <= List.length p)%nat.
Proof.
  revert p. induction q as [|k q IH]; intros [|x p]; simpl; try lia; try discriminate.
  intros H. apply andb_true_iff in H as [_ H]. apply IH in H. lia.
Qed.

Lemma isPrefix_trans a b c : isPrefix a b = true -> isPrefix b c = true -> isPrefix a c = true.
Proof.
  revert b c. induction a as [|x a IH]; intros [|y b] [|z c]; simpl; try reflexivity; try discriminate.
  intros H1 H2. apply andb_true_iff in H1 as [E1 H1], H2 as [E2 H2].
  apply String.eqb_eq in E1, E2. subst. rewrite String.eqb_refl. simpl. eauto.
Qed.

Lemma isPrefix_same_length q p :
  isPrefix q p = true -> List.length q = List.length p -> q = p.
Proof.
  revert p. induction q as [|k q IH]; intros [|x p]; simpl; try reflexivity; try discriminate.
  intros H L. apply andb_true_iff in H as [E H]. apply String.eqb_eq in E.
  subst. f_equal. apply IH; [exact H | lia].
Qed.

(** Under a file: the directories above it. *)
Lemma liesUnder_snoc q dirs name :
  liesUnder q (dirs ++ [name]) = isPrefix q dirs.
Proof.
  unfold liesUnder. revert dirs. induction q as [|k q IH]; intros dirs.
  - simpl. rewrite List.length_app. simpl.
    destruct (Nat.ltb_spec 0 (List.length dirs + 1)); [reflexivity | lia].
  - destruct dirs as [|d dirs]; simpl.
    + destruct q; simpl; rewrite ?andb_false_r; reflexivity.
    + specialize (IH dirs). destruct (String.eqb k d); simpl; [|reflexivity].
      rewrite <- IH. reflexivity.
Qed.

Lemma liesUnder_prefix q p : liesUnder q p = true -> isPrefix q p = true.
Proof. unfold liesUnder. intros H. now apply andb_true_iff in H as [H _]. Qed.

(** ** Counting the files under a directory *)

Lemma filesUnder_snoc q done f :
  filesUnder q (done ++ [f])
  = filesUnder q done + (if liesUnder q (pathParts f) then 1 else 0).
Proof.
  unfold filesUnder. rewrite List.filter_app, List.length_app. simpl.
  destruct (liesUnder q (pathParts f)); simpl; lia.
Qed.

Lemma sizeUnder_snoc q done f :
  sizeUnder q (done ++ [f])
  = if liesUnder q (pathParts f) then plus (sizeUnder q done) (file_size f)
    else sizeUnder q done.
Proof.
  unfold sizeUnder. rewrite List.filter_app, List.map_app. simpl.
  destruct (liesUnder q (pathParts f)); simpl.
  - apply NumberFacts.total_snoc.
  - now rewrite app_nil_r.
Qed.

Lemma filesUnder_none q done :
  (forall g, In g done -> liesUnder q (pathParts g) = false) ->
  filesUnder q done = 0 /\ sizeUnder q done = Int 0.
Proof.
  intros H. unfold filesUnder, sizeUnder.
  assert (List.filter (fun f => liesUnder q (pathParts f)) done = []) as ->.
  { induction done as [|g done IH]; [reflexivity|]. simpl.
    rewrite (H g (or_introl eq_refl)). apply IH. intros g' Hg. apply H. now right. }
  split; reflexivity.
Qed.

(** ** Reading the structure along a path *)

Lemma nodeAt_empty q : nodeAt ∅ q = None.
Proof. destruct q; [reflexivity|]. simpl. now rewrite lookup_empty. Qed.

Lemma nodeAt_cons (own : gmap string Node) k q :
  nodeAt own (k :: q) =
  match own !! k with
  | Some n =>
      match q with
      | [] => Some n
      | _ :: _ => match n with
                  | DirNode ch _ _ _ => nodeAt ch q
                  | FileNode _ => None
                  end
      end
  | None => None
  end.
Proof. reflexivity. Qed.

Lemma nodeAt_insert_ne (own : gmap string Node) d n k q :
  d <> k -> nodeAt (<[d := n]> own) (k :: q) = nodeAt own (k :: q).
Proof. intros H. rewrite !nodeAt_cons. now rewrite lookup_insert_ne. Qed.

(** What one [placeFile] does to the node at each path [q]. *)
Record Placed (dirs : list string) (name : string) (file : ExtractedFile)
    (own own' : gmap string Node) (q : list string) : Prop := {
  placed_above :
    isPrefix q dirs = true ->
    (exists ch cp fc ts ch' cp',
        nodeAt own q = Some (DirNode ch cp fc ts)
        /\ nodeAt own' q = Some (DirNode ch' cp' (fc + 1) (plus ts (file_size file)))
        /\ (name <> "__proto__" -> cp' = cp))
    \/ (nodeAt own q = None
        /\ exists ch' cp',
            nodeAt own' q = Some (DirNode ch' cp' (0 + 1) (plus (Int 0) (file_size file)))
            /\ (name <> "__proto__" -> cp' = None));
  placed_aside :
    isPrefix q dirs = false ->
    name = "__proto__" \/ isPrefix (dirs ++ [name]) q = false ->
    nodeAt own' q = nodeAt own q;
  placed_at :
    name <> "__proto__" ->
    isPrefix (dirs ++ [name]) q = true ->
    (q = (dirs ++ [name])%list /\ nodeAt own' q = Some (FileNode (metaOf file)))
    \/ ((List.length dirs + 1 < List.length q)%nat /\ nodeAt own' q = None)
}.

Lemma placeFile_proto dirs name file own proto own' proto' :
  placeFile dirs name file own proto = Some (own', proto') ->
  name <> "__proto__" -> proto' = proto.
Proof.
  intros Hp Hn. destruct dirs as [|d rest]; cbn [placeFile] in Hp.
  - apply String.eqb_neq in Hn. rewrite Hn in Hp. now injection Hp.
  - destruct (readProp own proto d) as [|[ch cp fc ts|m]|]; try discriminate.
    + destruct (placeFile rest name file ∅ None) as [[? ?]|]; [|discriminate].
      now injection Hp.
    + destruct (placeFile rest name file ch cp) as [[? ?]|]; [|discriminate].
      now injection Hp.
Qed.

Lemma isPrefix_cons_same k q rest : isPrefix (k :: q) (k :: rest) = isPrefix q rest.
Proof. simpl. now rewrite String.eqb_refl. Qed.

Lemma isPrefix_cons_other k q d rest : k <> d -> isPrefix (k :: q) (d :: rest) = false.
Proof. intros H. simpl. apply String.eqb_neq in H. now rewrite H. Qed.

(** A path that leaves the directories of the file at its first component. *)
Lemma placed_elsewhere d rest name file (own : gmap string Node) n k q :
  k <> d -> Placed (d :: rest) name file own (<[d := n]> own) (k :: q).
Proof.
  intros Hk. split.
  - rewrite (isPrefix_cons_other _ _ _ _ Hk). discriminate.
  - intros _ _. apply nodeAt_insert_ne. congruence.
  - intros _. change ((d :: rest) ++ [name])%list with (d :: (rest ++ [name]))%list.
    rewrite isPrefix_cons_other by congruence. discriminate.
Qed.

(** A path that goes down the first directory of the file: the directory
    node itself, or a path inside it, where the recursive call applies. *)
Lemma placed_below d rest name file (own chOld ch' : gmap string Node)
    (old : option Node) cp' fc ts q :
  own !! d = old ->
  (forall k' q', q = k' :: q' ->
                 match old with
                 | Some (DirNode ch _ _ _) => nodeAt own (d :: q) = nodeAt ch q /\ chOld = ch
                 | _ => nodeAt own (d :: q) = None /\ chOld = ∅
                 end) ->
  (q = [] ->
   match old with
   | Some (DirNode ch cp fc0 ts0) =>
       fc = fc0 + 1 /\ ts = plus ts0 (file_size file) /\ (name <> "__proto__" -> cp' = cp)
   | Some (FileNode _) => False
   | None => fc = 0 + 1 /\ ts = plus (Int 0) (file_size file)
             /\ (name <> "__proto__" -> cp' = None)
   end) ->
  (forall q', q' <> [] -> Placed rest name file chOld ch' q') ->
  Placed (d :: rest) name file own (<[d := DirNode ch' cp' fc ts]> own) (d :: q).
Proof.
  intros Hold Hdown Hhere IH.
  destruct q as [|k' q'].
  - (* the directory node itself *)
    specialize (Hhere eq_refl). split.
    + intros _. rewrite !nodeAt_cons, lookup_insert_eq, Hold.
      destruct old as [[ch cp fc0 ts0|m]|]; [| destruct Hhere |].
      * destruct Hhere as (-> & -> & Hcp). left.
        exists ch, cp, fc0, ts0, ch', cp'. repeat split; auto.
      * destruct Hhere as (-> & -> & Hcp). right. split; [reflexivity|].
        exists ch', cp'. split; [reflexivity | exact Hcp].
    + simpl. rewrite String.eqb_refl. discriminate.
    + intros _. simpl. rewrite String.eqb_refl. destruct rest; discriminate.
  - specialize (Hdown _ _ eq_refl).
    specialize (IH (k' :: q') ltac:(discriminate)). destruct IH as [IHa IHs IHt].
    assert (nodeAt (<[d := DirNode ch' cp' fc ts]> own) (d :: k' :: q') = nodeAt ch' (k' :: q'))
      as Hnew by (rewrite nodeAt_cons, lookup_insert_eq; reflexivity).
    assert (nodeAt own (d :: k' :: q') = nodeAt chOld (k' :: q')) as Hsame.
    { destruct old as [[ch cp fc0 ts0|m]|]; destruct Hdown as [-> ->];
        rewrite ?nodeAt_empty; reflexivity. }
    split; cbn [isPrefix app]; rewrite ?String.eqb_refl; cbn [andb];
      rewrite Hnew, ?Hsame.
    + exact IHa.
    + exact IHs.
    + intros Hn Hc.
      destruct (IHt Hn Hc) as [[-> Hx]|[Hl Hx]].
      * left. split; [reflexivity | exact Hx].
      * right. split; [simpl in *; lia | exact Hx].
Qed.

Lemma placeFile_placed dirs name file :
  forall own proto own' proto',
    placeFile dirs name file own proto = Some (own', proto') ->
    forall q, q <> [] -> Placed dirs name file own own' q.
Proof.
  induction dirs as [|d rest IH]; intros own proto own' proto' Hp q Hq.
  - (* the file is placed at this level *)
    destruct q as [|k q]; [congruence|]. cbn [placeFile] in Hp.
    destruct (String.eqb_spec name "__proto__") as [Hn|Hn].
    + injection Hp as <- <-. split.
      * discriminate.
      * reflexivity.
      * intros Hc. now destruct (Hc Hn).
    + injection Hp as <- <-. split.
      * discriminate.
      * intros _ [Hc|Hc]; [now destruct (Hn Hc)|].
        simpl in Hc. apply nodeAt_insert_ne. intros ->.
        rewrite String.eqb_refl in Hc. discriminate Hc.
      * intros _ Hc. simpl in Hc. apply andb_true_iff in Hc as [Hk _].
        apply String.eqb_eq in Hk. subst k.
        rewrite nodeAt_cons, lookup_insert_eq. destruct q as [|k' q].
        -- left. split; reflexivity.
        -- right. split; [simpl; lia | reflexivity].
  - (* one directory down *)
    cbn [placeFile] in Hp. unfold readProp in Hp.
    destruct q as [|k q]; [congruence|].
    destruct (own !! d) as [[ch cp fc ts|m]|] eqn:Hd.
    + (* an existing directory *)
      destruct (placeFile rest name file ch cp) as [[ch' cp']|] eqn:Hrec; [|discriminate].
      injection Hp as <- <-.
      destruct (String.eqb_spec k d) as [->|Hk]; [|now apply placed_elsewhere].
      apply (placed_below d rest name file own ch ch' (Some (DirNode ch cp fc ts))).
      * exact Hd.
      * intros k' q' ->. split; [|reflexivity]. now rewrite nodeAt_cons, Hd.
      * intros _. repeat split. intros Hn. exact (placeFile_proto _ _ _ _ _ _ _ Hrec Hn).
      * exact (IH _ _ _ _ Hrec).
    + discriminate.
    + (* a new directory *)
      destruct (inherited d || protoTruthy proto d); [discriminate|].
      destruct (placeFile rest name file ∅ None) as [[ch' cp']|] eqn:Hrec; [|discriminate].
      injection Hp as <- <-.
      destruct (String.eqb_spec k d) as [->|Hk]; [|now apply placed_elsewhere].
      apply (placed_below d rest name file own ∅ ch' None).
      * exact Hd.
      * intros k' q' ->. split; [|reflexivity]. now rewrite nodeAt_cons, Hd.
      * intros _. repeat split. intros Hn. exact (placeFile_proto _ _ _ _ _ _ _ Hrec Hn).
      * exact (IH _ _ _ _ Hrec).
Qed.

(** ** The invariants through one file *)

Section OneFile.
Variables (file : ExtractedFile) (dirs : list string) (name : string).
Variables (own own' : gmap string Node) (done : list ExtractedFile).
Hypothesis Hparts : pathParts file = (dirs ++ [name])%list.
Hypothesis Hplaced : forall q, q <> [] -> Placed dirs name file own own' q.

Lemma above_not_file q m :
  q <> [] -> isPrefix q dirs = true -> nodeAt own q <> Some (FileNode m).
Proof.
  intros Hq Hpre Hfile.
  destruct (placed_above _ _ _ _ _ _ (Hplaced q Hq) Hpre)
    as [(? & ? & ? & ? & ? & ? & Hx & _)|[Hx _]]; congruence.
Qed.

Lemma step_countsAgree :
  countsAgree own done -> dirsPresent own done -> countsAgree own' (done ++ [file]).
Proof.
  intros Hcount Hdirs q ch' cp' fc' ts' Hnode.
  assert (q <> []) as Hq by (intros ->; discriminate Hnode).
  rewrite filesUnder_snoc, sizeUnder_snoc, Hparts, liesUnder_snoc.
  destruct (Hplaced q Hq) as [Habove Haside Hat].
  destruct (isPrefix q dirs) eqn:Hpre.
  - destruct (Habove eq_refl)
      as [(ch & cp & fc & ts & ch2 & cp2 & Hold & Hnew & _)|[Hold (ch2 & cp2 & Hnew & _)]].
    + rewrite Hnew in Hnode. injection Hnode as _ _ <- <-.
      destruct (Hcount _ _ _ _ _ Hold) as [-> ->]. split; reflexivity.
    + rewrite Hnew in Hnode. injection Hnode as _ _ <- <-.
      destruct (filesUnder_none q done) as [-> ->]; [|split; reflexivity].
      intros g Hg. destruct (liesUnder q (pathParts g)) eqn:Hunder; [|reflexivity].
      destruct (Hdirs g q Hg Hq Hunder Hold) as (q' & m & Hq' & Hpre' & _ & Hfile).
      destruct (above_not_file q' m Hq' (isPrefix_trans _ _ _ Hpre' Hpre) Hfile).
  - rewrite Z.add_0_r.
    destruct (String.eqb_spec name "__proto__") as [Hn|Hn].
    + rewrite (Haside eq_refl (or_introl Hn)) in Hnode. exact (Hcount _ _ _ _ _ Hnode).
    + destruct (isPrefix (dirs ++ [name]) q) eqn:Hext.
      * destruct (Hat Hn eq_refl) as [[_ Hx]|[_ Hx]]; congruence.
      * rewrite (Haside eq_refl (or_intror eq_refl)) in Hnode.
        exact (Hcount _ _ _ _ _ Hnode).
Qed.

Lemma step_dirsPresent :
  dirsPresent own done -> dirsPresent own' (done ++ [file]).
Proof.
  intros Hdirs g q Hg Hq Hunder Hnone.
  destruct (Hplaced q Hq) as [Habove Haside Hat].
  destruct (isPrefix q dirs) eqn:Hpre.
  { destruct (Habove eq_refl)
      as [(? & ? & ? & ? & ? & ? & _ & Hx & _)|[_ (? & ? & Hx & _)]]; congruence. }
  assert (In g done) as Hgd.
  { apply in_app_or in Hg as [Hg|[<-|[]]]; [exact Hg|].
    rewrite Hparts, liesUnder_snoc in Hunder. congruence. }
  assert (name = "__proto__" \/ isPrefix (dirs ++ [name]) q = false
          \/ (name <> "__proto__" /\ isPrefix (dirs ++ [name]) q = true)) as Hcases.
  { destruct (String.eqb_spec name "__proto__"); [now left|].
    destruct (isPrefix (dirs ++ [name]) q); [right; right; now split | right; now left]. }
  assert (name = "__proto__" \/ isPrefix (dirs ++ [name]) q = false ->
          exists q' m, q' <> [] /\ isPrefix q' q = true
                       /\ (List.length q' < List.length q)%nat
                       /\ nodeAt own' q' = Some (FileNode m)) as Haside_case.
  { intros Hc. rewrite (Haside eq_refl Hc) in Hnone.
    destruct (Hdirs g q Hgd Hq Hunder Hnone) as (q' & m & Hq' & Hpre' & Hlen & Hfile).
    exists q', m. repeat split; auto.
    destruct (Hplaced q' Hq') as [_ Haside' _].
    rewrite Haside'; [exact Hfile | |].
    - destruct (isPrefix q' dirs) eqn:Hp'; [|reflexivity].
      destruct (above_not_file q' m Hq' Hp' Hfile).
    - destruct Hc as [Hc|Hc]; [now left|]. right.
      destruct (isPrefix (dirs ++ [name]) q') eqn:Hp'; [|reflexivity].
      rewrite (isPrefix_trans _ _ _ Hp' Hpre') in Hc. discriminate Hc. }
  destruct Hcases as [Hc|[Hc|[Hn Hext]]]; [now apply Haside_case; left
                                          | now apply Haside_case; right |].
  destruct (Hat Hn Hext) as [[_ Hx]|[Hlen _]]; [congruence|].
  exists (dirs ++ [name])%list, (metaOf file).
  split; [destruct dirs; discriminate|]. split; [exact Hext|].
  split; [rewrite List.length_app; simpl; lia|].
  assert ((dirs ++ [name])%list <> []) as Hne by (destruct dirs; discriminate).
  destruct (placed_at _ _ _ _ _ _ (Hplaced _ Hne) Hn (isPrefix_refl _)) as [[_ Hx]|[Hl _]];
    [exact Hx|].
  rewrite List.length_app in Hl. simpl in Hl. lia.
Qed.

End OneFile.

(** ** The invariants through the whole loop *)

Lemma buildStep_none files : fold_left buildStep files None = None.
Proof. induction files; [reflexivity | exact IHfiles]. Qed.

Lemma fold_buildStep_invariants files :
  forall own proto done own' proto',
    countsAgree own done -> dirsPresent own done ->
    fold_left buildStep files (Some (own, proto)) = Some (own', proto') ->
    countsAgree own' (done ++ files) /\ dirsPresent own' (done ++ files).
Proof.
  induction files as [|f rest IH]; intros own proto done own' proto' Hc Hd Hfold.
  - injection Hfold as <- <-. rewrite app_nil_r. now split.
  - cbn [fold_left] in Hfold.
    destruct (buildStep (Some (own, proto)) f) as [[own1 proto1]|] eqn:Hstep;
      [|rewrite buildStep_none in Hfold; discriminate].
    cbn [buildStep] in Hstep.
    pose proof (placeFile_placed _ _ _ _ _ _ _ Hstep) as Hplaced.
    replace (done ++ f :: rest)%list with ((done ++ [f]) ++ rest)%list
      by (rewrite <- app_assoc; reflexivity).
    apply (IH own1 proto1 (done ++ [f])%list own' proto').
    + eapply step_countsAgree; eauto using pathParts_split.
    + eapply step_dirsPresent; eauto using pathParts_split.
    + exact Hfold.
Qed.

Lemma empty_countsAgree : countsAgree ∅ [].
Proof. intros q ch cp fc ts H. rewrite nodeAt_empty in H. discriminate. Qed.

Lemma empty_dirsPresent : dirsPresent ∅ [].
Proof. intros g q []. Qed.

Lemma buildFileStructure_counts files own proto :
  buildFileStructure files = Some (own, proto) -> countsAgree own files.
Proof.
  intros H.
  destruct (fold_buildStep_invariants files ∅ None [] own proto
              empty_countsAgree empty_dirsPresent H) as [Hc _].
  exact Hc.
Qed.

(** ** When the loop does not throw *)

Lemma placeFile_succeeds name file dirs :
  forall own,
    (forall c, In c dirs -> inherited c = false) ->
    (forall q m, q <> [] -> isPrefix q dirs = true -> nodeAt own q <> Some (FileNode m)) ->
    (forall q ch cp fc ts, q <> [] -> isPrefix q dirs = true ->
                           nodeAt own q = Some (DirNode ch cp fc ts) -> cp = None) ->
    exists own' proto', placeFile dirs name file own None = Some (own', proto').
Proof.
  induction dirs as [|d rest IH]; intros own Hkeys Hfiles Hplain.
  - cbn [placeFile]. destruct (String.eqb name "__proto__"); eauto.
  - cbn [placeFile]. unfold readProp.
    assert (isPrefix [d] (d :: rest) = true) as Hd
        by (simpl; now rewrite String.eqb_refl).
    destruct (own !! d) as [[ch cp fc ts|m]|] eqn:Hown.
    + assert (cp = None) as ->.
      { apply (Hplain [d] ch cp fc ts); [discriminate | exact Hd |].
        now rewrite nodeAt_cons, Hown. }
      destruct (IH ch) as (ch' & cp' & ->); [| | |eauto].
      * intros c Hc. apply Hkeys. now right.
      * intros q m Hq Hpre. specialize (Hfiles (d :: q) m ltac:(discriminate)).
        rewrite nodeAt_cons, Hown in Hfiles. destruct q; [congruence|].
        apply Hfiles. simpl. now rewrite String.eqb_refl.
      * intros q ch0 cp0 fc0 ts0 Hq Hpre Hnode.
        apply (Hplain (d :: q) ch0 cp0 fc0 ts0); [discriminate | |].
        -- simpl. now rewrite String.eqb_refl.
        -- rewrite nodeAt_cons, Hown. destruct q; [congruence | exact Hnode].
    + destruct (Hfiles [d] m ltac:(discriminate) Hd). now rewrite nodeAt_cons, Hown.
    + rewrite (Hkeys d (or_introl eq_refl)). cbn [protoTruthy orb].
      destruct (IH ∅) as (ch' & cp' & ->); [| | |eauto].
      * intros c Hc. apply Hkeys. now right.
      * intros q m _ _. now rewrite nodeAt_empty.
      * intros q ch0 cp0 fc0 ts0 _ _ Hnode. rewrite nodeAt_empty in Hnode. discriminate.
Qed.

Section OneFileOfATree.
Variables (file : ExtractedFile) (dirs : list string) (name : string).
Variables (own own' : gmap string Node) (done : list ExtractedFile).
Hypothesis Hparts : pathParts file = (dirs ++ [name])%list.
Hypothesis Hname : name <> "__proto__".
Hypothesis Hplaced : forall q, q <> [] -> Placed dirs name file own own' q.

Lemma step_filesFromInput :
  filesFromInput own done -> filesFromInput own' (done ++ [file]).
Proof.
  intros Hold q m Hnode.
  assert (q <> []) as Hq by (intros ->; discriminate Hnode).
  destruct (Hplaced q Hq) as [Habove Haside Hat].
  destruct (isPrefix q dirs) eqn:Hpre.
  { destruct (Habove eq_refl)
      as [(? & ? & ? & ? & ? & ? & _ & Hx & _)|[_ (? & ? & Hx & _)]]; congruence. }
  destruct (isPrefix (dirs ++ [name]) q) eqn:Hext.
  - destruct (Hat Hname eq_refl) as [[-> _]|[_ Hx]]; [|congruence].
    exists file. split; [apply in_or_app; right; now left | exact Hparts].
  - rewrite (Haside eq_refl (or_intror eq_refl)) in Hnode.
    destruct (Hold q m Hnode) as (g & Hg & Hgp).
    exists g. split; [apply in_or_app; now left | exact Hgp].
Qed.

Lemma step_plainLevels : plainLevels own -> plainLevels own'.
Proof.
  intros Hold q ch cp fc ts Hnode.
  assert (q <> []) as Hq by (intros ->; discriminate Hnode).
  destruct (Hplaced q Hq) as [Habove Haside Hat].
  destruct (isPrefix q dirs) eqn:Hpre.
  - destruct (Habove eq_refl)
      as [(ch0 & cp0 & fc0 & ts0 & ch2 & cp2 & Hx & Hy & Hcp)|[_ (ch2 & cp2 & Hy & Hcp)]].
    + rewrite Hy in Hnode. injection Hnode as _ <- _ _.
      rewrite (Hcp Hname). exact (Hold _ _ _ _ _ Hx).
    + rewrite Hy in Hnode. injection Hnode as _ <- _ _. exact (Hcp Hname).
  - destruct (isPrefix (dirs ++ [name]) q) eqn:Hext.
    + destruct (Hat Hname eq_refl) as [[_ Hx]|[_ Hx]]; congruence.
    + rewrite (Haside eq_refl (or_intror eq_refl)) in Hnode. exact (Hold _ _ _ _ _ Hnode).
Qed.

End OneFileOfATree.

Lemma in_pathParts_last file : In (lastSegment (pathParts file)) (pathParts file).
Proof.
  rewrite pathParts_split at 2. apply in_or_app. right. now left.
Qed.

Lemma in_pathParts_dirs file c : In c (removelast (pathParts file)) -> In c (pathParts file).
Proof. intros H. rewrite pathParts_split. apply in_or_app. now left. Qed.

Lemma fold_buildStep_succeeds all :
  treeLike all ->
  forall rest done own,
    (forall x, In x (done ++ rest) -> In x all) ->
    filesFromInput own done -> plainLevels own ->
    exists own' proto', fold_left buildStep rest (Some (own, None)) = Some (own', proto').
Proof.
  intros [Htree Hkeys]. induction rest as [|f rest IH]; intros done own Hin Hfiles Hplain.
  - simpl. eauto.
  - assert (In f all) as Hf by (apply Hin, in_or_app; right; now left).
    assert (lastSegment (pathParts f) <> "__proto__") as Hname.
    { intros Heq. pose proof (Hkeys f _ Hf (in_pathParts_last f)) as Hk.
      rewrite Heq in Hk. discriminate Hk. }
    destruct (placeFile_succeeds (lastSegment (pathParts f)) f (removelast (pathParts f)) own)
      as (own1 & proto1 & Hstep).
    + intros c Hc. apply (Hkeys f c Hf). now apply in_pathParts_dirs.
    + intros q m Hq Hpre Hnode. destruct (Hfiles q m Hnode) as (g & Hg & Hgp).
      assert (In g all) as Hga by (apply Hin, in_or_app; now left).
      specialize (Htree g f Hga Hf).
      rewrite Hgp, (pathParts_split f), liesUnder_snoc, Hpre in Htree. discriminate Htree.
    + intros q ch cp fc ts _ _ Hnode. exact (Hplain _ _ _ _ _ Hnode).
    + cbn [fold_left buildStep]. rewrite Hstep.
      assert (proto1 = None) as -> by exact (placeFile_proto _ _ _ _ _ _ _ Hstep Hname).
      pose proof (placeFile_placed _ _ _ _ _ _ _ Hstep) as Hplaced.
      apply (IH (done ++ [f])%list own1).
      * intros x Hx. apply Hin. rewrite <- app_assoc in Hx. exact Hx.
      * eapply step_filesFromInput; eauto using pathParts_split.
      * eapply step_plainLevels; eauto.
Qed.

Lemma buildFileStructure_succeeds files :
  treeLike files -> exists own proto, buildFileStructure files = Some (own, proto).
Proof.
  intros Htree. apply (fold_buildStep_succeeds files Htree files [] ∅).
  - intros x Hx. exact Hx.
  - intros q m H. rewrite nodeAt_empty in H. discriminate.
  - intros q ch cp fc ts H. rewrite nodeAt_empty in H. discriminate.
Qed.

(** In the structure built for a tree, the file nodes are at paths of files
    of the list. *)
Lemma fold_buildStep_tree all :
  treeLike all ->
  forall rest done own own' proto',
    (forall x, In x (done ++ rest) -> In x all) ->
    filesFromInput own done ->
    fold_left buildStep rest (Some (own, None)) = Some (own', proto') ->
    filesFromInput own' (done ++ rest).
Proof.
  intros [Htree Hkeys]. induction rest as [|f rest IH];
    intros done own own' proto' Hin Hfiles Hfold.
  - injection Hfold as <- _. now rewrite app_nil_r.
  - cbn [fold_left] in Hfold.
    destruct (buildStep (Some (own, None)) f) as [[own1 proto1]|] eqn:Hstep;
      [|rewrite buildStep_none in Hfold; discriminate].
    cbn [buildStep] in Hstep.
    assert (In f all) as Hf by (apply Hin, in_or_app; right; now left).
    assert (lastSegment (pathParts f) <> "__proto__") as Hname.
    { intros Heq. pose proof (Hkeys f _ Hf (in_pathParts_last f)) as Hk.
      rewrite Heq in Hk. discriminate Hk. }
    assert (proto1 = None) as -> by exact (placeFile_proto _ _ _ _ _ _ _ Hstep Hname).
    pose proof (placeFile_placed _ _ _ _ _ _ _ Hstep) as Hplaced.
    replace (done ++ f :: rest)%list with ((done ++ [f]) ++ rest)%list
      by (rewrite <- app_assoc; reflexivity).
    apply (IH (done ++ [f])%list own1 own' proto'); [| |exact Hfold].
    + intros x Hx. apply Hin. rewrite <- app_assoc in Hx. exact Hx.
    + eapply step_filesFromInput; eauto using pathParts_split.
Qed.

(** In the structure built for a tree, every directory on the path of a file
    has its node, with the counters of the files under it. *)
Lemma buildFileStructure_directories files own proto :
  treeLike files ->
  buildFileStructure files = Some (own, proto) ->
  forall f d, In f files -> d <> [] -> liesUnder d (pathParts f) = true ->
    exists children childrenProto,
      nodeAt own d
      = Some (DirNode children childrenProto (filesUnder d files) (sizeUnder d files)).
Proof.
  intros Htree Hbuilt f d Hf Hd Hunder.
  destruct (fold_buildStep_invariants files ∅ None [] own proto
              empty_countsAgree empty_dirsPresent Hbuilt) as [Hcount Hdirs].
  cbn [app] in Hcount, Hdirs.
  assert (filesFromInput own files) as Hfrom.
  { apply (fold_buildStep_tree files Htree files [] ∅ own proto).
    - intros x Hx. exact Hx.
    - intros q m H. rewrite nodeAt_empty in H. discriminate.
    - exact Hbuilt. }
  destruct Htree as [Htree _].
  destruct (nodeAt own d) as [[ch cp fc ts|m]|] eqn:Hnode.
  - destruct (Hcount _ _ _ _ _ Hnode) as [-> ->]. now exists ch, cp.
  - destruct (Hfrom d m Hnode) as (g & Hg & Hgp).
    specialize (Htree g f Hg Hf). rewrite Hgp, Hunder in Htree. discriminate Htree.
  - destruct (Hdirs f d Hf Hd Hunder Hnode) as (q' & m & Hq' & Hpre & Hlen & Hfile).
    destruct (Hfrom q' m Hfile) as (g & Hg & Hgp).
    specialize (Htree g f Hg Hf). rewrite Hgp in Htree.
    unfold liesUnder in Htree, Hunder. apply andb_true_iff in Hunder as [Hdf Hdl].
    rewrite (isPrefix_trans _ _ _ Hpre Hdf) in Htree. apply Nat.ltb_lt in Hdl.
    cbn [andb] in Htree. apply Nat.ltb_ge in Htree. lia.
Qed.

End StructureFacts.

Module ConflictFacts.
Import JsString JsObject ZipProcessor Counting Conflicts StructureFacts.

Lemma split_injective c s : forall s', split c s = split c s' -> s = s'.
Proof.
  induction s as [|d t IH]; intros [|d' t']; cbn [split]; try reflexivity.
  - destruct (Ascii.eqb d' c).
    + intros [= H]. symmetry in H. now destruct (split_nonempty c t').
    + destruct (split c t'); discriminate.
  - destruct (Ascii.eqb d c).
    + intros [= H]. now destruct (split_nonempty c t).
    + destruct (split c t); discriminate.
  - destruct (Ascii.eqb_spec d c) as [->|Hd], (Ascii.eqb_spec d' c) as [->|Hd'].
    + intros [= H]. f_equal. now apply IH.
    + destruct (split c t'); discriminate.
    + destruct (split c t); discriminate.
    + destruct (split c t) as [|p ps] eqn:Hs; [now destruct (split_nonempty c t)|].
      destruct (split c t') as [|p' ps'] eqn:Hs'; [now destruct (split_nonempty c t')|].
      intros [= -> -> ->]. f_equal. apply IH. now rewrite Hs'.
Qed.

Lemma isPrefix_snoc_In q x dirs : isPrefix (q ++ [x]) dirs = true -> In x dirs.
Proof.
  revert dirs. induction q as [|k q IH]; intros [|d dirs]; simpl; try discriminate.
  - intros H. apply andb_true_iff in H as [H _]. apply String.eqb_eq in H. now left.
  - intros H. apply andb_true_iff in H as [_ H]. right. now apply IH.
Qed.

Lemma noProtoKey_empty : noProtoKey ∅.
Proof. intros q. apply nodeAt_empty. Qed.

Lemma noProtoKey_children (own : gmap string Node) d ch cp fc ts :
  own !! d = Some (DirNode ch cp fc ts) -> noProtoKey own -> noProtoKey ch.
Proof.
  intros Hd Hown q. specialize (Hown (d :: q)).
  change ((d :: q) ++ ["__proto__"])%list with (d :: (q ++ ["__proto__"]))%list in Hown.
  rewrite nodeAt_cons, Hd in Hown. destruct (q ++ ["__proto__"])%list eqn:Hq; [|exact Hown].
  now destruct q.
Qed.

(** A path with a directory called [__proto__] cannot be placed. *)
Lemma placeFile_proto_directory name file dirs :
  forall own proto,
    In "__proto__" dirs -> noProtoKey own -> placeFile dirs name file own proto = None.
Proof.
  induction dirs as [|d rest IH]; intros own proto Hin Hown; [destruct Hin|].
  cbn [placeFile]. unfold readProp.
  destruct (own !! d) as [[ch cp fc ts|m]|] eqn:Hd; [|reflexivity|].
  - destruct Hin as [->|Hin].
    + specialize (Hown []). simpl in Hown. now rewrite Hd in Hown.
    + now rewrite (IH ch cp Hin (noProtoKey_children _ _ _ _ _ _ Hd Hown)).
  - destruct Hin as [->|Hin]; [reflexivity|].
    destruct (inherited d || protoTruthy proto d); [reflexivity|].
    now rewrite (IH ∅ None Hin noProtoKey_empty).
Qed.

Section OnePlacement.
Variables (file : ExtractedFile) (dirs : list string) (name : string).
Variables (own own' : gmap string Node) (proto proto' : option FileMeta).
Hypothesis Hplace : placeFile dirs name file own proto = Some (own', proto').

Lemma placed_everywhere q : q <> [] -> Placed dirs name file own own' q.
Proof. exact (placeFile_placed _ _ _ _ _ _ _ Hplace q). Qed.

Lemma path_nonempty : (dirs ++ [name])%list <> [].
Proof. destruct dirs; discriminate. Qed.

(** Where the file went, unless it is called [__proto__]. *)
Lemma placed_here :
  name <> "__proto__" -> nodeAt own' (dirs ++ [name]) = Some (FileNode (metaOf file)).
Proof.
  intros Hn.
  destruct (placed_at _ _ _ _ _ _ (placed_everywhere _ path_nonempty) Hn (isPrefix_refl _))
    as [[_ Hx]|[Hl _]]; [exact Hx|].
  rewrite List.length_app in Hl. simpl in Hl. lia.
Qed.

Lemma placed_nothing_below q :
  name <> "__proto__" -> liesUnder (dirs ++ [name]) q = true -> nodeAt own' q = None.
Proof.
  intros Hn Hq. unfold liesUnder in Hq. apply andb_true_iff in Hq as [Hpre Hlen].
  apply Nat.ltb_lt in Hlen.
  assert (q <> []) as Hne by (intros ->; simpl in Hlen; lia).
  destruct (placed_at _ _ _ _ _ _ (placed_everywhere _ Hne) Hn Hpre) as [[-> _]|[_ Hx]];
    [lia | exact Hx].
Qed.

Lemma not_blocked_above : ~ blocked own dirs.
Proof.
  intros (q & m & Hq & Hpre & Hnode).
  destruct (placed_above _ _ _ _ _ _ (placed_everywhere q Hq) Hpre)
    as [(? & ? & ? & ? & ? & ? & Hx & _)|[Hx _]]; congruence.
Qed.

Lemma step_blocked p : blocked own p -> blocked own' p.
Proof.
  intros (q & m & Hq & Hpre & Hnode).
  destruct (isPrefix q dirs) eqn:Hqd.
  { destruct not_blocked_above. now exists q, m. }
  destruct (String.eqb_spec name "__proto__") as [Hn|Hn].
  { exists q, m. rewrite (placed_aside _ _ _ _ _ _ (placed_everywhere q Hq) Hqd (or_introl Hn)).
    auto. }
  destruct (isPrefix (dirs ++ [name]) q) eqn:Hext.
  - exists (dirs ++ [name])%list, (metaOf file).
    split; [apply path_nonempty|]. split; [exact (isPrefix_trans _ _ _ Hext Hpre)|].
    now apply placed_here.
  - exists q, m. rewrite (placed_aside _ _ _ _ _ _ (placed_everywhere q Hq) Hqd (or_intror Hext)).
    auto.
Qed.

Lemma step_noProtoKey : noProtoKey own -> noProtoKey own'.
Proof.
  intros Hown q.
  assert ((q ++ ["__proto__"])%list <> []) as Hne by (destruct q; discriminate).
  pose proof (placed_everywhere _ Hne) as Hplaced.
  destruct (isPrefix (q ++ ["__proto__"]) dirs) eqn:Hqd.
  { rewrite (placeFile_proto_directory name file dirs own proto
               (isPrefix_snoc_In _ _ _ Hqd) Hown) in Hplace. discriminate Hplace. }
  destruct (String.eqb_spec name "__proto__") as [Hn|Hn].
  { rewrite (placed_aside _ _ _ _ _ _ Hplaced Hqd (or_introl Hn)). apply Hown. }
  destruct (isPrefix (dirs ++ [name]) (q ++ ["__proto__"])) eqn:Hext.
  - destruct (placed_at _ _ _ _ _ _ Hplaced Hn Hext) as [[Heq _]|[_ Hx]]; [|exact Hx].
    apply app_inj_tail in Heq as [_ Heq]. congruence.
  - rewrite (placed_aside _ _ _ _ _ _ Hplaced Hqd (or_intror Hext)). apply Hown.
Qed.

End OnePlacement.

Lemma closed_fails p file dirs name own proto :
  closed p own -> isPrefix p dirs = true ->
  placeFile dirs name file own proto = None.
Proof.
  intros [Hkey [Hb|Hp]] Hpre.
  - destruct (placeFile dirs name file own proto) as [[own' proto']|] eqn:Hplace; [|reflexivity].
    destruct (not_blocked_above _ _ _ _ _ _ _ Hplace).
    destruct Hb as (q & m & Hq & Hqp & Hnode). exists q, m.
    split; [exact Hq|]. split; [exact (isPrefix_trans _ _ _ Hqp Hpre) | exact Hnode].
  - apply placeFile_proto_directory; [|exact Hkey].
    apply in_split in Hp as (l1 & l2 & ->).
    apply (isPrefix_snoc_In l1). apply (isPrefix_trans _ (l1 ++ "__proto__" :: l2)%list); [|exact Hpre].
    clear. induction l1 as [|x l1 IH]; simpl; rewrite ?String.eqb_refl; auto.
Qed.

Lemma fold_noProtoKey files :
  forall own proto own' proto',
    noProtoKey own ->
    fold_left buildStep files (Some (own, proto)) = Some (own', proto') ->
    noProtoKey own'.
Proof.
  induction files as [|f rest IH]; intros own proto own' proto' Hown Hfold.
  - now injection Hfold as <- <-.
  - cbn [fold_left] in Hfold.
    destruct (buildStep (Some (own, proto)) f) as [[own1 proto1]|] eqn:Hstep;
      [|rewrite buildStep_none in Hfold; discriminate].
    cbn [buildStep] in Hstep.
    exact (IH _ _ _ _ (step_noProtoKey _ _ _ _ _ _ _ Hstep Hown) Hfold).
Qed.

Lemma fold_closed p files :
  forall own proto own' proto',
    closed p own ->
    fold_left buildStep files (Some (own, proto)) = Some (own', proto') ->
    closed p own'.
Proof.
  induction files as [|f rest IH]; intros own proto own' proto' Hown Hfold.
  - now injection Hfold as <- <-.
  - cbn [fold_left] in Hfold.
    destruct (buildStep (Some (own, proto)) f) as [[own1 proto1]|] eqn:Hstep;
      [|rewrite buildStep_none in Hfold; discriminate].
    cbn [buildStep] in Hstep. apply (IH own1 proto1 own' proto'); [|exact Hfold].
    destruct Hown as [Hkey Hb]. split; [exact (step_noProtoKey _ _ _ _ _ _ _ Hstep Hkey)|].
    destruct Hb as [Hb|Hp]; [left | now right].
    exact (step_blocked _ _ _ _ _ _ _ Hstep p Hb).
Qed.

Lemma fold_stored all :
  treeLike all -> List.NoDup (map file_path all) ->
  forall rest done own proto own' proto',
    all = (done ++ rest)%list ->
    stored own done ->
    fold_left buildStep rest (Some (own, proto)) = Some (own', proto') ->
    stored own' all.
Proof.
  intros [Htree Hkeys] Hnd. induction rest as [|f rest IH];
    intros done own proto own' proto' Hall Hst Hfold.
  - injection Hfold as <- <-. rewrite app_nil_r in Hall. now subst.
  - cbn [fold_left] in Hfold.
    destruct (buildStep (Some (own, proto)) f) as [[own1 proto1]|] eqn:Hstep;
      [|rewrite buildStep_none in Hfold; discriminate].
    cbn [buildStep] in Hstep.
    assert (In f all) as Hf by (rewrite Hall; apply in_or_app; right; now left).
    assert (lastSegment (pathParts f) <> "__proto__") as Hname.
    { intros Heq. pose proof (Hkeys f _ Hf (in_pathParts_last f)) as Hk.
      rewrite Heq in Hk. discriminate Hk. }
    apply (IH (done ++ [f])%list own1 proto1 own' proto');
      [now rewrite <- app_assoc | | exact Hfold].
    intros g Hg. apply in_app_or in Hg as [Hg|[<-|[]]].
    + assert (In g all) as Hga by (rewrite Hall; apply in_or_app; now left).
      assert (pathParts g <> []) as Hne by apply split_nonempty.
      rewrite (placed_aside _ _ _ _ _ _ (placed_everywhere _ _ _ _ _ _ _ Hstep _ Hne));
        [now apply Hst | |].
      * pose proof (Htree g f Hga Hf) as Hgf.
        rewrite (pathParts_split f), liesUnder_snoc in Hgf. exact Hgf.
      * right. rewrite <- pathParts_split.
        destruct (isPrefix (pathParts f) (pathParts g)) eqn:Hpre; [|reflexivity].
        pose proof (Htree f g Hf Hga) as Hfg. unfold liesUnder in Hfg. rewrite Hpre in Hfg.
        simpl in Hfg. apply Nat.ltb_ge in Hfg. pose proof (isPrefix_length _ _ Hpre) as Hle.
        assert (file_path f = file_path g) as Hsame.
        { apply (split_injective "/"%char). unfold pathParts in *.
          apply isPrefix_same_length; [exact Hpre | lia]. }
        exfalso. rewrite Hall in Hnd. rewrite map_app in Hnd.
        apply NoDup_remove_2 in Hnd. apply Hnd. apply in_or_app. left.
        rewrite Hsame. now apply in_map.
    + rewrite (pathParts_split f) at 1.
      exact (placed_here _ _ _ _ _ _ _ Hstep Hname).
Qed.

(** A file, then later a file below it. *)
Lemma file_then_directory_fails before a between b after :
  liesUnder (pathParts a) (pathParts b) = true ->
  buildFileStructure (before ++ a :: between ++ b :: after) = None.
Proof.
  intros Hunder. unfold buildFileStructure.
  rewrite fold_left_app. cbn [fold_left].
  destruct (fold_left buildStep before (Some (∅, None)))
    as [[own0 proto0]|] eqn:H0; [|apply buildStep_none].
  destruct (buildStep (Some (own0, proto0)) a) as [[own1 proto1]|] eqn:H1;
    [|apply buildStep_none].
  rewrite fold_left_app. cbn [fold_left].
  destruct (fold_left buildStep between (Some (own1, proto1)))
    as [[own2 proto2]|] eqn:H2; [|apply buildStep_none].
  assert (buildStep (Some (own2, proto2)) b = None) as ->; [|apply buildStep_none].
  cbn [buildStep] in *.
  apply (closed_fails (pathParts a)).
  - refine (fold_closed _ _ _ _ _ _ _ H2).
    pose proof (fold_noProtoKey _ _ _ _ _ noProtoKey_empty H0) as Hkey0.
    split; [exact (step_noProtoKey _ _ _ _ _ _ _ H1 Hkey0)|].
    destruct (String.eqb_spec (lastSegment (pathParts a)) "__proto__") as [Hn|Hn].
    + right. rewrite <- Hn. apply in_pathParts_last.
    + left. exists (pathParts a), (metaOf a).
      split; [apply split_nonempty|]. split; [apply isPrefix_refl|].
      rewrite (pathParts_split a) at 1.
      exact (placed_here _ _ _ _ _ _ _ H1 Hn).
  - rewrite (pathParts_split b), liesUnder_snoc in Hunder. exact Hunder.
Qed.

End ConflictFacts.

(** Where a path uses as a directory what an earlier path stored as a file,
    the code takes the [children] of a file node and throws. *)
Lemma buildFileStructure_file_used_as_directory :
  let file p := ZipProcessor.fileInfoOf 0 p
                  (ZipProcessor.mkEntry false (Some "") (Some (Some 1, Some 1)) None) "" in
  ZipProcessor.buildFileStructure [file "a"; file "a/b"] = None.
Proof. reflexivity. Qed.

(** C7: for every list of extracted files with pairwise distinct paths that
    form a tree, [buildFileStructure] builds a structure in which (1) every
    directory on the path of a file has a directory node, whose [fileCount]
    is the number of files whose path lies under that directory (and whose
    [totalSize] is the sum of their sizes, [NaN] when one of them has none),
    and (2) every file has its file node at its path. Whatever the paths
    are, (3) a structure that [buildFileStructure] returns has, on every
    directory node, a [fileCount] equal to the number of files under that
    directory. *)
Theorem C7_fileCount_is_number_of_files_under_directory
    (files : list ZipProcessor.ExtractedFile)
    (Hdistinct : NoDup (map ZipProcessor.file_path files)) :
  (Counting.treeLike files ->
   exists own proto,
     ZipProcessor.buildFileStructure files = Some (own, proto)
     /\ (forall f d,
            In f files -> d <> [] ->
            ZipProcessor.liesUnder d (ZipProcessor.pathParts f) = true ->
            exists children childrenProto,
              ZipProcessor.nodeAt own d
              = Some (ZipProcessor.DirNode children childrenProto
                        (ZipProcessor.filesUnder d files)
                        (ZipProcessor.sizeUnder d files)))
     /\ (forall f,
            In f files ->
            ZipProcessor.nodeAt own (ZipProcessor.pathParts f)
            = Some (ZipProcessor.FileNode (ZipProcessor.metaOf f))))
  /\
  (forall own proto,
      ZipProcessor.buildFileStructure files = Some (own, proto) ->
      forall d children childrenProto fileCount totalSize,
        ZipProcessor.nodeAt own d
        = Some (ZipProcessor.DirNode children childrenProto fileCount totalSize) ->
        fileCount = ZipProcessor.filesUnder d files
        /\ totalSize = ZipProcessor.sizeUnder d files).
Proof.
  split.
  - intros Htree.
    destruct (StructureFacts.buildFileStructure_succeeds files Htree)
      as (own & proto & Hbuilt).
    exists own, proto. split; [exact Hbuilt|]. split.
    + exact (StructureFacts.buildFileStructure_directories files own proto Htree Hbuilt).
    + assert (List.NoDup (map ZipProcessor.file_path files)) as Hnd.
      { clear -Hdistinct. induction files as [|f rest IH]; [constructor|].
        cbn [map] in *. apply NoDup_cons in Hdistinct as [Hf Hrest].
        constructor; [|now apply IH]. intros Hin. apply Hf.
        now apply list_elem_of_In. }
      apply (ConflictFacts.fold_stored files Htree Hnd files [] ∅ None own proto).
      * reflexivity.
      * intros f [].
      * exact Hbuilt.
  - intros own proto Hbuilt d ch cp fc ts Hnode.
    exact (StructureFacts.buildFileStructure_counts files own proto Hbuilt d ch cp fc ts Hnode).
Qed.

(** The scenario of the specification: three files under [src/], two of them
    one directory further down, and one file at the root. *)
Lemma C7_witness :
  let file p n := ZipProcessor.fileInfoOf 0 p
                    (ZipProcessor.mkEntry false (Some "") (Some (Some n, Some n)) None) "" in
  let files := [file "src/a.js" 10; file "src/lib/b.js" 20; file "README_source.md" 5;
                file "src/lib/c.js" 30] in
  exists own proto,
    ZipProcessor.buildFileStructure files = Some (own, proto)
    /\ (exists children childrenProto,
           ZipProcessor.nodeAt own ["src"]
           = Some (ZipProcessor.DirNode children childrenProto 3 (JsNumber.Int 60)))
    /\ (exists children childrenProto,
           ZipProcessor.nodeAt own ["src"; "lib"]
           = Some (ZipProcessor.DirNode children childrenProto 2 (JsNumber.Int 50)))
    /\ ZipProcessor.nodeAt own ["README_source.md"]
       = Some (ZipProcessor.FileNode
                 (ZipProcessor.mkMeta (Some 5) (ZipProcessor.MimeString "text/markdown") 0)).
Proof.
  intros file files.
  assert (NoDup (map ZipProcessor.file_path files)) as Hdistinct.
  { apply (bool_decide_unpack _). vm_compute. reflexivity. }
  assert (Counting.treeLike files) as Htree.
  { split.
    - intros f g Hf Hg. simpl in Hf, Hg.
      repeat match goal with H : _ \/ _ |- _ => destruct H as [<-|H] end;
        try reflexivity; contradiction.
    - intros f c Hf Hc. simpl in Hf.
      repeat match goal with H : _ \/ _ |- _ => destruct H as [<-|H] end;
        try contradiction;
        (vm_compute in Hc;
         repeat match goal with H : _ \/ _ |- _ => destruct H as [<-|H] end;
         try reflexivity; contradiction). }
  destruct (C7_fileCount_is_number_of_files_under_directory files Hdistinct)
    as [Hbuilds _].
  destruct (Hbuilds Htree) as (own & proto & Hbuilt & Hdirs & Hfiles).
  exists own, proto. split; [exact Hbuilt|]. split; [|split].
  - exact (Hdirs (file "src/lib/c.js" 30) ["src"]
             (or_intror (or_intror (or_intror (or_introl eq_refl))))
             ltac:(discriminate) eq_refl).
  - exact (Hdirs (file "src/lib/c.js" 30) ["src"; "lib"]
             (or_intror (or_intror (or_intror (or_introl eq_refl))))
             ltac:(discriminate) eq_refl).
  - exact (Hfiles (file "README_source.md" 5) (or_intror (or_intror (or_introl eq_refl)))).
Defined.

(** An entry without content has no size ([_data] is then a promise, whose
    [uncompressedSize] is [undefined]): the directories above it count it,
    and their [totalSize] is [NaN]. *)
Lemma buildFileStructure_counts_a_file_without_size :
  let file p data := ZipProcessor.fileInfoOf 0 p
                       (ZipProcessor.mkEntry false (Some "") (Some data) None) "" in
  let files := [file "pkg/main.py" (Some 10, Some 8); file "pkg/__init__.py" (None, None)] in
  exists own proto children childrenProto,
    ZipProcessor.buildFileStructure files = Some (own, proto)
    /\ ZipProcessor.nodeAt own ["pkg"]
       = Some (ZipProcessor.DirNode children childrenProto 2 JsNumber.NaN).
Proof. vm_compute. do 4 eexists. split; reflexivity. Qed.

(* ===================================================================== *)
(** * Proofs: runs of the agent *)
(* ===================================================================== *)

Module RunFacts.
Import JsString Js ZipProcessor GitHubAgent Runs.

Section Exec.
Variable remote : Remote.

Lemma exec_bind {A B : Type} (p : Prog A) (f : A -> Prog B) (w : World) :
  exec remote (bind p f) w =
  match exec remote p w with
  | (Returned a, w1) => exec remote (f a) w1
  | (Threw e, w1) => (Threw e, w1)
  | (Diverges, w1) => (Diverges, w1)
  end.
Proof.
  revert w. induction p as [a|e| |X op k IH]; intros w; try reflexivity.
  destruct op; simpl; try apply IH.
  destruct (remote w r) as [resp took]. apply IH.
Qed.

Lemma exec_tryCatch {A : Type} (p : Prog A) (h : Thrown -> Prog A) (w : World) :
  exec remote (tryCatch p h) w =
  match exec remote p w with
  | (Returned a, w1) => (Returned a, w1)
  | (Threw e, w1) => exec remote (h e) w1
  | (Diverges, w1) => (Diverges, w1)
  end.
Proof.
  revert w. induction p as [a|e| |X op k IH]; intros w; try reflexivity.
  destruct op; simpl; try apply IH.
  destruct (remote w r) as [resp took]. apply IH.
Qed.

Lemma exec_delay (ms : Z) (w : World) :
  exec remote (perform (Delay ms)) w = (Returned tt, slept ms w).
Proof. reflexivity. Qed.

(** The clock never runs backwards, and the trace only grows. *)
Lemma exec_clock {A : Type} (p : Prog A) :
  forall w c w', exec remote p w = (c, w') -> clock w <= clock w'.
Proof.
  induction p as [a|e| |X op k IH]; intros w c w' H;
    try (injection H as <- <-; lia).
  destruct op; simpl in H.
  - now apply IH in H.
  - apply IH in H. simpl in H. lia.
  - destruct (remote w r) as [resp took]. apply IH in H. simpl in H. lia.
  - now apply IH in H.
  - now apply IH in H.
Qed.

Lemma exec_fetchesOnly {A : Type} (P : Request -> Prop) (p : Prog A) :
  fetchesOnly P p ->
  forall w c w', exec remote p w = (c, w') ->
                 exists events, trace w' = (trace w ++ events)%list
                                /\ Forall P (requestsOf events).
Proof.
  induction p as [a|e| |X op k IH]; intros Hp w c w' H;
    try (injection H as <- <-; exists []; rewrite app_nil_r; split; [reflexivity | constructor]).
  destruct op; simpl in H, Hp.
  - exact (IH _ (Hp _) _ _ _ H).
  - destruct (IH _ Hp _ _ _ H) as (evs & Ht & Hf). simpl in Ht.
    exists (Slept ms :: evs). rewrite Ht, <- app_assoc. split; [reflexivity | exact Hf].
  - destruct (remote w r) as [resp took]. destruct Hp as [Hr Hk].
    destruct (IH _ (Hk _) _ _ _ H) as (evs & Ht & Hf). simpl in Ht.
    exists (Fetched (clock w) r resp :: evs). rewrite Ht, <- app_assoc.
    split; [reflexivity | constructor; assumption].
  - exact (IH _ (Hp _) _ _ _ H).
  - exact (IH _ Hp _ _ _ H).
Qed.

Lemma exec_throwsOnly {A : Type} (Q : Thrown -> Prop) (p : Prog A) :
  throwsOnly Q p ->
  forall w c w', exec remote p w = (c, w') ->
                 match c with
                 | Returned _ => True
                 | Threw e => Q e
                 | Diverges => False
                 end.
Proof.
  induction p as [a|e| |X op k IH]; intros Hp w c w' H;
    try (injection H as <- <-; exact Hp).
  destruct op; simpl in H, Hp.
  - exact (IH _ (Hp _) _ _ _ H).
  - exact (IH _ (Hp _) _ _ _ H).
  - destruct (remote w r) as [resp took]. exact (IH _ (Hp _) _ _ _ H).
  - exact (IH _ (Hp _) _ _ _ H).
  - exact (IH _ (Hp _) _ _ _ H).
Qed.

End Exec.

(** ** The two static properties through the combinators *)

Lemma fetchesOnly_bind {A B : Type} P (p : Prog A) (f : A -> Prog B) :
  fetchesOnly P p -> (forall a, fetchesOnly P (f a)) -> fetchesOnly P (bind p f).
Proof.
  intros Hp Hf. induction p as [a|e| |X op k IH]; simpl; auto.
  destruct op; simpl in *; try (intros; apply IH; now auto).
  destruct Hp as [Hr Hk]. split; [exact Hr|]. intros resp. apply IH; auto.
Qed.

Lemma fetchesOnly_tryCatch {A : Type} P (p : Prog A) (h : Thrown -> Prog A) :
  fetchesOnly P p -> (forall e, fetchesOnly P (h e)) -> fetchesOnly P (tryCatch p h).
Proof.
  intros Hp Hh. induction p as [a|e| |X op k IH]; simpl; auto.
  destruct op; simpl in *; try (intros; apply IH; now auto).
  destruct Hp as [Hr Hk]. split; [exact Hr|]. intros resp. apply IH; auto.
Qed.

Lemma fetchesOnly_weaken {A : Type} (P P' : Request -> Prop) (p : Prog A) :
  (forall r, P r -> P' r) -> fetchesOnly P p -> fetchesOnly P' p.
Proof.
  intros HP. induction p as [a|e| |X op k IH]; simpl; auto.
  destruct op; simpl in *; intros Hp; try (intros; apply IH; now auto).
  destruct Hp as [Hr Hk]. split; [auto|]. intros resp. apply IH; auto.
Qed.

Lemma throwsOnly_bind {A B : Type} Q (p : Prog A) (f : A -> Prog B) :
  throwsOnly Q p -> (forall a, throwsOnly Q (f a)) -> throwsOnly Q (bind p f).
Proof.
  intros Hp Hf. induction p as [a|e| |X op k IH]; simpl in *; auto.
Qed.

Lemma throwsOnly_tryCatch {A : Type} Q Q' (p : Prog A) (h : Thrown -> Prog A) :
  throwsOnly Q p -> (forall e, Q e -> throwsOnly Q' (h e)) -> throwsOnly Q' (tryCatch p h).
Proof.
  intros Hp Hh. induction p as [a|e| |X op k IH]; simpl in *; auto.
Qed.

(** ** The rate limiter and one API call, in closed form *)

Section Methods.
Variable remote : Remote.
Variable this : Agent.

Lemma exec_enforceRateLimit w :
  exec remote (enforceRateLimit this) w = (Returned tt, rateLimited this w).
Proof.
  unfold enforceRateLimit, rateLimited. cbn.
  destruct (clock w - lastRequestTime w <? rateLimitDelay this); reflexivity.
Qed.

Lemma exec_makeGitHubApiCall method endpoint data w :
  exec remote (makeGitHubApiCall this method endpoint data) w =
  let w1 := rateLimited this w in
  let r := apiRequest method endpoint data in
  (apiOutcome (fst (remote w1 r)), fetched r (fst (remote w1 r)) (snd (remote w1 r)) w1).
Proof.
  unfold makeGitHubApiCall. rewrite exec_bind, exec_enforceRateLimit.
  cbn. fold (apiRequest method endpoint data).
  destruct (remote (rateLimited this w) (apiRequest method endpoint data)) as [resp took].
  destruct resp; reflexivity.
Qed.

Lemma rateLimited_clock w : clock w <= clock (rateLimited this w).
Proof.
  unfold rateLimited.
  destruct (clock w - lastRequestTime w <? rateLimitDelay this); simpl; lia.
Qed.

Lemma rateLimited_trace w :
  exists pauses, trace (rateLimited this w) = (trace w ++ map Slept pauses)%list.
Proof.
  unfold rateLimited.
  destruct (clock w - lastRequestTime w <? rateLimitDelay this); simpl.
  - now exists [rateLimitDelay this - (clock w - lastRequestTime w)].
  - exists []. now rewrite app_nil_r.
Qed.

Lemma responsesOf_app a b : responsesOf (a ++ b) = (responsesOf a ++ responsesOf b)%list.
Proof. unfold responsesOf. now rewrite flat_map_app. Qed.

Lemma requestsOf_app a b : requestsOf (a ++ b) = (requestsOf a ++ requestsOf b)%list.
Proof. unfold requestsOf. now rewrite flat_map_app. Qed.

Lemma responsesOf_pauses pauses : responsesOf (map Slept pauses) = [].
Proof. induction pauses; [reflexivity | exact IHpauses]. Qed.

(** ** What the methods send and throw *)

Lemma enforceRateLimit_fetches P : fetchesOnly P (enforceRateLimit this).
Proof.
  unfold enforceRateLimit. simpl. intros now last.
  destruct (now - last <? rateLimitDelay this); simpl; auto.
Qed.

Lemma enforceRateLimit_throws Q : throwsOnly Q (enforceRateLimit this).
Proof.
  unfold enforceRateLimit. simpl. intros now last.
  destruct (now - last <? rateLimitDelay this); simpl; auto.
Qed.

Lemma makeGitHubApiCall_fetches (P : Request -> Prop) method endpoint data :
  P (apiRequest method endpoint data) ->
  fetchesOnly P (makeGitHubApiCall this method endpoint data).
Proof.
  intros HP. unfold makeGitHubApiCall.
  apply fetchesOnly_bind; [apply enforceRateLimit_fetches|]. intros _.
  simpl. split; [exact HP|]. intros [j|st txt ed|m]; exact I.
Qed.

Lemma makeGitHubApiCall_throws method endpoint data :
  throwsOnly isErrorObject (makeGitHubApiCall this method endpoint data).
Proof.
  unfold makeGitHubApiCall.
  apply throwsOnly_bind; [apply enforceRateLimit_throws|]. intros _.
  simpl. intros [j|st txt ed|m]; exact I.
Qed.

Lemma uploadSingleFile_fetches owner repoName file options :
  fetchesOnly (targets owner repoName file) (uploadSingleFile this owner repoName file options).
Proof.
  unfold uploadSingleFile.
  apply fetchesOnly_bind; [apply enforceRateLimit_fetches|]. intros _.
  apply fetchesOnly_bind.
  - destruct (notFalse (opt_checkExisting options)); [|exact I].
    apply fetchesOnly_tryCatch.
    + apply fetchesOnly_bind; [|intros; exact I].
      apply makeGitHubApiCall_fetches. reflexivity.
    + intros e. destruct (statusIs e 404); exact I.
  - intros sha. apply makeGitHubApiCall_fetches. reflexivity.
Qed.

Lemma uploadSingleFile_throws owner repoName file options :
  throwsOnly isErrorObject (uploadSingleFile this owner repoName file options).
Proof.
  unfold uploadSingleFile.
  apply throwsOnly_bind; [apply enforceRateLimit_throws|]. intros _.
  apply throwsOnly_bind.
  - destruct (notFalse (opt_checkExisting options)); [|exact I].
    apply (throwsOnly_tryCatch isErrorObject).
    + apply throwsOnly_bind; [|intros; exact I]. apply makeGitHubApiCall_throws.
    + intros e He. destruct (statusIs e 404); [exact I | exact He].
  - intros sha. apply makeGitHubApiCall_throws.
Qed.

Lemma retryLoop_fetches {A : Type} P (op : Prog A) :
  fetchesOnly P op ->
  forall remaining attempt lastError,
    fetchesOnly P (retryLoop this op remaining attempt lastError).
Proof.
  intros Hop. induction remaining as [|r IH]; intros attempt lastError; [exact I|].
  cbn [retryLoop]. apply fetchesOnly_tryCatch; [exact Hop|]. intros e.
  apply fetchesOnly_bind; [|intros _; apply IH].
  destruct (attempt <? maxRetries this); exact I.
Qed.

(** ** The retry loop *)

Lemma retryLoop_fail_step {A : Type} (op : Prog A) r a last w e w1 :
  exec remote op w = (Threw e, w1) ->
  exec remote (retryLoop this op (S r) a last) w =
  exec remote (retryLoop this op r (a + 1) e)
    (if a <? maxRetries this then slept (retryDelay this * 2 ^ (a - 1)) w1 else w1).
Proof.
  intros H. cbn [retryLoop]. rewrite exec_tryCatch, H, exec_bind.
  destruct (a <? maxRetries this); [rewrite exec_delay|]; reflexivity.
Qed.

Lemma retryLoop_success {A : Type} (op : Prog A) r a last w x w1 :
  exec remote op w = (Returned x, w1) ->
  exec remote (retryLoop this op (S r) a last) w = (Returned x, w1).
Proof. intros H. cbn [retryLoop]. now rewrite exec_tryCatch, H. Qed.

Lemma backoffPauses_cons d a n :
  backoffPauses d a (S n) = d * 2 ^ (a - 2) :: backoffPauses d (a + 1) n.
Proof.
  unfold backoffPauses. cbn [seq map]. rewrite Z.add_0_r. f_equal.
  rewrite <- seq_shift, !map_map. apply map_ext. intros i. f_equal. f_equal. lia.
Qed.

Lemma backoffPauses_length d a n : List.length (backoffPauses d a n) = n.
Proof. unfold backoffPauses. now rewrite !length_map, length_seq. Qed.

Lemma backoffPauses_nth d a n i :
  (i < n)%nat -> nth i (backoffPauses d a n) 0 = d * 2 ^ (a + Z.of_nat i - 2).
Proof.
  revert a i. induction n as [|n IH]; intros a i Hi; [lia|].
  rewrite backoffPauses_cons. destruct i as [|i]; simpl nth.
  - f_equal. f_equal. lia.
  - rewrite IH by lia. f_equal. f_equal. lia.
Qed.

Lemma retryLoop_exhausts {A : Type} (op : Prog A) :
  alwaysFails remote op ->
  forall r a last w,
    a + Z.of_nat r = maxRetries this ->
    exists e w',
      exec remote (retryLoop this op (S r) a last) w = (Threw e, w')
      /\ attemptsFail remote op (backoffPauses (retryDelay this) (a + 1) r) w e w'.
Proof.
  intros Hfail. induction r as [|r IH]; intros a last w Ha.
  - destruct (Hfail w) as (e & w1 & He).
    exists e, w1. split; [|exact He].
    rewrite (retryLoop_fail_step _ _ _ _ _ _ _ He).
    assert ((a <? maxRetries this) = false) as -> by lia. reflexivity.
  - destruct (Hfail w) as (e1 & w1 & He).
    rewrite (retryLoop_fail_step _ _ _ _ _ _ _ He).
    assert ((a <? maxRetries this) = true) as -> by lia.
    destruct (IH (a + 1) e1 (slept (retryDelay this * 2 ^ (a - 1)) w1))
      as (e & w' & Hx & Hy); [lia|].
    exists e, w'. split; [exact Hx|].
    rewrite backoffPauses_cons. cbn [attemptsFail].
    exists e1, w1. split; [exact He|].
    replace (a + 1 - 2) with (a - 1) by lia. exact Hy.
Qed.

Lemma attemptsFail_last {A : Type} (op : Prog A) pauses :
  forall w e w', attemptsFail remote op pauses w e w' ->
                 exists w0, exec remote op w0 = (Threw e, w').
Proof.
  induction pauses as [|ms rest IH]; intros w e w' H; simpl in H.
  - now exists w.
  - destruct H as (e1 & w1 & _ & H). exact (IH _ _ _ H).
Qed.

Lemma withRetry_exhausts {A : Type} (op : Prog A) w :
  1 <= maxRetries this ->
  alwaysFails remote op ->
  exists e w',
    exec remote (withRetry this op) w = (Threw e, w')
    /\ attemptsFail remote op
         (backoffPauses (retryDelay this) 2 (Z.to_nat (maxRetries this) - 1)) w e w'.
Proof.
  intros Hn Hfail. unfold withRetry.
  destruct (Z.to_nat (maxRetries this)) as [|n] eqn:Hm; [lia|].
  replace (S n - 1)%nat with n by lia.
  apply (retryLoop_exhausts op Hfail n 1 UndefinedValue w). lia.
Qed.

Lemma withRetry_first_success {A : Type} (op : Prog A) w x w1 :
  1 <= maxRetries this ->
  exec remote op w = (Returned x, w1) ->
  exec remote (withRetry this op) w = (Returned x, w1).
Proof.
  intros Hn H. unfold withRetry.
  destruct (Z.to_nat (maxRetries this)) as [|n] eqn:Hm; [lia|].
  now apply retryLoop_success.
Qed.

End Methods.

Lemma exec_uploadSingleFile_answering this answer owner repoName file options w :
  fst (exec (answering answer) (uploadSingleFile this owner repoName file options) w)
  = uploadOutcome answer owner repoName file options.
Proof.
  unfold uploadSingleFile, uploadOutcome.
  rewrite exec_bind, exec_enforceRateLimit, exec_bind.
  destruct (notFalse (opt_checkExisting options)).
  - rewrite exec_tryCatch, exec_bind, exec_makeGitHubApiCall. cbv zeta.
    unfold answering at 1 2 3.
    destruct (apiOutcome (fst (answer _))) as [j|e|].
    + cbn [exec]. rewrite exec_makeGitHubApiCall. reflexivity.
    + destruct (statusIs e 404); [|reflexivity].
      cbn [exec]. rewrite exec_makeGitHubApiCall. reflexivity.
    + reflexivity.
  - cbn [exec]. rewrite exec_makeGitHubApiCall. reflexivity.
Qed.

Lemma settlesAs_answering this answer owner repoName file options :
  match uploadOutcome answer owner repoName file options with
  | Returned _ => settlesAs (answering answer) this owner repoName options file true
  | Threw _ => settlesAs (answering answer) this owner repoName options file false
  | Diverges => True
  end.
Proof.
  pose proof (exec_uploadSingleFile_answering this answer owner repoName file options) as H.
  destruct (uploadOutcome answer owner repoName file options) as [j|e|]; [| |exact I];
    intros w; specialize (H w);
    destruct (exec (answering answer) (uploadSingleFile this owner repoName file options) w)
      as [c w'] eqn:Hrun; simpl in H; subst c; eauto.
Qed.

End RunFacts.

(* ===================================================================== *)
(** * Proofs: batches *)
(* ===================================================================== *)

Module BatchFacts.
Import JsString Js ZipProcessor GitHubAgent Runs RunFacts.

Section Batches.
Variable localeCompare : string -> string -> Z.
Variable remote : Remote.
Variable this : Agent.
Variables owner repoName : string.
Variable options : Options.

Abbreviation upload file := (uploadSingleFile this owner repoName file options).
Abbreviation uploadWithRetry file := (uploadSingleFileWithRetry this owner repoName file options).
Abbreviation task file :=
  (outcome <- settle (uploadWithRetry file) ;; Ret (file, outcome)).

Lemma exec_settle {A : Type} (p : Prog A) w :
  exec remote (settle p) w =
  match exec remote p w with
  | (Returned a, w1) => (Returned (Fulfilled a), w1)
  | (Threw e, w1) => (Returned (RejectedWith e), w1)
  | (Diverges, w1) => (Diverges, w1)
  end.
Proof.
  unfold settle. rewrite exec_tryCatch, exec_bind.
  destruct (exec remote p w) as [[a|e|] w1]; reflexivity.
Qed.

(** ** Sorting and cutting into batches *)

Lemma insertSorted_perm x l : Permutation (x :: l) (insertSorted localeCompare x l).
Proof.
  induction l as [|y l IH]; simpl; [reflexivity|].
  destruct (0 <? compareFiles localeCompare y x); [reflexivity|].
  rewrite perm_swap. now constructor.
Qed.

Lemma sortFiles_perm files : Permutation files (sortFiles localeCompare files).
Proof.
  unfold sortFiles.
  assert (forall acc, Permutation (acc ++ files)
                        (fold_left (fun sorted x => insertSorted localeCompare x sorted) files acc))
    as H.
  { induction files as [|f files IH]; intros acc; simpl.
    - now rewrite app_nil_r.
    - rewrite <- IH. rewrite <- insertSorted_perm.
      symmetry. apply Permutation_middle. }
  exact (H []).
Qed.

Lemma in_filterAndSortFiles f files :
  In f (filterAndSortFiles localeCompare files options) ->
  In f files /\ passesFilter options f = true.
Proof.
  unfold filterAndSortFiles. intros H.
  apply (Permutation_in _ (Permutation_sym (sortFiles_perm _))) in H.
  now apply List.filter_In in H.
Qed.

Lemma chunks_concat n : (0 < n)%nat ->
  forall fuel files, (List.length files <= fuel)%nat ->
                     concat (chunks fuel n files) = files.
Proof.
  intros Hn. induction fuel as [|fuel IH]; intros files Hlen.
  - destruct files; [reflexivity | simpl in Hlen; lia].
  - destruct files as [|f files]; [reflexivity|].
    cbn [chunks concat]. rewrite IH.
    + apply firstn_skipn.
    + rewrite length_skipn. simpl in *. lia.
Qed.

Lemma createBatches_concat files size batches :
  createBatches files size = Some batches -> concat batches = files.
Proof.
  unfold createBatches. destruct (0 <? size) eqn:Hs.
  - intros [= <-]. apply chunks_concat; lia.
  - destruct files; [intros [= <-]; reflexivity | discriminate].
Qed.

(** ** What a batch sends *)

Lemma task_fetches allowed file :
  In file allowed -> fetchesOnly (aims owner repoName allowed) (task file).
Proof.
  intros Hin. apply fetchesOnly_bind; [|intros; exact I].
  unfold settle. apply fetchesOnly_tryCatch; [|intros; exact I].
  apply fetchesOnly_bind; [|intros; exact I].
  apply retryLoop_fetches.
  apply (fetchesOnly_weaken (targets owner repoName file)).
  - intros r Hr. now exists file.
  - apply uploadSingleFile_fetches.
Qed.

Lemma promiseAll_fetches {A : Type} P (promises : list (Prog A)) :
  Forall (fetchesOnly P) promises -> fetchesOnly P (promiseAll promises).
Proof.
  induction 1 as [|p rest Hp _ IH]; [exact I|]. cbn [promiseAll].
  apply fetchesOnly_bind; [exact Hp|]. intros x.
  apply fetchesOnly_bind; [exact IH|]. intros; exact I.
Qed.

Lemma tallyAll_fetches P batchResults :
  forall results, fetchesOnly P (tallyAll results batchResults).
Proof.
  induction batchResults as [|[file outcome] rest IH]; intros results; [exact I|].
  cbn [tallyAll]. apply fetchesOnly_bind; [|intros; apply IH].
  destruct outcome as [j|[m s|]]; exact I.
Qed.

Lemma processBatch_fetches allowed batch results :
  (forall f, In f batch -> In f allowed) ->
  fetchesOnly (aims owner repoName allowed) (processBatch this owner repoName batch results options).
Proof.
  intros Hsub. unfold processBatch.
  apply fetchesOnly_bind; [|intros; apply tallyAll_fetches].
  apply promiseAll_fetches. apply List.Forall_forall. intros p Hp.
  apply in_map_iff in Hp as (f & <- & Hf). apply task_fetches. auto.
Qed.

Lemma batchLoop_fetches allowed batches :
  (forall f, In f (concat batches) -> In f allowed) ->
  forall results,
    fetchesOnly (aims owner repoName allowed) (batchLoop this owner repoName batches results options).
Proof.
  induction batches as [|batch rest IH]; intros Hsub results; [exact I|].
  cbn [batchLoop]. apply fetchesOnly_bind.
  - apply processBatch_fetches. intros f Hf. apply Hsub. simpl. apply in_or_app. now left.
  - intros results'. apply fetchesOnly_bind; [destruct rest; exact I|]. intros _.
    apply IH. intros f Hf. apply Hsub. simpl. apply in_or_app. now right.
Qed.

Lemma uploadFilesToRepository_fetches files :
  fetchesOnly (aims owner repoName (filterAndSortFiles localeCompare files options))
    (uploadFilesToRepository localeCompare this owner repoName files options).
Proof.
  unfold uploadFilesToRepository.
  destruct (createBatches _ _) as [batches|] eqn:Hb; [|exact I].
  apply batchLoop_fetches. intros f Hf.
  now rewrite (createBatches_concat _ _ _ Hb) in Hf.
Qed.

(** ** What a batch records *)

Lemma grownBy_refl results : grownBy results results [].
Proof.
  split; [reflexivity|]. exists []. rewrite app_nil_r. repeat split. constructor.
Qed.

Lemma grownBy_trans r1 r2 r3 p q :
  grownBy r1 r2 p -> grownBy r2 r3 q -> grownBy r1 r3 (p ++ q).
Proof.
  intros [H1 (a1 & D1 & P1 & F1)] [H2 (a2 & D2 & P2 & F2)]. split; [congruence|].
  exists (a1 ++ a2)%list. rewrite D2, D1, <- app_assoc, map_app, P1, P2.
  repeat split. now apply Forall_app.
Qed.

Lemma tally_grows results file outcome w c w' :
  exec remote (tally results (file, outcome)) w = (c, w') ->
  w' = w /\ match c with
            | Returned results' => grownBy results results' [file_path file]
            | _ => True
            end.
Proof.
  unfold tally. destruct outcome as [j|[m s|]]; simpl; intros [= <- <-];
    (split; [reflexivity|]); try exact I.
  - split; [reflexivity|]. eexists. split; [reflexivity|].
    split; [reflexivity|]. repeat constructor. discriminate.
  - split; [reflexivity|]. eexists. split; [reflexivity|].
    split; [reflexivity|]. repeat constructor. discriminate.
Qed.

Lemma tallyAll_grows batchResults :
  forall results w results' w',
    exec remote (tallyAll results batchResults) w = (Returned results', w') ->
    w' = w /\ grownBy results results' (map (fun entry => file_path (fst entry)) batchResults).
Proof.
  induction batchResults as [|[file outcome] rest IH]; intros results w results' w' H.
  - injection H as <- <-. split; [reflexivity | apply grownBy_refl].
  - cbn [tallyAll] in H. rewrite exec_bind in H.
    destruct (exec remote (tally results (file, outcome)) w) as [[r1| |] w1] eqn:Ht;
      try discriminate H.
    destruct (tally_grows _ _ _ _ _ _ Ht) as [-> Hg].
    destruct (IH _ _ _ _ H) as [-> Hg'].
    split; [reflexivity|]. exact (grownBy_trans _ _ _ [_] _ Hg Hg').
Qed.

Lemma promiseAll_tasks batch :
  forall w l w',
    exec remote (promiseAll (map (fun file => task file) batch)) w = (Returned l, w') ->
    map fst l = batch.
Proof.
  induction batch as [|f batch IH]; intros w l w' H.
  - injection H as <- <-. reflexivity.
  - cbn [map promiseAll] in H. rewrite exec_bind in H.
    rewrite exec_bind, exec_settle in H.
    destruct (exec remote (uploadWithRetry f) w) as [[j|e|] w1]; try discriminate H;
      cbn [exec] in H; rewrite exec_bind in H.
    + destruct (exec remote (promiseAll _) w1) as [[l'| |] w2] eqn:Hrest; try discriminate H.
      injection H as <- <-. simpl. f_equal. exact (IH _ _ _ Hrest).
    + destruct (exec remote (promiseAll _) w1) as [[l'| |] w2] eqn:Hrest; try discriminate H.
      injection H as <- <-. simpl. f_equal. exact (IH _ _ _ Hrest).
Qed.

Lemma processBatch_grows batch results w results' w' :
  exec remote (processBatch this owner repoName batch results options) w
  = (Returned results', w') ->
  grownBy results results' (map file_path batch).
Proof.
  unfold processBatch. rewrite exec_bind.
  destruct (exec remote (promiseAll _) w) as [[l| |] w1] eqn:Hall; try discriminate.
  intros H. destruct (tallyAll_grows _ _ _ _ _ H) as [_ Hg].
  rewrite <- (promiseAll_tasks _ _ _ _ Hall), map_map. exact Hg.
Qed.

Lemma batchLoop_grows batches :
  forall results w results' w',
    exec remote (batchLoop this owner repoName batches results options) w
    = (Returned results', w') ->
    grownBy results results' (map file_path (concat batches)).
Proof.
  induction batches as [|batch rest IH]; intros results w results' w' H.
  - injection H as <- <-. apply grownBy_refl.
  - cbn [batchLoop] in H. rewrite exec_bind in H.
    destruct (exec remote (processBatch _ _ _ _ _ _) w) as [[r1| |] w1] eqn:Hb;
      try discriminate H.
    rewrite exec_bind in H.
    destruct (exec remote _ w1) as [[[]| |] w2] eqn:Hd in H; try discriminate H.
    simpl. rewrite map_app.
    exact (grownBy_trans _ _ _ _ _ (processBatch_grows _ _ _ _ _ Hb) (IH _ _ _ _ H)).
Qed.

Lemma uploadFilesToRepository_grows files w results w' :
  exec remote (uploadFilesToRepository localeCompare this owner repoName files options) w
  = (Returned results, w') ->
  grownBy emptyResults results
    (map file_path (filterAndSortFiles localeCompare files options)).
Proof.
  unfold uploadFilesToRepository.
  destruct (createBatches _ _) as [batches|] eqn:Hb; [|discriminate].
  intros H. rewrite <- (createBatches_concat _ _ _ Hb). exact (batchLoop_grows _ _ _ _ _ H).
Qed.

(** ** Failure isolation *)

Hypothesis Hretries : 1 <= maxRetries this.

Lemma task_settles file good :
  settlesAs remote this owner repoName options file good ->
  forall w, exists entry w',
      exec remote (task file) w = (Returned entry, w') /\ settledAs good entry.
Proof.
  intros Hs w. rewrite exec_bind, exec_settle. destruct good; simpl in Hs.
  - destruct (Hs w) as (j & w1 & Hj).
    unfold uploadSingleFileWithRetry.
    rewrite (withRetry_first_success remote this _ _ _ _ Hretries Hj).
    eexists. eexists. split; [reflexivity|]. now exists j.
  - destruct (withRetry_exhausts remote this _ w Hretries Hs) as (e & w1 & He & Hchain).
    unfold uploadSingleFileWithRetry. rewrite He.
    eexists. eexists. split; [reflexivity|].
    destruct (attemptsFail_last remote _ _ _ _ _ Hchain) as (w0 & Hlast).
    pose proof (exec_throwsOnly remote _ _
                  (uploadSingleFile_throws this owner repoName file options) _ _ _ Hlast) as Hobj.
    destruct e as [m s|]; [|destruct Hobj]. now exists m, s.
Qed.

Lemma promiseAll_settles batch goods :
  Forall2 (settlesAs remote this owner repoName options) batch goods ->
  forall w, exists l w',
      exec remote (promiseAll (map (fun file => task file) batch)) w = (Returned l, w')
      /\ Forall2 settledAs goods l.
Proof.
  induction 1 as [|f g batch goods Hf _ IH]; intros w.
  - exists [], w. split; [reflexivity | constructor].
  - cbn [map promiseAll]. rewrite exec_bind.
    destruct (task_settles f g Hf w) as (entry & w1 & -> & Hentry).
    rewrite exec_bind. destruct (IH w1) as (l & w2 & -> & Hl).
    exists (entry :: l), w2. split; [reflexivity | now constructor].
Qed.

Lemma succeeding_cons g goods :
  succeeding (g :: goods) = (if g then 1 else 0) + succeeding goods.
Proof. unfold succeeding. destruct g; simpl; lia. Qed.

Lemma failing_cons g goods :
  failing (g :: goods) = (if g then 0 else 1) + failing goods.
Proof. unfold failing. destruct g; simpl; lia. Qed.

Lemma succeeding_app a b : succeeding (a ++ b) = succeeding a + succeeding b.
Proof. unfold succeeding. rewrite List.filter_app, List.length_app. lia. Qed.

Lemma failing_app a b : failing (a ++ b) = failing a + failing b.
Proof. unfold failing. rewrite List.filter_app, List.length_app. lia. Qed.

Lemma tallyAll_counts goods l :
  Forall2 settledAs goods l ->
  forall results w, exists results',
      exec remote (tallyAll results l) w = (Returned results', w)
      /\ successCount results' = successCount results + succeeding goods
      /\ failedCount results' = failedCount results + failing goods
      /\ skippedCount results' = skippedCount results.
Proof.
  induction 1 as [|g [file outcome] goods l Hg _ IH]; intros results w.
  - exists results. unfold succeeding, failing. simpl. repeat split; lia.
  - cbn [tallyAll]. rewrite exec_bind, succeeding_cons, failing_cons.
    destruct g; simpl in Hg.
    + destruct Hg as (j & ->). cbn [tally exec].
      edestruct IH as (results' & -> & Hs & Hf & Hk).
      exists results'. split; [reflexivity|]. simpl in *. repeat split; lia.
    + destruct Hg as (m & s & ->). cbn [tally messageOf bind exec].
      edestruct IH as (results' & -> & Hs & Hf & Hk).
      exists results'. split; [reflexivity|]. simpl in *. repeat split; lia.
Qed.

Lemma processBatch_counts batch goods :
  Forall2 (settlesAs remote this owner repoName options) batch goods ->
  forall results w, exists results' w',
      exec remote (processBatch this owner repoName batch results options) w
      = (Returned results', w')
      /\ successCount results' = successCount results + succeeding goods
      /\ failedCount results' = failedCount results + failing goods
      /\ skippedCount results' = skippedCount results.
Proof.
  intros Hs results w. unfold processBatch. rewrite exec_bind.
  destruct (promiseAll_settles batch goods Hs w) as (l & w1 & -> & Hl).
  destruct (tallyAll_counts goods l Hl results w1) as (results' & Hx & Hy).
  exists results', w1. split; [exact Hx | exact Hy].
Qed.

Lemma batchLoop_counts batches goodss :
  Forall2 (Forall2 (settlesAs remote this owner repoName options)) batches goodss ->
  forall results w, exists results' w',
      exec remote (batchLoop this owner repoName batches results options) w
      = (Returned results', w')
      /\ successCount results' = successCount results + succeeding (concat goodss)
      /\ failedCount results' = failedCount results + failing (concat goodss)
      /\ skippedCount results' = skippedCount results.
Proof.
  induction 1 as [|batch goods batches goodss Hb _ IH]; intros results w.
  - exists results, w. unfold succeeding, failing. simpl. repeat split; lia.
  - cbn [batchLoop]. rewrite exec_bind.
    destruct (processBatch_counts batch goods Hb results w)
      as (r1 & w1 & -> & Hs1 & Hf1 & Hk1).
    rewrite exec_bind.
    assert (exists w2, exec remote
                         (match batches with
                          | [] => Ret tt
                          | _ :: _ => perform (Delay (rateLimitDelay this))
                          end) w1 = (Returned tt, w2)) as (w2 & ->).
    { destruct batches; eexists; reflexivity. }
    destruct (IH r1 w2) as (r2 & w3 & -> & Hs2 & Hf2 & Hk2).
    exists r2, w3. split; [reflexivity|].
    simpl concat. rewrite succeeding_app, failing_app. repeat split; lia.
Qed.

End Batches.

End BatchFacts.

(* ===================================================================== *)
(** * The claims about the upload engine *)
(* ===================================================================== *)

(** C1: whenever [uploadFilesToRepository] returns, no request was sent for
    a file that the filter excluded, and the details list exactly the files
    that passed it; but [skippedCount] is 0 and no detail has the status
    [skipped], however many files were excluded: the excluded files are not
    counted. *)
Theorem C1_excluded_files_are_not_attempted_and_not_counted
    (localeCompare : string -> string -> Z) (remote : Js.Remote)
    (this : GitHubAgent.Agent) (owner repoName : string)
    (files : list ZipProcessor.ExtractedFile) (options : GitHubAgent.Options)
    (w w' : Js.World) (results : GitHubAgent.Results)
    (Hrun : Js.exec remote
              (GitHubAgent.uploadFilesToRepository localeCompare this owner repoName
                 files options) w
            = (Js.Returned results, w')) :
  GitHubAgent.skippedCount results = 0
  /\ Forall Runs.notSkipped (GitHubAgent.details results)
  /\ map GitHubAgent.detail_path (GitHubAgent.details results)
     = map ZipProcessor.file_path
         (GitHubAgent.filterAndSortFiles localeCompare files options)
  /\ exists events,
      Js.trace w' = (Js.trace w ++ events)%list
      /\ Forall (fun r => exists f, In f files
                                    /\ GitHubAgent.passesFilter options f = true
                                    /\ Runs.targets owner repoName f r)
                (Runs.requestsOf events).
Proof.
  destruct (BatchFacts.uploadFilesToRepository_grows _ _ _ _ _ _ _ _ _ _ Hrun)
    as [Hskipped (added & Hdetails & Hpaths & Hstatus)].
  simpl in Hskipped, Hdetails. rewrite Hdetails.
  split; [exact Hskipped|]. split; [exact Hstatus|]. split; [exact Hpaths|].
  destruct (RunFacts.exec_fetchesOnly remote _ _
              (BatchFacts.uploadFilesToRepository_fetches localeCompare this owner repoName
                 options files) _ _ _ Hrun) as (events & Htrace & Hreqs).
  exists events. split; [exact Htrace|].
  eapply List.Forall_impl; [|exact Hreqs].
  intros r (f & Hf & Hr). exists f.
  destruct (BatchFacts.in_filterAndSortFiles localeCompare options f files Hf) as [Hin Hpass].
  auto.
Qed.

(** C1 at a failing input: [a.txt] (10 bytes) is excluded by
    [maxFileSize = 5], [b.txt] is uploaded; the result counts no skipped
    file and lists only [b.txt]. *)
Lemma C1_witness :
  let file p n := ZipProcessor.fileInfoOf 0 p
                    (ZipProcessor.mkEntry false (Some "") (Some (Some n, Some n)) None) "" in
  let files := [file "a.txt" 10; file "b.txt" 3] in
  let options := GitHubAgent.mkOptions (Some 5) None None None "" "" "" false in
  let localeCompare a b := match String.compare a b with Lt => -1 | Eq => 0 | Gt => 1 end in
  let remote : Js.Remote := fun _ r =>
    (if String.eqb (Js.req_method r) "GET"
     then Js.Failure 404 "Not Found" (Js.mkJson "" "" "")
     else Js.Success (Js.mkJson "" "" ""), 5) in
  let this := GitHubAgent.newAgent (GitHubAgent.mkConfig "me" None None None None) in
  let run := Js.exec remote
               (GitHubAgent.uploadFilesToRepository localeCompare this "me" "repo"
                  files options) (GitHubAgent.freshWorld 1000000) in
  exists results,
    fst run = Js.Returned results
    /\ List.filter (fun f => negb (GitHubAgent.passesFilter options f)) files = [file "a.txt" 10]
    /\ GitHubAgent.skippedCount results = 0
    /\ map GitHubAgent.detail_path (GitHubAgent.details results) = ["b.txt"].
Proof.
  intros file files options localeCompare remote this run.
  assert (exists results, run = (Js.Returned results, snd run)) as (results & Hrun).
  { vm_compute. eexists. reflexivity. }
  exists results. split; [now rewrite Hrun|]. split; [reflexivity|].
  destruct (C1_excluded_files_are_not_attempted_and_not_counted
              localeCompare remote this "me" "repo" files options _ _ _ Hrun)
    as (Hskipped & _ & Hpaths & _).
  split; [exact Hskipped|]. rewrite Hpaths. vm_compute. reflexivity.
Defined.



(* ===================================================================== *)
(** * The claims about retries *)
(* ===================================================================== *)

(** C4, as stated, fails in its last part: what the wrapper raises once the
    attempts are exhausted is the very value that a single attempt raises
    (same message, same status); nothing marks it as an exhausted-retries
    error. Here every call is answered by 503. *)
Lemma C4_counterexample :
  let file := ZipProcessor.fileInfoOf 0 "a.txt"
                (ZipProcessor.mkEntry false (Some "") (Some (Some 1, Some 1)) None) "" in
  let answer (r : Js.Request) :=
    (Js.Failure 503 "Service Unavailable" (Js.mkJson "busy" "" ""), 5) in
  let this := GitHubAgent.newAgent (GitHubAgent.mkConfig "me" None None None None) in
  fst (Js.exec (Runs.answering answer)
         (GitHubAgent.uploadSingleFileWithRetry this "me" "repo" file GitHubAgent.noOptions)
         (GitHubAgent.freshWorld 1000000))
  = Js.Threw (Js.ErrorObj "busy" (Some 503))
  /\ forall w,
      fst (Js.exec (Runs.answering answer)
             (GitHubAgent.uploadSingleFile this "me" "repo" file GitHubAgent.noOptions) w)
      = Js.Threw (Js.ErrorObj "busy" (Some 503)).
Proof.
  intros file answer this. split.
  - vm_compute. reflexivity.
  - intros w. rewrite RunFacts.exec_uploadSingleFile_answering. reflexivity.
Qed.

(** C4 (amended): for every operation that fails on every attempt, and
    [maxRetries >= 1], the wrapper makes exactly [maxRetries] attempts, waits
    [retryDelay * 2^(k-2)] before attempt [k] (for [k >= 2]), and after the
    last attempt raises the failure of that attempt, as it is. *)
Theorem C4_exactly_maxRetries_attempts_with_backoff
    (remote : Js.Remote) (this : GitHubAgent.Agent) (A : Type)
    (uploadAttempt : Js.Prog A) (w : Js.World)
    (Hretries : 1 <= GitHubAgent.maxRetries this)
    (Hfails : Runs.alwaysFails remote uploadAttempt) :
  let pauses := Runs.backoffPauses (GitHubAgent.retryDelay this) 2
                  (Z.to_nat (GitHubAgent.maxRetries this) - 1) in
  exists e w',
    Js.exec remote (GitHubAgent.withRetry this uploadAttempt) w = (Js.Threw e, w')
    /\ Runs.attemptsFail remote uploadAttempt pauses w e w'
    /\ Z.of_nat (1 + List.length pauses) = GitHubAgent.maxRetries this
    /\ forall k, 2 <= k <= GitHubAgent.maxRetries this ->
                 nth (Z.to_nat (k - 2)) pauses 0
                 = GitHubAgent.retryDelay this * 2 ^ (k - 2).
Proof.
  intros pauses.
  destruct (RunFacts.withRetry_exhausts remote this uploadAttempt w Hretries Hfails)
    as (e & w' & Hrun & Hchain).
  exists e, w'. split; [exact Hrun|]. split; [exact Hchain|]. split.
  - unfold pauses. rewrite RunFacts.backoffPauses_length. lia.
  - intros k Hk. unfold pauses. rewrite RunFacts.backoffPauses_nth by lia.
    f_equal. f_equal. lia.
Qed.

Lemma C4_witness :
  let file := ZipProcessor.fileInfoOf 0 "a.txt"
                (ZipProcessor.mkEntry false (Some "") (Some (Some 1, Some 1)) None) "" in
  let answer (r : Js.Request) :=
    (Js.Failure 503 "Service Unavailable" (Js.mkJson "busy" "" ""), 5) in
  let this := GitHubAgent.newAgent (GitHubAgent.mkConfig "me" None None None None) in
  let attempt := GitHubAgent.uploadSingleFile this "me" "repo" file GitHubAgent.noOptions in
  exists e w',
    Js.exec (Runs.answering answer)
      (GitHubAgent.uploadSingleFileWithRetry this "me" "repo" file GitHubAgent.noOptions)
      (GitHubAgent.freshWorld 1000000)
    = (Js.Threw e, w')
    /\ Runs.attemptsFail (Runs.answering answer) attempt [1000; 2000]
         (GitHubAgent.freshWorld 1000000) e w'.
Proof.
  intros file answer this attempt.
  destruct (C4_exactly_maxRetries_attempts_with_backoff (Runs.answering answer) this _
              attempt (GitHubAgent.freshWorld 1000000)) as (e & w' & Hrun & Hchain & _).
  - vm_compute. discriminate.
  - exact (RunFacts.settlesAs_answering this answer "me" "repo" file GitHubAgent.noOptions).
  - exists e, w'. split; [exact Hrun | exact Hchain].
Defined.




(* ===================================================================== *)
(** * The claim about the README *)
(* ===================================================================== *)

(** C2, as stated, fails: the repository is created, the readiness lookup
    succeeds, the one file is uploaded, the upload of the README is answered
    by 500, and the run returns a failure result. *)
Lemma C2_counterexample :
  let file := ZipProcessor.fileInfoOf 0 "a.txt"
                (ZipProcessor.mkEntry false (Some "aGk=") (Some (Some 2, Some 2)) None) "aGk=" in
  let localeCompare a b := match String.compare a b with Lt => -1 | Eq => 0 | Gt => 1 end in
  let generateReadmeContent (repoName : string) (files : list ZipProcessor.ExtractedFile) :=
    GitHubAgent.ReadmeText "# repo" in
  let base64 (s : string) := s in
  let answer (r : Js.Request) :=
    (if String.eqb (Js.req_method r) "PUT" then
       if String.eqb (Js.req_endpoint r)
                     "https://api.github.com/repos/me/repo/contents/README.md"
       then Js.Failure 500 "Internal Server Error" (Js.mkJson "README rejected" "" "")
       else Js.Success (Js.mkJson "" "abc" "")
     else if String.eqb (Js.req_method r) "POST"
          then Js.Success (Js.mkJson "" "" "https://github.com/me/repo")
     else if String.eqb (Js.req_endpoint r) "https://api.github.com/repos/me/repo"
          then Js.Success (Js.mkJson "" "" "https://github.com/me/repo")
     else Js.Failure 404 "Not Found" (Js.mkJson "" "" ""), 5) in
  let remote := Runs.answering answer in
  let this := GitHubAgent.newAgent (GitHubAgent.mkConfig "me" None None None None) in
  let w := GitHubAgent.freshWorld 1000000 in
  let created := Js.exec remote (GitHubAgent.createRepository this "repo" GitHubAgent.noOptions) w in
  let ready := Js.exec remote
                 (GitHubAgent.waitForRepositoryReady this "me" "repo" 30000) (snd created) in
  let uploaded := Js.exec remote
                    (GitHubAgent.uploadFilesToRepository localeCompare this "me" "repo"
                       [file] GitHubAgent.noOptions) (snd ready) in
  fst created = Js.Returned (Js.mkJson "" "" "https://github.com/me/repo")
  /\ fst ready = Js.Returned tt
  /\ (exists results, fst uploaded = Js.Returned results
                      /\ GitHubAgent.successCount results = 1
                      /\ GitHubAgent.failedCount results = 0)
  /\ fst (Js.exec remote
            (GitHubAgent.createRepositoryAndUploadFiles localeCompare generateReadmeContent
               base64 this "repo" [file] GitHubAgent.noOptions) w)
     = Js.Returned (GitHubAgent.RunFailure "README rejected" "repo" 1 705 1000705).
Proof.
  vm_compute. split; [reflexivity|]. split; [reflexivity|].
  split; [eexists; repeat split; reflexivity | reflexivity].
Qed.

(** C2 (amended): when the input is valid, the repository is created, the
    readiness wait and the batched upload complete, the README is asked for
    ([createReadme] is not [false]) and its upload fails with an error, then
    [createRepositoryAndUploadFiles] returns a failure result that carries
    the message of that error, and neither the repository descriptor nor the
    upload counts. *)
Theorem C2_readme_failure_fails_the_run
    (localeCompare : string -> string -> Z)
    (generateReadmeContent : string -> list ZipProcessor.ExtractedFile
                             -> GitHubAgent.Generated)
    (base64 : string -> string)
    (remote : Js.Remote) (this : GitHubAgent.Agent) (folderName : string)
    (extractedFiles : list ZipProcessor.ExtractedFile) (options : GitHubAgent.Options)
    (w w1 w2 w3 w4 : Js.World) (repoData : Js.Json) (uploadResults : GitHubAgent.Results)
    (message : string) (status : option Z)
    (Hvalid : GitHubAgent.validateInput folderName extractedFiles = Js.Ret tt)
    (Hcreated : Js.exec remote (GitHubAgent.createRepository this folderName options) w
                = (Js.Returned repoData, w1))
    (Hready : Js.exec remote
                (GitHubAgent.waitForRepositoryReady this (GitHubAgent.owner this) folderName
                   30000) w1
              = (Js.Returned tt, w2))
    (Huploaded : Js.exec remote
                   (GitHubAgent.uploadFilesToRepository localeCompare this
                      (GitHubAgent.owner this) folderName extractedFiles options) w2
                 = (Js.Returned uploadResults, w3))
    (Hwanted : GitHubAgent.notFalse (GitHubAgent.opt_createReadme options) = true)
    (Hreadme : Js.exec remote
                 (GitHubAgent.createReadmeFile generateReadmeContent base64 this
                    (GitHubAgent.owner this) folderName
                    (GitHubAgent.filesAfterUpload localeCompare extractedFiles options)) w3
               = (Js.Threw (Js.ErrorObj message status), w4)) :
  Js.exec remote
    (GitHubAgent.createRepositoryAndUploadFiles localeCompare generateReadmeContent base64
       this folderName extractedFiles options) w
  = (Js.Returned
       (GitHubAgent.RunFailure message folderName
          (Z.of_nat (List.length extractedFiles))
          (Js.clock w4 - Js.clock w) (Js.clock w4)),
     w4).
Proof.
  unfold GitHubAgent.createRepositoryAndUploadFiles.
  cbn [Js.bind Js.perform Js.exec].
  rewrite RunFacts.exec_tryCatch.
  rewrite RunFacts.exec_bind, Hvalid. cbn [Js.exec].
  rewrite RunFacts.exec_bind, Hcreated.
  rewrite RunFacts.exec_bind, Hready.
  rewrite RunFacts.exec_bind, Huploaded.
  rewrite RunFacts.exec_bind, Hwanted.
  rewrite RunFacts.exec_bind, Hreadme.
  reflexivity.
Qed.

Lemma C2_witness :
  let file := ZipProcessor.fileInfoOf 0 "a.txt"
                (ZipProcessor.mkEntry false (Some "aGk=") (Some (Some 2, Some 2)) None) "aGk=" in
  let localeCompare a b := match String.compare a b with Lt => -1 | Eq => 0 | Gt => 1 end in
  let generateReadmeContent (repoName : string) (files : list ZipProcessor.ExtractedFile) :=
    GitHubAgent.ReadmeText "# repo" in
  let base64 (s : string) := s in
  let answer (r : Js.Request) :=
    (if String.eqb (Js.req_method r) "PUT" then
       if String.eqb (Js.req_endpoint r)
                     "https://api.github.com/repos/me/repo/contents/README.md"
       then Js.Failure 500 "Internal Server Error" (Js.mkJson "README rejected" "" "")
       else Js.Success (Js.mkJson "" "abc" "")
     else if String.eqb (Js.req_method r) "POST"
          then Js.Success (Js.mkJson "" "" "https://github.com/me/repo")
     else if String.eqb (Js.req_endpoint r) "https://api.github.com/repos/me/repo"
          then Js.Success (Js.mkJson "" "" "https://github.com/me/repo")
     else Js.Failure 404 "Not Found" (Js.mkJson "" "" ""), 5) in
  let this := GitHubAgent.newAgent (GitHubAgent.mkConfig "me" None None None None) in
  exists processingTime timestamp,
    fst (Js.exec (Runs.answering answer)
           (GitHubAgent.createRepositoryAndUploadFiles localeCompare generateReadmeContent
              base64 this "repo" [file] GitHubAgent.noOptions)
           (GitHubAgent.freshWorld 1000000))
    = Js.Returned (GitHubAgent.RunFailure "README rejected" "repo" 1 processingTime timestamp).
Proof.
  intros file localeCompare generateReadmeContent base64 answer this.
  eexists. eexists.
  erewrite (C2_readme_failure_fails_the_run localeCompare generateReadmeContent base64
              (Runs.answering answer) this "repo" [file] GitHubAgent.noOptions
              (GitHubAgent.freshWorld 1000000)).
  - reflexivity.
  - reflexivity.
  - vm_compute. reflexivity.
  - vm_compute. reflexivity.
  - vm_compute. reflexivity.
  - reflexivity.
  - vm_compute. reflexivity.
Defined.

(* ===================================================================== *)
(** * The claim about the rate limiter *)
(* ===================================================================== *)

Module RateLimitFacts.
Import Js GitHubAgent Runs EventLoop.

(** Taken in turn, two calls of [enforceRateLimit] complete at least
    [rateLimitDelay] apart. *)
Lemma sequential_calls_are_spaced remote this w :
  0 <= rateLimitDelay this ->
  let w1 := snd (exec remote (enforceRateLimit this) w) in
  let w2 := snd (exec remote (enforceRateLimit this) w1) in
  clock w1 + rateLimitDelay this <= clock w2.
Proof.
  intros Hd. cbv zeta. rewrite !RunFacts.exec_enforceRateLimit. cbn [snd].
  set (w1 := rateLimited this w).
  assert (clock w1 - lastRequestTime w1 = 0) as Hzero.
  { unfold w1, rateLimited.
    destruct (clock w - lastRequestTime w <? rateLimitDelay this); simpl; lia. }
  unfold rateLimited. rewrite Hzero.
  destruct (0 <? rateLimitDelay this) eqn:Hz; simpl; lia.
Qed.

(** One call in the event loop: it passes at once, or it is suspended on
    its timer with only the stamping of the time left to do. *)
Lemma runSync_passes remote this seq w :
  (clock w - lastRequestTime w <? rateLimitDelay this) = false ->
  runSync remote seq (enforceRateLimit this) w
  = (Settled (clock w) (Returned tt),
     {| clock := clock w; lastRequestTime := clock w; trace := trace w |}).
Proof. intros H. unfold enforceRateLimit. cbn. rewrite H. reflexivity. Qed.

Lemma runSync_waits remote this seq w :
  (clock w - lastRequestTime w <? rateLimitDelay this) = true ->
  runSync remote seq (enforceRateLimit this) w
  = (Waiting (clock w + Z.max 0 (rateLimitDelay this - (clock w - lastRequestTime w))) seq
       (now' <- perform DateNow ;; perform (SetLastRequestTime now')),
     {| clock := clock w; lastRequestTime := lastRequestTime w;
        trace := (trace w
                  ++ [Slept (rateLimitDelay this - (clock w - lastRequestTime w))])%list |}).
Proof. intros H. unfold enforceRateLimit. cbn. rewrite H. reflexivity. Qed.

Lemma runSync_stamps remote seq w :
  runSync remote seq (now' <- perform DateNow ;; perform (SetLastRequestTime now')) w
  = (Settled (clock w) (Returned tt),
     {| clock := clock w; lastRequestTime := clock w; trace := trace w |}).
Proof. reflexivity. Qed.

End RateLimitFacts.

(** C8 fails on the code: three calls of [enforceRateLimit] made in the same
    turn on a fresh agent. The first passes at once; the second and the third
    both read the time stamp that the first left, both wait the same
    [rateLimitDelay], and both complete at the same instant. *)
Theorem C8_concurrent_callers_complete_together
    (remote : Js.Remote) (this : GitHubAgent.Agent) (now : Z) (extra : nat)
    (Hdelay : 0 < GitHubAgent.rateLimitDelay this)
    (Hwarm : GitHubAgent.rateLimitDelay this <= now) :
  map EventLoop.completedAt
      (fst (EventLoop.runAll remote (2 + extra)
              [GitHubAgent.enforceRateLimit this; GitHubAgent.enforceRateLimit this;
               GitHubAgent.enforceRateLimit this]
              (GitHubAgent.freshWorld now)))
  = [Some now; Some (now + GitHubAgent.rateLimitDelay this);
     Some (now + GitHubAgent.rateLimitDelay this)].
Proof.
  set (d := GitHubAgent.rateLimitDelay this) in *.
  unfold EventLoop.runAll. cbn [EventLoop.startAll List.length].
  rewrite RateLimitFacts.runSync_passes by (simpl; lia).
  rewrite RateLimitFacts.runSync_waits by (simpl; lia).
  rewrite RateLimitFacts.runSync_waits by (simpl; lia).
  cbn [Js.clock Js.lastRequestTime Js.trace GitHubAgent.freshWorld]. fold d.
  replace (Z.max 0 (d - (now - now))) with d by lia.
  cbn [Nat.add EventLoop.turnsFrom EventLoop.firstDue].
  rewrite Z.ltb_irrefl, Z.eqb_refl.
  cbn [orb andb Nat.ltb Nat.leb EventLoop.replaceAt].
  rewrite RateLimitFacts.runSync_stamps.
  cbn [Js.clock Js.lastRequestTime Js.trace EventLoop.replaceAt
       EventLoop.turnsFrom EventLoop.firstDue].
  rewrite RateLimitFacts.runSync_stamps.
  cbn [Js.clock Js.lastRequestTime Js.trace EventLoop.replaceAt].
  replace (Z.max now (now + d)) with (now + d) by lia. rewrite Z.max_id.
  destruct extra; reflexivity.
Qed.

Lemma C8_witness :
  let this := GitHubAgent.newAgent (GitHubAgent.mkConfig "me" None None None None) in
  let remote : Js.Remote := fun _ _ => (Js.Success (Js.mkJson "" "" ""), 5) in
  map EventLoop.completedAt
      (fst (EventLoop.runAll remote 2
              [GitHubAgent.enforceRateLimit this; GitHubAgent.enforceRateLimit this;
               GitHubAgent.enforceRateLimit this]
              (GitHubAgent.freshWorld 1000000)))
  = [Some 1000000; Some 1000100; Some 1000100].
Proof.
  intros this remote.
  apply (C8_concurrent_callers_complete_together remote this 1000000 0).
  - reflexivity.
  - vm_compute. discriminate.
Defined.

(* ===================================================================== *)
(** * The claim about the readiness wait *)
(* ===================================================================== *)

Module WaitFacts.
Import JsString Js GitHubAgent Runs.

Section Waiting.
Variable remote : Remote.
Variable this : Agent.
Variables owner repoName : string.
Variables startTime maxWaitTime : Z.

Abbreviation lookup := (statusLookup this owner repoName).
Abbreviation waiting fuel := (waitLoop this fuel owner repoName startTime maxWaitTime).

(** One lookup: some pauses of the rate limiter, then one call, whose answer
    decides the outcome. *)
Lemma lookup_run w :
  exists pauses at_time r resp took,
    exec remote lookup w
    = (apiOutcome resp, fetched r resp took (rateLimited this w))
    /\ trace (fetched r resp took (rateLimited this w))
       = (trace w ++ map Slept pauses ++ [Fetched at_time r resp])%list.
Proof.
  unfold statusLookup. rewrite RunFacts.exec_makeGitHubApiCall. cbv zeta.
  destruct (RunFacts.rateLimited_trace this w) as (pauses & Hp).
  eexists pauses, _, _, _, _. split; [reflexivity|].
  cbn [fetched trace]. rewrite Hp, <- app_assoc. reflexivity.
Qed.

Lemma lookup_clock w c w1 : exec remote lookup w = (c, w1) -> clock w <= clock w1.
Proof. apply RunFacts.exec_clock. Qed.

Lemma apiOutcome_status resp e :
  apiOutcome resp = Threw e -> statusIs e 404 = isNotFound resp.
Proof. destruct resp; simpl; intros [= <-]; reflexivity. Qed.

Lemma apiOutcome_returned resp json :
  apiOutcome resp = Returned json -> isNotFound resp = false.
Proof. destruct resp; simpl; intros H; [reflexivity | discriminate | discriminate]. Qed.

Lemma apiOutcome_success resp json :
  apiOutcome resp = Returned json -> isSuccess resp = true.
Proof. destruct resp; simpl; intros H; [reflexivity | discriminate | discriminate]. Qed.

Lemma apiOutcome_failure resp e :
  apiOutcome resp = Threw e -> isSuccess resp = false.
Proof. destruct resp; simpl; intros H; [discriminate | reflexivity | reflexivity]. Qed.

Lemma apiOutcome_converges resp : apiOutcome resp <> Diverges.
Proof. destruct resp; discriminate. Qed.

(** One pass through the loop. *)
Lemma waitLoop_step fuel w :
  exec remote (waiting (S fuel)) w =
  if clock w - startTime <? maxWaitTime then
    match exec remote lookup w with
    | (Returned _, w1) => (Returned tt, w1)
    | (Threw error, w1) =>
        if statusIs error 404 then exec remote (waiting fuel) (slept 1000 w1)
        else (Threw error, w1)
    | (Diverges, w1) => (Diverges, w1)
    end
  else (Threw timeoutError, w).
Proof.
  cbn [waitLoop]. rewrite RunFacts.exec_bind. cbn [perform exec].
  destruct (clock w - startTime <? maxWaitTime); [|reflexivity].
  rewrite RunFacts.exec_tryCatch, RunFacts.exec_bind. fold lookup.
  destruct (exec remote lookup w) as [[json|error|] w1]; try reflexivity.
  destruct (statusIs error 404); [|reflexivity].
  rewrite RunFacts.exec_bind, RunFacts.exec_delay. reflexivity.
Qed.

(** With fuel for the budget that is left, the loop ends as [Polls] says. *)
Lemma waitLoop_polls fuel :
  forall w,
    maxWaitTime - (clock w - startTime) <= 1000 * (Z.of_nat fuel - 1) ->
    (0 < fuel)%nat ->
    exists outcome w',
      exec remote (waiting fuel) w = (completionOf outcome, w')
      /\ Polls remote this owner repoName startTime maxWaitTime w outcome w'.
Proof.
  induction fuel as [|fuel IH]; intros w Hfuel Hpos; [lia|].
  rewrite waitLoop_step.
  destruct (Z.ltb_spec (clock w - startTime) maxWaitTime) as [Hin|Hout].
  - destruct (exec remote lookup w) as [[json|error|] w1] eqn:Hlook.
    + exists Ready, w1. split; [reflexivity|]. eapply polls_ready; eauto.
    + destruct (statusIs error 404) eqn:H404.
      * pose proof (lookup_clock _ _ _ Hlook) as Hclock.
        destruct (IH (slept 1000 w1)) as (outcome & w' & Hrun & Hpolls).
        -- cbn [slept clock]. lia.
        -- lia.
        -- exists outcome, w'. split; [exact Hrun|]. eapply polls_again; eauto.
      * exists (Fatal error), w1. split; [reflexivity|]. eapply polls_fatal; eauto.
    + destruct (lookup_run w) as (? & ? & ? & resp & ? & Hrun & _).
      rewrite Hrun in Hlook. injection Hlook as Hc _.
      destruct (apiOutcome_converges _ Hc).
  - exists TimedOut, w. split; [reflexivity|]. now apply polls_timeout.
Qed.

(** The trace of a poll: the wait times out exactly when every lookup that
    was made was answered by 404, and completes exactly when one succeeded. *)
Lemma polls_trace w outcome w' :
  Polls remote this owner repoName startTime maxWaitTime w outcome w' ->
  exists events,
    trace w' = (trace w ++ events)%list
    /\ (outcome = TimedOut <-> forallb isNotFound (responsesOf events) = true)
    /\ (outcome = Ready <-> existsb isSuccess (responsesOf events) = true).
Proof.
  induction 1 as [w Hout | w json w1 Hin Hlook | w error w1 Hin Hlook H404
                  | w error w1 outcome w' Hin Hlook H404 Hrest IH].
  - exists []. rewrite app_nil_r. split; [reflexivity|]. simpl.
    split; split; (reflexivity || discriminate).
  - destruct (lookup_run w) as (pauses & t & r & resp & took & Hrun & Htrace).
    rewrite Hrun in Hlook. injection Hlook as Hc <-.
    eexists. split; [exact Htrace|].
    rewrite RunFacts.responsesOf_app, RunFacts.responsesOf_pauses. simpl.
    rewrite (apiOutcome_returned _ _ Hc), (apiOutcome_success _ _ Hc). simpl.
    split; split; (reflexivity || discriminate).
  - destruct (lookup_run w) as (pauses & t & r & resp & took & Hrun & Htrace).
    rewrite Hrun in Hlook. injection Hlook as Hc <-.
    eexists. split; [exact Htrace|].
    rewrite RunFacts.responsesOf_app, RunFacts.responsesOf_pauses. simpl.
    rewrite <- (apiOutcome_status _ _ Hc), H404, (apiOutcome_failure _ _ Hc). simpl.
    split; split; discriminate.
  - destruct (lookup_run w) as (pauses & t & r & resp & took & Hrun & Htrace).
    rewrite Hrun in Hlook. injection Hlook as Hc <-.
    destruct IH as (events & Hevents & Hiff & Hready).
    exists ((map Slept pauses ++ [Fetched t r resp]) ++ Slept 1000 :: events)%list.
    split.
    + rewrite Hevents. cbn [slept trace]. rewrite Htrace, <- !app_assoc. reflexivity.
    + rewrite !RunFacts.responsesOf_app, RunFacts.responsesOf_pauses. simpl.
      rewrite <- (apiOutcome_status _ _ Hc), H404, (apiOutcome_failure _ _ Hc). simpl.
      split; [exact Hiff | exact Hready].
Qed.

(** The answers in the order in which they came, and the time of a
    timeout. *)
Lemma polls_answers w outcome w' :
  Polls remote this owner repoName startTime maxWaitTime w outcome w' ->
  (forall events, trace w' = (trace w ++ events)%list ->
                  answersOf outcome (responsesOf events))
  /\ (outcome = TimedOut -> maxWaitTime <= clock w' - startTime).
Proof.
  induction 1 as [w Hout | w json w1 Hin Hlook | w error w1 Hin Hlook H404
                  | w error w1 outcome w' Hin Hlook H404 Hrest IH].
  - split; [|intros _; exact Hout].
    intros events Hevents.
    assert (events = []) as ->.
    { apply (app_inv_head (trace w)). now rewrite app_nil_r. }
    exists [], []. repeat split.
  - split; [|discriminate].
    destruct (lookup_run w) as (pauses & t & r & resp & took & Hrun & Htrace).
    rewrite Hrun in Hlook. injection Hlook as Hc <-.
    intros events Hevents. rewrite Htrace in Hevents. apply app_inv_head in Hevents as <-.
    rewrite RunFacts.responsesOf_app, RunFacts.responsesOf_pauses. cbn [app responsesOf flat_map].
    exists [], [resp]. split; [reflexivity|]. split; [reflexivity|].
    destruct resp; try discriminate Hc. now eexists.
  - split; [|discriminate].
    destruct (lookup_run w) as (pauses & t & r & resp & took & Hrun & Htrace).
    rewrite Hrun in Hlook. injection Hlook as Hc <-.
    intros events Hevents. rewrite Htrace in Hevents. apply app_inv_head in Hevents as <-.
    rewrite RunFacts.responsesOf_app, RunFacts.responsesOf_pauses. cbn [app responsesOf flat_map].
    exists [], [resp]. split; [reflexivity|]. split; [reflexivity|].
    exists resp. split; [reflexivity|].
    rewrite <- (apiOutcome_status _ _ Hc), H404, (apiOutcome_failure _ _ Hc). auto.
  - destruct IH as [IHanswers IHclock]. split; [|exact IHclock].
    destruct (lookup_run w) as (pauses & t & r & resp & took & Hrun & Htrace).
    rewrite Hrun in Hlook. injection Hlook as Hc <-.
    destruct (polls_trace _ _ _ Hrest) as (rest & Hrest_trace & _).
    intros events Hevents. rewrite Hrest_trace in Hevents.
    cbn [slept trace] in Hevents, Hrest_trace. rewrite Htrace, <- !app_assoc in Hevents.
    apply app_inv_head in Hevents as <-.
    destruct (IHanswers rest) as (notFounds & last & Hresp & Hnf & Hlast).
    { rewrite Hrest_trace. reflexivity. }
    rewrite !RunFacts.responsesOf_app, RunFacts.responsesOf_pauses.
    change (responsesOf ([Fetched t r resp] ++ [Slept 1000] ++ rest))
      with (resp :: responsesOf rest).
    rewrite Hresp. exists (resp :: notFounds), last.
    split; [reflexivity|]. split; [|exact Hlast].
    cbn [forallb]. rewrite <- (apiOutcome_status _ _ Hc), H404. exact Hnf.
Qed.

End Waiting.

Lemma waitFuel_suffices maxWaitTime :
  maxWaitTime <= 1000 * (Z.of_nat (waitFuel maxWaitTime) - 1).
Proof.
  unfold waitFuel. destruct (Z.le_gt_cases 0 maxWaitTime) as [Hpos|Hneg].
  - rewrite Nat2Z.inj_add, Z2Nat.id by (apply Z.div_pos; lia).
    pose proof (Z.div_mod maxWaitTime 1000 ltac:(lia)) as Hdiv.
    pose proof (Z.mod_pos_bound maxWaitTime 1000 ltac:(lia)) as Hmod. lia.
  - lia.
Qed.

End WaitFacts.

(** C9, as stated, fails: the budget is tested before a lookup is sent and
    never while its answer is awaited. A lookup sent at the start of the
    wait and answered with success 31 seconds later completes the wait: no
    lookup succeeded within the budget of 30 seconds, and no timeout error
    is raised. *)
Lemma C9_counterexample :
  let this := GitHubAgent.newAgent (GitHubAgent.mkConfig "me" None None None None) in
  let slow : Js.Remote := fun _ _ => (Js.Success (Js.mkJson "" "" ""), 31000) in
  let run := Js.exec slow (GitHubAgent.waitForRepositoryReady this "me" "repo" 30000)
               (GitHubAgent.freshWorld 1000000) in
  fst run = Js.Returned tt
  /\ Js.trace (snd run)
     = [Js.Fetched 1000000
          (Runs.apiRequest "GET" "/repos/me/repo" Js.NoBody)
          (Js.Success (Js.mkJson "" "" ""))]
  /\ Js.clock (snd run) = 1000000 + 31000.
Proof. vm_compute. repeat split; reflexivity. Qed.

(** C9 (amended): [waitForRepositoryReady] always ends. It tests the budget
    each time before it sends a lookup, and not while the answer is awaited:
    a lookup answered by 404 is followed by a wait of 1000 ms and another
    test; a lookup that fails otherwise ends the wait with its error; a
    lookup that succeeds completes the wait, however long the answer took.
    So the answers are some 404s followed by nothing (time-out), by one
    success (completion) or by one other failure (that error); the wait
    raises the time-out error if and only if every lookup made was answered
    by 404, and then the budget has elapsed; it completes if and only if a
    lookup succeeded. *)
Theorem C9_readiness_wait_times_out_iff_every_lookup_is_not_found
    (remote : Js.Remote) (this : GitHubAgent.Agent) (owner repoName : string)
    (maxWaitTime : Z) (w : Js.World) :
  exists outcome w',
    Js.exec remote (GitHubAgent.waitForRepositoryReady this owner repoName maxWaitTime) w
    = (Runs.completionOf outcome, w')
    /\ Runs.Polls remote this owner repoName (Js.clock w) maxWaitTime w outcome w'
    /\ (outcome = Runs.TimedOut -> maxWaitTime <= Js.clock w' - Js.clock w)
    /\ exists events,
        Js.trace w' = (Js.trace w ++ events)%list
        /\ Runs.answersOf outcome (Runs.responsesOf events)
        /\ (outcome = Runs.TimedOut
            <-> forallb Runs.isNotFound (Runs.responsesOf events) = true)
        /\ (outcome = Runs.Ready
            <-> existsb Runs.isSuccess (Runs.responsesOf events) = true).
Proof.
  unfold GitHubAgent.waitForRepositoryReady. cbn [Js.bind Js.perform Js.exec].
  destruct (WaitFacts.waitLoop_polls remote this owner repoName (Js.clock w) maxWaitTime
              (GitHubAgent.waitFuel maxWaitTime) w) as (outcome & w' & Hrun & Hpolls).
  - pose proof (WaitFacts.waitFuel_suffices maxWaitTime). lia.
  - unfold GitHubAgent.waitFuel. lia.
  - exists outcome, w'. split; [exact Hrun|]. split; [exact Hpolls|].
    destruct (WaitFacts.polls_answers _ _ _ _ _ _ _ _ _ Hpolls) as [Hanswers Hclock].
    split; [exact Hclock|].
    destruct (WaitFacts.polls_trace _ _ _ _ _ _ _ _ _ Hpolls)
      as (events & Htrace & Htimeout & Hready).
    exists events. split; [exact Htrace|]. split; [exact (Hanswers events Htrace)|].
    split; [exact Htimeout | exact Hready].
Qed.

(** The scenario of the specification: three lookups answered by 404, the
    fourth succeeds; and a repository that never shows up. *)
Lemma readiness_scenarios :
  let this := GitHubAgent.newAgent (GitHubAgent.mkConfig "me" None None None None) in
  let late : Js.Remote := fun w r =>
    (if (List.length (Runs.requestsOf (Js.trace w)) <? 3)%nat
     then Js.Failure 404 "Not Found" (Js.mkJson "" "" "")
     else Js.Success (Js.mkJson "" "" ""), 5) in
  let never : Js.Remote := fun w r => (Js.Failure 404 "Not Found" (Js.mkJson "" "" ""), 5) in
  let run remote := Js.exec remote
                      (GitHubAgent.waitForRepositoryReady this "me" "repo" 30000)
                      (GitHubAgent.freshWorld 1000000) in
  fst (run late) = Js.Returned tt
  /\ List.length (Runs.requestsOf (Js.trace (snd (run late)))) = 4%nat
  /\ fst (run never) = Js.Threw GitHubAgent.timeoutError.
Proof. vm_compute. repeat split; reflexivity. Qed.

(* ===================================================================== *)
(** * Proofs: the checksum *)
(* ===================================================================== *)

Module ChecksumFacts.
Import JsString FolderName ZipProcessor Checksum.

Lemma toInt32_congruent a b : a mod 2 ^ 32 = b mod 2 ^ 32 -> toInt32 a = toInt32 b.
Proof. unfold toInt32. now intros ->. Qed.

Lemma toInt32_mod z : toInt32 z mod 2 ^ 32 = z mod 2 ^ 32.
Proof.
  unfold toInt32. pose proof (Z.mod_pos_bound z (2 ^ 32) ltac:(lia)) as Hb.
  destruct (z mod 2 ^ 32 <? 2 ^ 31).
  - apply Z.mod_mod. lia.
  - replace (z mod 2 ^ 32 - 2 ^ 32) with (z mod 2 ^ 32 + (-1) * 2 ^ 32) by lia.
    rewrite Z.mod_add by lia. apply Z.mod_mod. lia.
Qed.

Lemma toInt32_range z : - 2 ^ 31 <= toInt32 z < 2 ^ 31.
Proof.
  unfold toInt32. pose proof (Z.mod_pos_bound z (2 ^ 32) ltac:(lia)) as Hb.
  destruct (Z.ltb_spec (z mod 2 ^ 32) (2 ^ 31)); lia.
Qed.

(** One pass through the loop is one step of Horner's rule, modulo [2^32]. *)
Lemma checksum_step h char :
  toInt32 ((toInt32 (Z.shiftl h 5) - h) + char) = toInt32 (31 * h + char).
Proof.
  apply toInt32_congruent. rewrite Z.shiftl_mul_pow2 by lia.
  rewrite Z.add_mod, Zminus_mod, toInt32_mod by lia.
  rewrite <- Zminus_mod, <- Z.add_mod by lia. f_equal. lia.
Qed.

Lemma checksumLoop_polynomial content :
  forall hash h, hash = toInt32 h ->
                 checksumLoop content hash = toInt32 (polynomialFrom h content).
Proof.
  induction content as [|ch t IH]; intros hash h ->; [reflexivity|].
  cbn [checksumLoop polynomialFrom]. apply IH.
  rewrite checksum_step. apply toInt32_congruent.
  rewrite Z.add_mod, Z.mul_mod, toInt32_mod by lia.
  rewrite <- Z.mul_mod, <- Z.add_mod by lia. reflexivity.
Qed.

Lemma polynomialFrom_app a b :
  forall h, polynomialFrom h (a ++ b) = polynomialFrom (polynomialFrom h a) b.
Proof. induction a as [|c a IH]; intros h; [reflexivity | apply IH]. Qed.

Lemma calculateChecksum_polynomial content :
  calculateChecksum content = toString16 (Z.abs (toInt32 (polynomialHash content))).
Proof.
  unfold calculateChecksum, polynomialHash.
  now rewrite (checksumLoop_polynomial content 0 0).
Qed.

(** ** Writing a number in base 16 *)

Lemma hexDigit_spec d :
  0 <= d < 16 -> isHexDigit (hexDigit d) = true /\ hexDigitValue (hexDigit d) = d.
Proof.
  intros Hd.
  assert (d = 0 \/ d = 1 \/ d = 2 \/ d = 3 \/ d = 4 \/ d = 5 \/ d = 6 \/ d = 7
          \/ d = 8 \/ d = 9 \/ d = 10 \/ d = 11 \/ d = 12 \/ d = 13 \/ d = 14 \/ d = 15)
    as Hcases by lia.
  repeat (destruct Hcases as [->|Hcases]; [split; reflexivity|]).
  subst d. split; reflexivity.
Qed.

Lemma hexValueFrom_app a b :
  forall acc, hexValueFrom acc (a ++ b) = hexValueFrom (hexValueFrom acc a) b.
Proof. induction a as [|c a IH]; intros acc; [reflexivity | apply IH]. Qed.

Lemma append_cons c (a b : string) : (String c a ++ b)%string = String c (a ++ b).
Proof. reflexivity. Qed.

Lemma allChars_app p a b : allChars p (a ++ b) = allChars p a && allChars p b.
Proof.
  induction a as [|c a IH]; [reflexivity|]. rewrite append_cons. cbn [allChars].
  now rewrite IH, andb_assoc.
Qed.

Lemma length_append (a b : string) :
  String.length (a ++ b) = (String.length a + String.length b)%nat.
Proof.
  induction a as [|c a IH]; [reflexivity|]. rewrite append_cons.
  cbn [String.length Nat.add]. f_equal. exact IH.
Qed.

Lemma append_assoc (a b c : string) : ((a ++ b) ++ c)%string = (a ++ (b ++ c))%string.
Proof. induction a as [|x a IH]; [reflexivity|]. rewrite !append_cons. f_equal. exact IH. Qed.

Lemma append_empty (a : string) : (a ++ "")%string = a.
Proof. induction a as [|x a IH]; [reflexivity|]. rewrite append_cons. f_equal. exact IH. Qed.

(** [toHexDigits] puts in front of [acc] the digits of [z], most significant
    first: between one and [n] of them when [z < 16^n]. *)
Lemma toHexDigits_spec fuel :
  forall n z acc,
    (1 <= n <= fuel)%nat -> 0 <= z < 16 ^ Z.of_nat n ->
    exists digits,
      toHexDigits fuel z acc = (digits ++ acc)%string
      /\ (1 <= String.length digits <= n)%nat
      /\ allChars isHexDigit digits = true
      /\ forall v, hexValueFrom v digits = v * 16 ^ Z.of_nat (String.length digits) + z.
Proof.
  induction fuel as [|fuel IH]; intros n z acc Hn Hz; [lia|].
  cbn [toHexDigits].
  assert (0 <= z mod 16 < 16) as Hm by (apply Z.mod_pos_bound; lia).
  destruct (hexDigit_spec _ Hm) as [Hhex Hval].
  pose proof (Z.div_mod z 16 ltac:(lia)) as Hdiv.
  destruct (Z.eqb_spec (z / 16) 0) as [Hq|Hq].
  - exists (String (hexDigit (z mod 16)) "").
    split; [reflexivity|]. split; [simpl; lia|]. split; [simpl; now rewrite Hhex|].
    intros v. cbn [hexValueFrom String.length]. rewrite Hval. change (16 ^ Z.of_nat 1) with 16. lia.
  - assert (0 < z / 16) as Hpos by (pose proof (Z.div_pos z 16); lia).
    destruct n as [|n]; [lia|]. destruct n as [|n].
    { change (16 ^ Z.of_nat 1) with 16 in Hz. rewrite Z.div_small in Hpos by lia. lia. }
    destruct (IH (S n) (z / 16) (String (hexDigit (z mod 16)) acc)) as (d & Hrun & Hlen & Hall & Hv).
    + lia.
    + split; [lia|]. apply Z.div_lt_upper_bound; [lia|].
      replace (16 * 16 ^ Z.of_nat (S n)) with (16 ^ Z.of_nat (S (S n))); [lia|].
      rewrite (Nat2Z.inj_succ (S n)), Z.pow_succ_r by lia. reflexivity.
    + exists (d ++ String (hexDigit (z mod 16)) "")%string.
      split; [rewrite Hrun, append_assoc; reflexivity|].
      split; [rewrite length_append; simpl; lia|].
      split; [rewrite allChars_app, Hall; simpl; now rewrite Hhex|].
      intros v. rewrite hexValueFrom_app, Hv. cbn [hexValueFrom]. rewrite Hval.
      rewrite length_append. cbn [String.length].
      replace (Z.of_nat (String.length d + 1)) with (Z.succ (Z.of_nat (String.length d))) by lia.
      rewrite Z.pow_succ_r by lia. lia.
Qed.

End ChecksumFacts.

(** X1: the checksum is the polynomial hash of the character codes with base 31,
    wrapped into 32 signed bits, without its sign, in base 16. *)
Theorem calculateChecksum_is_polynomial_hash (content : string) :
  ZipProcessor.calculateChecksum content
  = ZipProcessor.toString16
      (Z.abs (ZipProcessor.toInt32 (Checksum.polynomialHash content))).
Proof.
  apply ChecksumFacts.calculateChecksum_polynomial.
Qed.

(** X2: a checksum is a string of one to eight digits of [0-9a-f], which writes
    in base 16 the absolute value of the wrapped hash: a number between 0 and
    [2^31]. *)
Theorem calculateChecksum_is_short_hex (content : string) :
  let checksum := ZipProcessor.calculateChecksum content in
  (1 <= String.length checksum <= 8)%nat
  /\ FolderName.allChars Checksum.isHexDigit checksum = true
  /\ Checksum.hexValue checksum
     = Z.abs (ZipProcessor.toInt32 (Checksum.polynomialHash content))
  /\ 0 <= Checksum.hexValue checksum <= 2 ^ 31.
Proof.
  intros checksum. unfold checksum, ZipProcessor.calculateChecksum, ZipProcessor.toString16.
  rewrite (ChecksumFacts.checksumLoop_polynomial content 0 0 eq_refl).
  fold (Checksum.polynomialHash content).
  pose proof (ChecksumFacts.toInt32_range (Checksum.polynomialHash content)) as Hr.
  destruct (ChecksumFacts.toHexDigits_spec 9 8
              (Z.abs (ZipProcessor.toInt32 (Checksum.polynomialHash content))) "")
    as (digits & -> & Hlen & Hall & Hv).
  - lia.
  - change (16 ^ Z.of_nat 8) with (2 ^ 32). lia.
  - rewrite ChecksumFacts.append_empty.
    unfold Checksum.hexValue. rewrite Hv. repeat split; try lia; exact Hall.
Qed.

(** X3: the checksum does not tell apart contents that differ by [Aa] against
    [BB] at any place: the two pairs of characters weigh the same in the
    hash. *)
Theorem calculateChecksum_collides (before after : string) :
  ZipProcessor.calculateChecksum (before ++ "Aa" ++ after)
  = ZipProcessor.calculateChecksum (before ++ "BB" ++ after).
Proof.
  rewrite !ChecksumFacts.calculateChecksum_polynomial. do 3 f_equal.
  unfold Checksum.polynomialHash.
  rewrite !ChecksumFacts.polynomialFrom_app. f_equal.
  cbn [Checksum.polynomialFrom]. change (Z.of_N (N_of_ascii "A")) with 65.
  change (Z.of_N (N_of_ascii "a")) with 97. change (Z.of_N (N_of_ascii "B")) with 66. lia.
Qed.

(* ===================================================================== *)
(** * Proofs: the paths of extracted files *)
(* ===================================================================== *)

Module PathFacts.
Import JsString JsObject ZipProcessor.

Lemma lastIndexOf_present c s : includesChar c s = true -> 0 <= lastIndexOf c s.
Proof.
  induction s as [|d t IH]; [discriminate|]. cbn [includesChar lastIndexOf].
  destruct (Z.leb_spec 0 (lastIndexOf c t)) as [Hr|Hr]; [lia|].
  destruct (Ascii.eqb d c); [lia|]. simpl. intros Ht. apply IH in Ht. lia.
Qed.

Lemma lastIndexOf_bound c s : -1 <= lastIndexOf c s < len s.
Proof.
  unfold len. induction s as [|d t IH]; [simpl; lia|].
  cbn [lastIndexOf String.length].
  destruct (Z.leb_spec 0 (lastIndexOf c t)); [lia|].
  destruct (Ascii.eqb d c); lia.
Qed.

Lemma split_single c s p : split c s = [p] -> includesChar c s = false /\ p = s.
Proof.
  revert p. induction s as [|d t IH]; intros p; [now intros [= <-]|].
  cbn [split includesChar]. destruct (Ascii.eqb d c).
  - destruct t; simpl; [discriminate|].
    destruct (Ascii.eqb _ c); [discriminate|]. destruct (split c t); discriminate.
  - destruct (split c t) as [|q qs] eqn:Hs; [now destruct (StructureFacts.split_nonempty c t)|].
    intros [= <- ->]. destruct (IH q eq_refl) as [-> ->]. now split.
Qed.

Lemma split_absent c s : includesChar c s = false -> split c s = [s].
Proof.
  induction s as [|d t IH]; [reflexivity|]. cbn [split includesChar].
  intros H. apply orb_false_iff in H as [-> Ht]. now rewrite (IH Ht).
Qed.

Lemma last_cons {A : Type} (x : A) l d : l <> [] -> List.last (x :: l) d = List.last l d.
Proof. destruct l; [congruence | reflexivity]. Qed.

Lemma substring_cons d t n :
  String.substring 0 (S n) (String d t) = String d (String.substring 0 n t).
Proof. reflexivity. Qed.

(** A string with its last separator: what is before it, and the last piece
    of [split], which holds no separator. *)
Lemma split_last c s :
  includesChar c (lastSegment (split c s)) = false
  /\ (includesChar c s = true ->
      s = (String.substring 0 (Z.to_nat (lastIndexOf c s)) s
           ++ String c (lastSegment (split c s)))%string).
Proof.
  unfold lastSegment. induction s as [|d t [IHn IHs]]; [split; [reflexivity | discriminate]|].
  cbn [split includesChar lastIndexOf].
  destruct (Ascii.eqb_spec d c) as [->|Hd].
  - rewrite last_cons by apply StructureFacts.split_nonempty.
    split; [exact IHn|]. intros _.
    destruct (includesChar c t) eqn:Ht.
    + pose proof (lastIndexOf_present _ _ Ht) as Hr.
      destruct (Z.leb_spec 0 (lastIndexOf c t)); [|lia].
      replace (Z.to_nat (lastIndexOf c t + 1)) with (S (Z.to_nat (lastIndexOf c t))) by lia.
      rewrite substring_cons, ChecksumFacts.append_cons. f_equal. now apply IHs.
    + rewrite (ExtensionFacts.lastIndexOf_absent _ _ Ht). simpl.
      now rewrite (split_absent _ _ Ht).
  - destruct (split c t) as [|p ps] eqn:Hs; [now destruct (StructureFacts.split_nonempty c t)|].
    simpl orb. destruct (includesChar c t) eqn:Ht.
    + assert (ps <> []) as Hps.
      { intros ->. apply split_single in Hs as [Hs _]. congruence. }
      rewrite last_cons by exact Hps. rewrite (last_cons p) in IHn, IHs by exact Hps.
      split; [exact IHn|]. intros _.
      pose proof (lastIndexOf_present _ _ Ht) as Hr.
      destruct (Z.leb_spec 0 (lastIndexOf c t)); [|lia].
      replace (Z.to_nat (lastIndexOf c t + 1)) with (S (Z.to_nat (lastIndexOf c t))) by lia.
      rewrite substring_cons, ChecksumFacts.append_cons. f_equal. now apply IHs.
    + rewrite (split_absent _ _ Ht) in Hs. injection Hs as <- <-.
      split; [|discriminate]. simpl. apply Ascii.eqb_neq in Hd. now rewrite Hd, Ht.
Qed.

End PathFacts.

(** X4: the path of an extracted file is its directory, a slash and its name;
    the name holds no slash; a path without a slash is the name, and the
    directory is then empty. *)
Theorem extracted_path_is_directory_and_name
    (now : Z) (entries : list (string * ZipProcessor.ZipEntry))
    (file : ZipProcessor.ExtractedFile)
    (Hfile : In file (ZipProcessor.extractAllFiles now entries)) :
  JsString.includesChar "/"%char (ZipProcessor.file_name file) = false
  /\ ZipProcessor.file_path file
     = (if JsString.includesChar "/"%char (ZipProcessor.file_path file)
        then ZipProcessor.file_directory file ++ "/" ++ ZipProcessor.file_name file
        else ZipProcessor.file_name file)
  /\ (JsString.includesChar "/"%char (ZipProcessor.file_path file) = false ->
      ZipProcessor.file_directory file = "").
Proof.
  destruct (ExtensionFacts.extracted_is_fileInfo _ _ _ Hfile) as (p & e & c & ->).
  cbn [ZipProcessor.file_name ZipProcessor.file_path ZipProcessor.file_directory
       ZipProcessor.fileInfoOf].
  destruct (PathFacts.split_last "/"%char p) as [Hname Hpath].
  split; [exact Hname|].
  destruct (JsString.includesChar "/"%char p) eqn:Hp.
  - split; [now apply Hpath | discriminate].
  - split; [|reflexivity]. now rewrite (PathFacts.split_absent _ _ Hp).
Qed.

Lemma extracted_path_is_directory_and_name_witness :
  let entry := ZipProcessor.mkEntry false (Some "") (Some (Some 1, Some 1)) None in
  let file := ZipProcessor.fileInfoOf 0 "src/lib/a.js" entry "" in
  ZipProcessor.file_directory file = "src/lib"
  /\ ZipProcessor.file_name file = "a.js"
  /\ ZipProcessor.file_path file
     = ZipProcessor.file_directory file ++ "/" ++ ZipProcessor.file_name file.
Proof.
  intros entry file.
  destruct (extracted_path_is_directory_and_name 0
              [("src/", ZipProcessor.mkEntry true None None None); ("src/lib/a.js", entry)]
              file) as (_ & Hpath & _).
  - left. reflexivity.
  - split; [reflexivity|]. split; [reflexivity|]. exact Hpath.
Defined.

(* ===================================================================== *)
(** * Proofs: the statistics *)
(* ===================================================================== *)

Module StatisticsFacts.
Import JsString JsNumber JsObject ZipProcessor Tallies.

Lemma fold_statsStep_snoc files f stats :
  fold_left statsStep (files ++ [f]) stats = statsStep (fold_left statsStep files stats) f.
Proof. now rewrite fold_left_app. Qed.

Lemma fold_statsStep_totals n files :
  let stats := fold_left statsStep files (initialStats n) in
  totalFiles stats = n
  /\ totalSize stats = total (map file_size files)
  /\ totalCompressedSize stats
     = fold_right Z.add 0 (map (fun f => orZero (file_compressedSize f)) files).
Proof.
  induction files as [|f files IH] using rev_ind; [repeat split|].
  cbv zeta in *. rewrite fold_statsStep_snoc, !map_app. cbn [map].
  rewrite NumberFacts.total_snoc, NumberFacts.sum_snoc.
  destruct IH as (Hn & Hs & Hc). cbn [statsStep totalFiles totalSize totalCompressedSize].
  rewrite Hn, Hs, Hc. repeat split.
Qed.

(** The first file of a list that grows at its end. *)
Lemma first_snoc {A : Type} (first : A) rest x :
  ((first :: rest) ++ [x])%list = first :: (rest ++ [x])%list.
Proof. reflexivity. Qed.

Lemma fold_statsStep_extremes n files :
  let stats := fold_left statsStep files (initialStats n) in
  isLargest files (largestFile stats) /\ isSmallest files (smallestFile stats).
Proof.
  induction files as [|f files IH] using rev_ind; [split; reflexivity|].
  cbv zeta in *. rewrite fold_statsStep_snoc.
  destruct IH as [Hl Hs]. cbn [statsStep largestFile smallestFile].
  set (stats := fold_left statsStep files (initialStats n)) in *.
  destruct files as [|first rest].
  - (* the first file is taken as it is *)
    cbn [isLargest isSmallest] in Hl, Hs. rewrite Hl, Hs.
    cbn [app isLargest isSmallest].
    destruct (file_size f) as [size|] eqn:Hsize; [|split; reflexivity].
    split; exists f, size; (split; [now left|]); (split; [exact Hsize|]);
      (split; [reflexivity|]); intros g x [<-|[]] Hx; rewrite Hsize in Hx;
      injection Hx as <-; lia.
  - rewrite first_snoc. cbn [isLargest isSmallest] in *.
    destruct (file_size first) as [size0|].
    + destruct Hl as (fl & most & Hfl & Hsl & -> & Hmax).
      destruct Hs as (fs & least & Hfs & Hss & -> & Hmin).
      rewrite <- first_snoc. split.
      * destruct (file_size f) as [x|] eqn:Hx; cbn [greater].
        -- destruct (Z.ltb_spec most x) as [Hlt|Hge].
           ++ exists f, x. split; [apply in_or_app; right; now left|].
              split; [exact Hx|]. split; [reflexivity|].
              intros g y Hg Hy. apply in_app_or in Hg as [Hg|[<-|[]]].
              ** specialize (Hmax g y Hg Hy). lia.
              ** rewrite Hx in Hy. injection Hy as <-. lia.
           ++ exists fl, most. split; [apply in_or_app; now left|].
              split; [exact Hsl|]. split; [reflexivity|].
              intros g y Hg Hy. apply in_app_or in Hg as [Hg|[<-|[]]].
              ** exact (Hmax g y Hg Hy).
              ** rewrite Hx in Hy. injection Hy as <-. lia.
        -- exists fl, most. split; [apply in_or_app; now left|].
           split; [exact Hsl|]. split; [reflexivity|].
           intros g y Hg Hy. apply in_app_or in Hg as [Hg|[<-|[]]].
           ++ exact (Hmax g y Hg Hy).
           ++ rewrite Hx in Hy. discriminate Hy.
      * destruct (file_size f) as [x|] eqn:Hx; cbn [less].
        -- destruct (Z.ltb_spec x least) as [Hlt|Hge].
           ++ exists f, x. split; [apply in_or_app; right; now left|].
              split; [exact Hx|]. split; [reflexivity|].
              intros g y Hg Hy. apply in_app_or in Hg as [Hg|[<-|[]]].
              ** specialize (Hmin g y Hg Hy). lia.
              ** rewrite Hx in Hy. injection Hy as <-. lia.
           ++ exists fs, least. split; [apply in_or_app; now left|].
              split; [exact Hss|]. split; [reflexivity|].
              intros g y Hg Hy. apply in_app_or in Hg as [Hg|[<-|[]]].
              ** exact (Hmin g y Hg Hy).
              ** rewrite Hx in Hy. injection Hy as <-. lia.
        -- exists fs, least. split; [apply in_or_app; now left|].
           split; [exact Hss|]. split; [reflexivity|].
           intros g y Hg Hy. apply in_app_or in Hg as [Hg|[<-|[]]].
           ++ exact (Hmin g y Hg Hy).
           ++ rewrite Hx in Hy. discriminate Hy.
    + (* a first file without a size is never replaced *)
      rewrite Hl, Hs. destruct (file_size f); split; reflexivity.
Qed.

Lemma inStrings_In k l : inStrings k l = true <-> In k l.
Proof.
  unfold inStrings. rewrite existsb_exists. split.
  - intros (x & Hx & He). apply String.eqb_eq in He. now subst.
  - intros H. exists k. split; [exact H | apply String.eqb_refl].
Qed.

Lemma NoDup_snoc {A : Type} (l : list A) x :
  List.NoDup l -> ~ In x l -> List.NoDup (l ++ [x]).
Proof.
  induction 1 as [|y l Hy Hl IH]; intros Hx; simpl.
  - constructor; [intros [] | constructor].
  - constructor.
    + rewrite in_app_iff. intros [H|[H|[]]]; [now apply Hy | subst; apply Hx; now left].
    + apply IH. intros H. apply Hx. now right.
Qed.

Lemma fold_statsStep_directories n files :
  let stats := fold_left statsStep files (initialStats n) in
  List.NoDup (directories stats)
  /\ forall d, In d (directories stats)
               <-> d <> "" /\ exists f, In f files /\ file_directory f = d.
Proof.
  induction files as [|f files IH] using rev_ind.
  - split; [constructor|]. intros d. split; [intros [] | intros (_ & g & [] & _)].
  - cbv zeta in *. rewrite fold_statsStep_snoc.
    destruct IH as [Hnd Hin]. cbn [statsStep directories].
    set (stats := fold_left statsStep files (initialStats n)) in *.
    assert (forall d, (d <> "" /\ exists g, In g (files ++ [f]) /\ file_directory g = d)
                      <-> In d (directories stats) \/ (d <> "" /\ file_directory f = d))
      as Hsplit.
    { intros d. rewrite Hin. split.
      - intros (Hd & g & Hg & Hgd). apply in_app_or in Hg as [Hg|[<-|[]]]; [left|right]; eauto.
      - intros [(Hd & g & Hg & Hgd)|(Hd & Hfd)]; (split; [exact Hd|]).
        + exists g. split; [apply in_or_app; now left | exact Hgd].
        + exists f. split; [apply in_or_app; right; now left | exact Hfd]. }
    destruct (String.eqb_spec (file_directory f) "") as [He|He].
    + split; [exact Hnd|]. intros d. rewrite Hsplit. split; [now left|].
      intros [H|(Hd & Hfd)]; [exact H | congruence].
    + unfold addDirectory.
      destruct (inStrings (file_directory f) (directories stats)) eqn:Hmem.
      * apply inStrings_In in Hmem. split; [exact Hnd|]. intros d. rewrite Hsplit.
        split; [now left|]. intros [H|(Hd & <-)]; [exact H | exact Hmem].
      * assert (~ In (file_directory f) (directories stats)) as Hnot.
        { intros H. apply inStrings_In in H. congruence. }
        split.
        -- now apply NoDup_snoc.
        -- intros d. rewrite Hsplit, in_app_iff. simpl. split.
           ++ intros [H|[<-|[]]]; [now left | right; now split].
           ++ intros [H|(Hd & <-)]; [now left | right; now left].
Qed.

Lemma roundDiv_between a n lo hi :
  0 < n -> n * lo <= a <= n * hi -> lo <= roundDiv a n <= hi.
Proof.
  intros Hn Ha. unfold roundDiv. split.
  - apply Z.div_le_lower_bound; nia.
  - assert ((2 * a + n) / (2 * n) < hi + 1); [|lia].
    apply Z.div_lt_upper_bound; nia.
Qed.

Lemma sum_between (l : list Z) lo hi :
  (forall x, In x l -> lo <= x <= hi) ->
  Z.of_nat (List.length l) * lo <= fold_right Z.add 0 l <= Z.of_nat (List.length l) * hi.
Proof.
  induction l as [|x l IH]; intros H; [simpl; lia|].
  cbn [fold_right List.length]. rewrite Nat2Z.inj_succ.
  pose proof (H x (or_introl eq_refl)). specialize (IH (fun y Hy => H y (or_intror Hy))). nia.
Qed.

End StatisticsFacts.

(** X5: the totals of the statistics are those of the list: [totalFiles]
    is the number of files; [totalSize] is the sum of their sizes when every
    file has one, and [NaN] as soon as one has none (an entry without
    content); [totalCompressedSize], which is added up under [|| 0], is the
    sum of the compressed sizes that there are. *)
Theorem generateStatistics_totals (files : list ZipProcessor.ExtractedFile) :
  let stats := ZipProcessor.generateStatistics files in
  ZipProcessor.totalFiles stats = Z.of_nat (List.length files)
  /\ ZipProcessor.totalSize stats
     = (if forallb Tallies.hasSize files
        then JsNumber.Int
               (fold_right Z.add 0
                  (map (fun f => JsNumber.orZero (ZipProcessor.file_size f)) files))
        else JsNumber.NaN)
  /\ ZipProcessor.totalCompressedSize stats
     = fold_right Z.add 0
         (map (fun f => JsNumber.orZero (ZipProcessor.file_compressedSize f)) files).
Proof.
  destruct (StatisticsFacts.fold_statsStep_totals (Z.of_nat (List.length files)) files)
    as (Hn & Hs & Hc).
  split; [exact Hn|]. split; [|exact Hc].
  cbn [ZipProcessor.generateStatistics ZipProcessor.totalSize].
  fold (Tallies.initialStats (Z.of_nat (List.length files))). rewrite Hs.
  unfold JsNumber.total. rewrite NumberFacts.forallb_map, map_map. reflexivity.
Qed.

(** X6: [largestFile] and [smallestFile] are absent exactly for the empty
    list. The first file is taken as it is, and a later file replaces the
    entry kept only when both sizes are numbers: so when the first file has
    no size, it stays the largest and the smallest file whatever follows;
    otherwise each entry gives the name and the size of a file of the list,
    and no file that has a size is larger than the one, or smaller than the
    other. *)
Theorem generateStatistics_extremes (files : list ZipProcessor.ExtractedFile) :
  let stats := ZipProcessor.generateStatistics files in
  match files with
  | [] => ZipProcessor.largestFile stats = None /\ ZipProcessor.smallestFile stats = None
  | first :: _ =>
      match ZipProcessor.file_size first with
      | None =>
          ZipProcessor.largestFile stats = Some (ZipProcessor.file_name first, None)
          /\ ZipProcessor.smallestFile stats = Some (ZipProcessor.file_name first, None)
      | Some _ =>
          (exists f most,
              In f files /\ ZipProcessor.file_size f = Some most
              /\ ZipProcessor.largestFile stats = Some (ZipProcessor.file_name f, Some most)
              /\ forall g size, In g files -> ZipProcessor.file_size g = Some size ->
                                size <= most)
          /\ (exists f least,
                 In f files /\ ZipProcessor.file_size f = Some least
                 /\ ZipProcessor.smallestFile stats
                    = Some (ZipProcessor.file_name f, Some least)
                 /\ forall g size, In g files -> ZipProcessor.file_size g = Some size ->
                                   least <= size)
      end
  end.
Proof.
  destruct (StatisticsFacts.fold_statsStep_extremes (Z.of_nat (List.length files)) files)
    as [Hl Hs].
  cbv zeta. cbn [ZipProcessor.generateStatistics ZipProcessor.largestFile
                 ZipProcessor.smallestFile].
  fold (Tallies.initialStats (Z.of_nat (List.length files))).
  destruct files as [|first rest]; [now split|].
  cbn [Tallies.isLargest Tallies.isSmallest] in Hl, Hs.
  destruct (ZipProcessor.file_size first); now split.
Qed.

Lemma generateStatistics_extremes_witness :
  let file p data := ZipProcessor.fileInfoOf 0 p
                       (ZipProcessor.mkEntry false (Some "") (Some data) None) "" in
  let stats files := ZipProcessor.generateStatistics files in
  ZipProcessor.largestFile
    (stats [file "__init__.py" (None, None); file "main.py" (Some 900, Some 300)])
  = Some ("__init__.py", None)
  /\ exists f most,
       ZipProcessor.file_size f = Some most
       /\ ZipProcessor.largestFile
            (stats [file "main.py" (Some 900, Some 300); file "__init__.py" (None, None);
                    file "data.bin" (Some 4000, Some 4000)])
          = Some (ZipProcessor.file_name f, Some most)
       /\ 4000 <= most.
Proof.
  intros file stats. split.
  - exact (proj1 (generateStatistics_extremes
                    [file "__init__.py" (None, None); file "main.py" (Some 900, Some 300)])).
  - destruct (generateStatistics_extremes
                [file "main.py" (Some 900, Some 300); file "__init__.py" (None, None);
                 file "data.bin" (Some 4000, Some 4000)])
      as [(f & most & Hf & Hsize & Hkept & Hmax) _].
    exists f, most. split; [exact Hsize|]. split; [exact Hkept|].
    exact (Hmax (file "data.bin" (Some 4000, Some 4000)) 4000
             (or_intror (or_intror (or_introl eq_refl))) eq_refl).
Defined.

(** X7: for the empty list the average file size is 0. For a list in which
    every file has a size, it is a number between the size of the smallest
    and the size of the largest file. For a list with a file without a size
    it is [NaN]. *)
Theorem generateStatistics_average_between (files : list ZipProcessor.ExtractedFile) :
  let stats := ZipProcessor.generateStatistics files in
  match files with
  | [] => ZipProcessor.averageFileSize stats = JsNumber.Int 0
  | _ :: _ =>
      if forallb Tallies.hasSize files
      then exists name1 name2 least most average,
             ZipProcessor.smallestFile stats = Some (name1, Some least)
             /\ ZipProcessor.largestFile stats = Some (name2, Some most)
             /\ ZipProcessor.averageFileSize stats = JsNumber.Int average
             /\ least <= average <= most
      else ZipProcessor.averageFileSize stats = JsNumber.NaN
  end.
Proof.
  pose proof (StatisticsFacts.fold_statsStep_extremes (Z.of_nat (List.length files)) files)
    as [Hl Hs].
  pose proof (StatisticsFacts.fold_statsStep_totals (Z.of_nat (List.length files)) files)
    as (Hn & Ht & _).
  cbv zeta in *.
  cbn [ZipProcessor.generateStatistics ZipProcessor.smallestFile ZipProcessor.largestFile
       ZipProcessor.averageFileSize].
  fold (Tallies.initialStats (Z.of_nat (List.length files))).
  rewrite Hn, Ht.
  destruct files as [|first rest] eqn:Hfiles; [reflexivity|]. rewrite <- Hfiles in *.
  assert (0 < Z.of_nat (List.length files)) as Hpos by (rewrite Hfiles; simpl; lia).
  destruct (Z.ltb_spec 0 (Z.of_nat (List.length files))); [|lia].
  assert (forallb JsNumber.isNumber (map ZipProcessor.file_size files)
          = forallb Tallies.hasSize files) as Hall
    by exact (NumberFacts.forallb_map ZipProcessor.file_size JsNumber.isNumber files).
  destruct (forallb Tallies.hasSize files) eqn:Hsizes.
  - rewrite (NumberFacts.total_numbers _ Hall).
    rewrite forallb_forall in Hsizes.
    rewrite Hfiles in Hl, Hs. cbn [Tallies.isLargest Tallies.isSmallest] in Hl, Hs.
    assert (Tallies.hasSize first = true) as Hfirst by (apply Hsizes; rewrite Hfiles; now left).
    unfold Tallies.hasSize in Hfirst.
    destruct (ZipProcessor.file_size first); [|discriminate Hfirst].
    rewrite <- Hfiles in Hl, Hs.
    destruct Hl as (fl & most & _ & _ & -> & Hmax).
    destruct Hs as (fs & least & _ & _ & -> & Hmin).
    exists (ZipProcessor.file_name fs), (ZipProcessor.file_name fl), least, most.
    eexists. split; [reflexivity|]. split; [reflexivity|]. split; [reflexivity|].
    apply StatisticsFacts.roundDiv_between; [exact Hpos|].
    rewrite <- (length_map ZipProcessor.file_size files).
    rewrite <- (length_map JsNumber.orZero (map ZipProcessor.file_size files)).
    apply StatisticsFacts.sum_between. intros x Hx.
    apply in_map_iff in Hx as (size & <- & Hx). apply in_map_iff in Hx as (g & <- & Hg).
    specialize (Hsizes g Hg). unfold Tallies.hasSize in Hsizes.
    destruct (ZipProcessor.file_size g) as [y|] eqn:Hy; [|discriminate Hsizes].
    cbn [JsNumber.orZero]. split; [exact (Hmin g y Hg Hy) | exact (Hmax g y Hg Hy)].
  - now rewrite (NumberFacts.total_undefined _ Hall).
Qed.

Lemma generateStatistics_average_between_witness :
  let file p data := ZipProcessor.fileInfoOf 0 p
                       (ZipProcessor.mkEntry false (Some "") (Some data) None) "" in
  (exists average,
      ZipProcessor.averageFileSize
        (ZipProcessor.generateStatistics
           [file "a.txt" (Some 10, Some 4); file "b.txt" (Some 21, Some 9)])
      = JsNumber.Int average
      /\ 10 <= average <= 21)
  /\ ZipProcessor.averageFileSize
       (ZipProcessor.generateStatistics
          [file "a.txt" (Some 10, Some 4); file "__init__.py" (None, None)])
     = JsNumber.NaN.
Proof.
  intros file. split.
  - destruct (generateStatistics_average_between
                [file "a.txt" (Some 10, Some 4); file "b.txt" (Some 21, Some 9)])
      as (name1 & name2 & least & most & average & Hs & Hl & Ha & Hbetween).
    exists average. split; [exact Ha|].
    injection Hs as _ <-. injection Hl as _ <-. exact Hbetween.
  - exact (generateStatistics_average_between
             [file "a.txt" (Some 10, Some 4); file "__init__.py" (None, None)]).
Defined.

(** [compressionRatio] is rounded from the double that the code computes:
    for 17 bytes out of 40 that is [57.49999999999999], and the ratio is 57,
    not the 58 that [57.5] would give. *)
Lemma generateStatistics_rounds_the_ratio_of_doubles :
  let file := ZipProcessor.fileInfoOf 0 "a.bin"
                (ZipProcessor.mkEntry false (Some "") (Some (Some 40, Some 17)) None) "" in
  ZipProcessor.compressionRatio (ZipProcessor.generateStatistics [file]) = JsNumber.Int 57
  /\ JsNumber.roundedRatio 1 2 = JsNumber.Int 50
  /\ JsNumber.roundedRatio 3 1 = JsNumber.Int (-200).
Proof. vm_compute. repeat split; reflexivity. Qed.

(** X8: [directories] lists, without repetition, the directories of the files
    that are not at the root. *)
Theorem generateStatistics_directories (files : list ZipProcessor.ExtractedFile) :
  let stats := ZipProcessor.generateStatistics files in
  List.NoDup (ZipProcessor.directories stats)
  /\ forall d, In d (ZipProcessor.directories stats)
               <-> d <> "" /\ exists f, In f files /\ ZipProcessor.file_directory f = d.
Proof.
  exact (StatisticsFacts.fold_statsStep_directories (Z.of_nat (List.length files)) files).
Qed.

(* ===================================================================== *)
(** * Proofs: extensions, and the names that validateFile accepts *)
(* ===================================================================== *)

Module SuffixFacts.
Import JsString JsObject FolderName ZipProcessor.

Lemma lowerChar_dot c : Ascii.eqb (lowerChar c) "."%char = Ascii.eqb c "."%char.
Proof. destruct c as [[] [] [] [] [] [] [] []]; reflexivity. Qed.

Lemma lowerChar_idem c : lowerChar (lowerChar c) = lowerChar c.
Proof. destruct c as [[] [] [] [] [] [] [] []]; reflexivity. Qed.

Lemma toLowerCase_idem s : toLowerCase (toLowerCase s) = toLowerCase s.
Proof. induction s as [|c t IH]; simpl; [reflexivity|]. now rewrite lowerChar_idem, IH. Qed.

Lemma lastIndexOf_lower s : lastIndexOf "."%char (toLowerCase s) = lastIndexOf "."%char s.
Proof.
  induction s as [|c t IH]; [reflexivity|]. cbn [toLowerCase lastIndexOf].
  now rewrite IH, lowerChar_dot.
Qed.

Lemma dropChars_lower n : forall s, dropChars n (toLowerCase s) = toLowerCase (dropChars n s).
Proof. induction n as [|n IH]; intros [|c t]; try reflexivity. apply IH. Qed.

Lemma substringFrom_lower start s :
  substringFrom start (toLowerCase s) = toLowerCase (substringFrom start s).
Proof. apply dropChars_lower. Qed.

Lemma toLowerCase_length s : String.length (toLowerCase s) = String.length s.
Proof. induction s as [|c t IH]; simpl; [reflexivity | now rewrite IH]. Qed.

Lemma includesChar_app c a b : includesChar c (a ++ b) = includesChar c a || includesChar c b.
Proof.
  induction a as [|d a IH]; [reflexivity|]. rewrite ChecksumFacts.append_cons.
  cbn [includesChar]. now rewrite IH, orb_assoc.
Qed.

(** The last dot of [stem.extension], when [extension] has none. *)
Lemma lastIndexOf_stem stem extension :
  includesChar "."%char extension = false ->
  lastIndexOf "."%char (stem ++ String "."%char extension) = len stem.
Proof.
  intros Hext. unfold len. induction stem as [|d stem IH].
  - change ("" ++ String "."%char extension)%string with (String "."%char extension).
    cbn [lastIndexOf]. now rewrite (ExtensionFacts.lastIndexOf_absent _ _ Hext).
  - rewrite ChecksumFacts.append_cons. cbn [lastIndexOf String.length]. rewrite IH.
    destruct (Z.leb_spec 0 (Z.of_nat (String.length stem))); lia.
Qed.

Lemma dropChars_app stem rest : dropChars (String.length stem) (stem ++ rest) = rest.
Proof. induction stem as [|d stem IH]; [reflexivity | exact IH]. Qed.

Lemma extensionOf_stem stem extension :
  includesChar "."%char extension = false ->
  extensionOf (stem ++ String "."%char extension) = toLowerCase extension.
Proof.
  intros Hext. unfold extensionOf, substringFrom, len.
  rewrite (lastIndexOf_stem _ _ Hext). unfold len.
  replace (Z.to_nat (Z.of_nat (String.length stem) + 1)) with (S (String.length stem)) by lia.
  change (String "."%char extension) with ("." ++ extension)%string.
  rewrite <- ChecksumFacts.append_assoc.
  replace (S (String.length stem)) with (String.length (stem ++ ".")%string)
    by (rewrite ChecksumFacts.length_append; simpl; lia).
  now rewrite dropChars_app.
Qed.

(** A string, cut at a position inside it. *)
Lemma cut_at n : forall s,
  (n <= String.length s)%nat ->
  exists stem, s = (stem ++ dropChars n s)%string /\ String.length stem = n.
Proof.
  induction n as [|n IH]; intros s Hn; [now exists ""|].
  destruct s as [|c t]; [simpl in Hn; lia|].
  destruct (IH t) as (stem & Ht & Hlen); [simpl in Hn; lia|].
  exists (String c stem). cbn [dropChars String.length]. rewrite ChecksumFacts.append_cons.
  split; [now rewrite <- Ht | now rewrite Hlen].
Qed.

Lemma isDotZip_lower ext : toLowerCase ext = ".zip" -> isDotZip ext = true.
Proof.
  destruct ext as [|c0 [|c1 [|c2 [|c3 [|c4 t]]]]]; try discriminate.
  cbn [toLowerCase isDotZip]. intros [= H0 H1 H2 H3].
  rewrite H1, H2, H3. cbn.
  rewrite <- lowerChar_dot, H0. reflexivity.
Qed.

Lemma isDotZip_length s : isDotZip s = true -> String.length s = 4%nat.
Proof. destruct s as [|c0 [|c1 [|c2 [|c3 [|c4 t]]]]]; try discriminate. reflexivity. Qed.

(** [.replace(/\.zip$/i, '')] on a name that ends in [.zip]. *)
Lemma stripZipSuffix_stem stem ext :
  isDotZip ext = true -> stripZipSuffix (stem ++ ext) = stem.
Proof.
  intros Hext. pose proof (isDotZip_length _ Hext) as Hlen.
  induction stem as [|c stem IH].
  - destruct ext as [|c t]; [discriminate|].
    change ("" ++ String c t)%string with (String c t).
    cbn [stripZipSuffix]. now rewrite Hext.
  - rewrite ChecksumFacts.append_cons. cbn [stripZipSuffix].
    destruct (isDotZip (String c (stem ++ ext))) eqn:Hz.
    + apply isDotZip_length in Hz. cbn [String.length] in Hz.
      rewrite ChecksumFacts.length_append in Hz. lia.
    + now rewrite IH.
Qed.

End SuffixFacts.

(** X9: the MIME type is looked up under the text after the last dot of the
    path, whatever the case of the letters: it is the same for the path in
    lower case, and the same for every stem in front of the last dot. *)
Theorem detectMimeType_reads_the_last_extension (path stem extension : string) :
  ZipProcessor.detectMimeType (JsString.toLowerCase path) = ZipProcessor.detectMimeType path
  /\ (JsString.includesChar "."%char extension = false ->
      ZipProcessor.detectMimeType (stem ++ "." ++ extension)
      = ZipProcessor.detectMimeType extension).
Proof.
  split.
  - unfold ZipProcessor.detectMimeType, ZipProcessor.extensionOf.
    now rewrite SuffixFacts.lastIndexOf_lower, SuffixFacts.substringFrom_lower,
      SuffixFacts.toLowerCase_idem.
  - intros Hext. unfold ZipProcessor.detectMimeType.
    change ("." ++ extension)%string with (String "."%char extension).
    now rewrite (SuffixFacts.extensionOf_stem _ _ Hext),
      (ExtensionFacts.extensionOf_dotless _ Hext).
Qed.

Lemma detectMimeType_reads_the_last_extension_witness :
  ZipProcessor.detectMimeType "docs/Manual.v2.PDF"
  = ZipProcessor.MimeString "application/pdf".
Proof.
  destruct (detectMimeType_reads_the_last_extension "" "docs/Manual.v2" "PDF") as [_ H].
  change "docs/Manual.v2.PDF" with ("docs/Manual.v2" ++ "." ++ "PDF")%string.
  rewrite H; reflexivity.
Defined.

(** X10: what [validateFile] accepts of the names of ASCII characters: the
    size is within the limit and the text from the last dot on, in lower
    case, is an allowed extension. With the extensions of the default
    configuration, an accepted name ends in [.zip] in some case of the
    letters, and [generateFolderName] removes exactly that ending before it
    sanitises the rest. *)
Theorem validateFile_accepts_what_generateFolderName_strips
    (this : ZipProcessorApi.Processor) (name : string) (size : Z)
    (Hascii : FolderName.allChars JsString.isAscii name = true)
    (Haccepted : ZipProcessorApi.validateFile this name size = Js.Ret true) :
  size <= ZipProcessorApi.maxFileSize this
  /\ In (GitHubAgent.dottedExtension name) (ZipProcessorApi.allowedExtensions this)
  /\ (ZipProcessorApi.allowedExtensions this = [".zip"] ->
      exists stem ending,
        name = (stem ++ ending)%string
        /\ JsString.toLowerCase ending = ".zip"
        /\ FolderName.stripZipSuffix name = stem
        /\ FolderName.generateFolderName name
           = JsString.toLowerCase
               (FolderName.trimDashes
                  (FolderName.collapseDashes (FolderName.replaceDisallowed stem)))).
Proof.
  unfold ZipProcessorApi.validateFile in Haccepted.
  destruct (Z.ltb_spec (ZipProcessorApi.maxFileSize this) size) as [|Hsize];
    [discriminate|].
  rewrite SuffixFacts.substringFrom_lower in Haccepted.
  fold (GitHubAgent.dottedExtension name) in Haccepted.
  destruct (JsObject.inStrings _ _) eqn:Hin in Haccepted; [|discriminate].
  apply StatisticsFacts.inStrings_In in Hin.
  split; [exact Hsize|]. split; [exact Hin|].
  intros Hzip. rewrite Hzip in Hin. destruct Hin as [Hin|[]].
  unfold GitHubAgent.dottedExtension, JsString.substringFrom in Hin.
  destruct (SuffixFacts.cut_at (Z.to_nat (JsString.lastIndexOf "."%char name)) name)
    as (stem & Hname & _).
  { pose proof (PathFacts.lastIndexOf_bound "."%char name). unfold JsString.len in *. lia. }
  set (ending := JsString.dropChars (Z.to_nat (JsString.lastIndexOf "."%char name)) name) in *.
  exists stem, ending. split; [exact Hname|]. split; [now symmetry|].
  assert (FolderName.stripZipSuffix name = stem) as Hstrip.
  { rewrite Hname. apply SuffixFacts.stripZipSuffix_stem, SuffixFacts.isDotZip_lower.
    now symmetry. }
  split; [exact Hstrip|]. unfold FolderName.generateFolderName. now rewrite Hstrip.
Qed.

Lemma validateFile_accepts_what_generateFolderName_strips_witness :
  exists stem ending,
    "My Project.v2.ZIP" = (stem ++ ending)%string
    /\ JsString.toLowerCase ending = ".zip"
    /\ FolderName.stripZipSuffix "My Project.v2.ZIP" = stem
    /\ FolderName.generateFolderName "My Project.v2.ZIP"
       = JsString.toLowerCase
           (FolderName.trimDashes
              (FolderName.collapseDashes (FolderName.replaceDisallowed stem))).
Proof.
  exact (proj2 (proj2 (validateFile_accepts_what_generateFolderName_strips
                         (ZipProcessorApi.newProcessor
                            (ZipProcessorApi.mkProcessorOptions None None ""))
                         "My Project.v2.ZIP" 2048 eq_refl eq_refl)) eq_refl).
Defined.

(* ===================================================================== *)
(** * Proofs: paths that collide in buildFileStructure *)
(* ===================================================================== *)


(** X11: when the path of a file is a directory on the path of a file that comes
    later in the list, [buildFileStructure] throws: it returns no structure,
    whatever the other files are. *)
Theorem buildFileStructure_throws_on_file_used_as_directory
    (before between after : list ZipProcessor.ExtractedFile)
    (a b : ZipProcessor.ExtractedFile)
    (Hunder : ZipProcessor.liesUnder (ZipProcessor.pathParts a) (ZipProcessor.pathParts b)
              = true) :
  ZipProcessor.buildFileStructure (before ++ a :: between ++ b :: after) = None.
Proof.
  exact (ConflictFacts.file_then_directory_fails before a between b after Hunder).
Qed.

Lemma buildFileStructure_throws_on_file_used_as_directory_witness :
  let file p := ZipProcessor.fileInfoOf 0 p
                  (ZipProcessor.mkEntry false (Some "") (Some (Some 1, Some 1)) None) "" in
  ZipProcessor.buildFileStructure
    [file "README.md"; file "docs"; file "src/a.js"; file "docs/guide/intro.md";
     file "LICENSE"] = None.
Proof.
  intros file.
  exact (buildFileStructure_throws_on_file_used_as_directory
           [file "README.md"] [file "src/a.js"] [file "LICENSE"]
           (file "docs") (file "docs/guide/intro.md") eq_refl).
Defined.

(** X12: when the paths form a tree and are pairwise distinct, the structure
    holds every file at its path, as a file node with the size, the MIME type
    and the date of that file. *)
Theorem buildFileStructure_stores_every_file
    (files : list ZipProcessor.ExtractedFile)
    (Htree : Counting.treeLike files)
    (Hdistinct : List.NoDup (map ZipProcessor.file_path files)) :
  exists own proto,
    ZipProcessor.buildFileStructure files = Some (own, proto)
    /\ forall f, In f files ->
                 ZipProcessor.nodeAt own (ZipProcessor.pathParts f)
                 = Some (ZipProcessor.FileNode (ZipProcessor.metaOf f)).
Proof.
  destruct (StructureFacts.buildFileStructure_succeeds files Htree) as (own & proto & Hbuilt).
  exists own, proto. split; [exact Hbuilt|].
  apply (ConflictFacts.fold_stored files Htree Hdistinct files [] ∅ None own proto).
  - reflexivity.
  - intros f [].
  - exact Hbuilt.
Qed.

Lemma buildFileStructure_stores_every_file_witness :
  let file p n := ZipProcessor.fileInfoOf 0 p
                    (ZipProcessor.mkEntry false (Some "") (Some (Some n, Some n)) None) "" in
  let files := [file "src/a.js" 10; file "README.md" 5; file "src/lib/b.js" 20] in
  exists own proto,
    ZipProcessor.buildFileStructure files = Some (own, proto)
    /\ ZipProcessor.nodeAt own ["src"; "lib"; "b.js"]
       = Some (ZipProcessor.FileNode
                 (ZipProcessor.mkMeta (Some 20)
                    (ZipProcessor.MimeString "application/javascript") 0)).
Proof.
  intros file files.
  assert (Counting.treeLike files) as Htree.
  { split.
    - intros f g Hf Hg. simpl in Hf, Hg.
      repeat match goal with H : _ \/ _ |- _ => destruct H as [<-|H] end;
        try reflexivity; contradiction.
    - intros f c Hf Hc. simpl in Hf.
      repeat match goal with H : _ \/ _ |- _ => destruct H as [<-|H] end;
        try contradiction;
        (vm_compute in Hc;
         repeat match goal with H : _ \/ _ |- _ => destruct H as [<-|H] end;
         try reflexivity; contradiction). }
  assert (List.NoDup (map ZipProcessor.file_path files)) as Hdistinct.
  { repeat constructor; simpl; intuition discriminate. }
  destruct (buildFileStructure_stores_every_file files Htree Hdistinct)
    as (own & proto & Hbuilt & Hstored).
  exists own, proto. split; [exact Hbuilt|].
  exact (Hstored (file "src/lib/b.js" 20) (or_intror (or_intror (or_introl eq_refl)))).
Defined.

(** X13: the file that comes last in the list is in the structure at its path,
    whatever was there before, and nothing is left below that path: a
    directory that earlier files had made there is gone with the files in it.
    (Unless the file is called [__proto__].) *)
Theorem buildFileStructure_last_file_replaces_directory
    (files : list ZipProcessor.ExtractedFile) (last : ZipProcessor.ExtractedFile)
    (own : gmap string ZipProcessor.Node) (proto : option ZipProcessor.FileMeta)
    (Hbuilt : ZipProcessor.buildFileStructure (files ++ [last]) = Some (own, proto))
    (Hname : ZipProcessor.lastSegment (ZipProcessor.pathParts last) <> "__proto__") :
  ZipProcessor.nodeAt own (ZipProcessor.pathParts last)
  = Some (ZipProcessor.FileNode (ZipProcessor.metaOf last))
  /\ forall q, ZipProcessor.liesUnder (ZipProcessor.pathParts last) q = true ->
               ZipProcessor.nodeAt own q = None.
Proof.
  unfold ZipProcessor.buildFileStructure in Hbuilt.
  rewrite fold_left_app in Hbuilt. cbn [fold_left] in Hbuilt.
  destruct (fold_left ZipProcessor.buildStep files (Some (∅, None)))
    as [[own0 proto0]|]; [|discriminate Hbuilt].
  cbn [ZipProcessor.buildStep] in Hbuilt.
  rewrite (StructureFacts.pathParts_split last). split.
  - exact (ConflictFacts.placed_here _ _ _ _ _ _ _ Hbuilt Hname).
  - intros q Hq. exact (ConflictFacts.placed_nothing_below _ _ _ _ _ _ _ Hbuilt q Hname Hq).
Qed.

Lemma buildFileStructure_last_file_replaces_directory_witness :
  let file p n := ZipProcessor.fileInfoOf 0 p
                    (ZipProcessor.mkEntry false (Some "") (Some (Some n, Some n)) None) "" in
  exists own proto,
    ZipProcessor.buildFileStructure [file "docs/guide.md" 7; file "docs" 3] = Some (own, proto)
    /\ ZipProcessor.nodeAt own ["docs"]
       = Some (ZipProcessor.FileNode (ZipProcessor.metaOf (file "docs" 3)))
    /\ ZipProcessor.nodeAt own ["docs"; "guide.md"] = None.
Proof.
  intros file.
  destruct (ZipProcessor.buildFileStructure [file "docs/guide.md" 7; file "docs" 3])
    as [[own proto]|] eqn:Hbuilt; [|discriminate Hbuilt].
  exists own, proto. split; [reflexivity|].
  destruct (buildFileStructure_last_file_replaces_directory
              [file "docs/guide.md" 7] (file "docs" 3) own proto Hbuilt) as [Hat Hbelow].
  - discriminate.
  - split; [exact Hat|]. apply Hbelow. reflexivity.
Defined.

(* ===================================================================== *)
(** * Proofs: the input guard *)
(* ===================================================================== *)

Module ProtocolFacts.
Import JsString Js ZipProcessor GitHubAgent Runs RunFacts Protocol.

Lemma allChars_impl (p q : ascii -> bool) s :
  (forall c, p c = true -> q c = true) ->
  FolderName.allChars p s = true -> FolderName.allChars q s = true.
Proof.
  intros Hpq. induction s as [|c t IH]; [reflexivity|]. simpl.
  intros H. apply andb_true_iff in H as [Hc Ht]. now rewrite (Hpq _ Hc), IH.
Qed.

Lemma generateFolderName_repoNameChars name :
  FolderName.allChars repoNameChar (FolderName.generateFolderName name) = true.
Proof.
  pose proof (FolderNameFacts.generateFolderName_sanitized name) as Hs.
  unfold Sanitized.sanitized in Hs. repeat (apply andb_true_iff in Hs as [Hs _]).
  apply (allChars_impl FolderName.identChar); [|exact Hs].
  intros c Hc. unfold repoNameChar. now rewrite (FolderNameFacts.identChar_allowed _ Hc).
Qed.

Lemma requestsOf_pauses pauses : requestsOf (map Slept pauses) = [].
Proof. induction pauses; [reflexivity | exact IHpauses]. Qed.

Section Calls.
Variable remote : Remote.
Variable this : Agent.

(** One API call: the pauses of the rate limiter, then the request. *)
Lemma makeGitHubApiCall_run method endpoint data w :
  exists pauses resp took,
    exec remote (makeGitHubApiCall this method endpoint data) w
    = (apiOutcome resp,
       fetched (apiRequest method endpoint data) resp took (rateLimited this w))
    /\ trace (fetched (apiRequest method endpoint data) resp took (rateLimited this w))
       = (trace w ++ map Slept pauses
            ++ [Fetched (clock (rateLimited this w)) (apiRequest method endpoint data) resp])%list.
Proof.
  rewrite exec_makeGitHubApiCall. cbv zeta.
  destruct (rateLimited_trace this w) as (pauses & Hp).
  eexists pauses, _, _. split; [reflexivity|].
  cbn [fetched trace]. rewrite Hp, <- app_assoc. reflexivity.
Qed.

End Calls.

End ProtocolFacts.

(** X14: a folder name made by [generateFolderName] is never refused for its
    characters: [validateInput] refuses it only when it is empty, when the
    list of files is empty, or when it is longer than 100 characters. *)
Theorem validateInput_after_generateFolderName
    (name : string) (extractedFiles : list ZipProcessor.ExtractedFile) :
  let folderName := FolderName.generateFolderName name in
  GitHubAgent.validateInput folderName extractedFiles
  = if String.eqb folderName "" then Js.Throw (Js.ErrorObj "文件夹名称不能为空" None)
    else if (List.length extractedFiles =? 0)%nat
         then Js.Throw (Js.ErrorObj "文件列表不能为空" None)
    else if 100 <? JsString.len folderName
         then Js.Throw (Js.ErrorObj "仓库名称过长（最大100字符）" None)
    else Js.Ret tt.
Proof.
  intros folderName. unfold GitHubAgent.validateInput, folderName.
  now rewrite ProtocolFacts.generateFolderName_repoNameChars.
Qed.

(** X15: when [validateInput] refuses the input, [createRepositoryAndUploadFiles]
    returns a failure result with the message of the refusal at once: no
    request is sent, no time passes. *)
Theorem invalid_input_fails_before_any_request
    (localeCompare : string -> string -> Z)
    (generateReadmeContent : string -> list ZipProcessor.ExtractedFile
                             -> GitHubAgent.Generated)
    (base64 : string -> string)
    (remote : Js.Remote) (this : GitHubAgent.Agent) (folderName : string)
    (extractedFiles : list ZipProcessor.ExtractedFile) (options : GitHubAgent.Options)
    (w : Js.World) (message : string) (status : option Z)
    (Hrefused : GitHubAgent.validateInput folderName extractedFiles
                = Js.Throw (Js.ErrorObj message status)) :
  Js.exec remote
    (GitHubAgent.createRepositoryAndUploadFiles localeCompare generateReadmeContent base64
       this folderName extractedFiles options) w
  = (Js.Returned
       (GitHubAgent.RunFailure message folderName
          (Z.of_nat (List.length extractedFiles)) 0 (Js.clock w)),
     w).
Proof.
  unfold GitHubAgent.createRepositoryAndUploadFiles.
  cbn [Js.bind Js.perform Js.exec].
  rewrite RunFacts.exec_tryCatch, RunFacts.exec_bind, Hrefused.
  cbn [Js.exec GitHubAgent.messageOf Js.bind Js.perform]. now rewrite Z.sub_diag.
Qed.

(** The archive [.zip]: its folder name is empty, and the run fails on it
    without a request. *)
Lemma invalid_input_fails_before_any_request_witness :
  let file := ZipProcessor.fileInfoOf 0 "a.txt"
                (ZipProcessor.mkEntry false (Some "") (Some (Some 1, Some 1)) None) "" in
  let remote : Js.Remote := fun _ _ => (Js.Success (Js.mkJson "" "" ""), 5) in
  let this := GitHubAgent.newAgent (GitHubAgent.mkConfig "me" None None None None) in
  Js.exec remote
    (GitHubAgent.createRepositoryAndUploadFiles
       (fun _ _ => 0) (fun _ _ => GitHubAgent.ReadmeText "") (fun s => s) this
       (FolderName.generateFolderName ".zip") [file] GitHubAgent.noOptions)
    (GitHubAgent.freshWorld 1000)
  = (Js.Returned (GitHubAgent.RunFailure "文件夹名称不能为空" "" 1 0 1000),
     GitHubAgent.freshWorld 1000).
Proof.
  intros file remote this.
  exact (invalid_input_fails_before_any_request (fun _ _ => 0) (fun _ _ => GitHubAgent.ReadmeText "") (fun s => s)
           remote this (FolderName.generateFolderName ".zip") [file] GitHubAgent.noOptions
           (GitHubAgent.freshWorld 1000) "文件夹名称不能为空" None eq_refl).
Defined.

(* ===================================================================== *)
(** * Proofs: the two requests of uploadSingleFile *)
(* ===================================================================== *)

(** X17: [uploadSingleFile] first looks the file up, unless [checkExisting] is
    [false]. A file that is found is written with its [sha]; a lookup that is
    answered by 404 is followed by a write without [sha]; after any other
    failure of the lookup nothing is written, and the failure is the outcome.
    The outcome is otherwise that of the write. *)
Theorem uploadSingleFile_looks_up_then_writes
    (remote : Js.Remote) (this : GitHubAgent.Agent) (owner repoName : string)
    (file : ZipProcessor.ExtractedFile) (options : GitHubAgent.Options) (w : Js.World) :
  let run := Js.exec remote (GitHubAgent.uploadSingleFile this owner repoName file options) w in
  let lookup := Protocol.lookupRequest owner repoName file in
  let write := Protocol.writeRequest owner repoName file options in
  exists events,
    Js.trace (snd run) = (Js.trace w ++ events)%list
    /\ if GitHubAgent.notFalse (GitHubAgent.opt_checkExisting options) then
         match Runs.responsesOf events with
         | Js.Success existing :: answers =>
             Runs.requestsOf events = [lookup; write (Js.json_sha existing)]
             /\ exists answer, answers = [answer] /\ fst run = Runs.apiOutcome answer
         | Js.Failure status statusText errorData :: answers =>
             if status =? 404
             then Runs.requestsOf events = [lookup; write ""]
                  /\ exists answer, answers = [answer] /\ fst run = Runs.apiOutcome answer
             else Runs.requestsOf events = [lookup] /\ answers = []
                  /\ fst run = Runs.apiOutcome (Js.Failure status statusText errorData)
         | Js.Rejected message :: answers =>
             Runs.requestsOf events = [lookup] /\ answers = []
             /\ fst run = Js.Threw (Js.ErrorObj message None)
         | [] => False
         end
       else Runs.requestsOf events = [write ""]
            /\ exists answer, Runs.responsesOf events = [answer]
                              /\ fst run = Runs.apiOutcome answer.
Proof.
  cbv zeta. unfold GitHubAgent.uploadSingleFile.
  rewrite RunFacts.exec_bind, RunFacts.exec_enforceRateLimit, RunFacts.exec_bind.
  destruct (RunFacts.rateLimited_trace this w) as (pauses0 & Htrace0).
  set (w0 := Runs.rateLimited this w) in *.
  destruct (GitHubAgent.notFalse (GitHubAgent.opt_checkExisting options)).
  - rewrite RunFacts.exec_tryCatch, RunFacts.exec_bind.
    destruct (ProtocolFacts.makeGitHubApiCall_run remote this "GET"
                (GitHubAgent.contentsEndpoint owner repoName (ZipProcessor.file_path file))
                Js.NoBody w0) as (pauses1 & found & took1 & -> & Htrace1).
    set (w1 := Runs.fetched _ found took1 _) in *.
    assert (forall sha,
               exists answer w2,
                 Js.exec remote
                   (GitHubAgent.makeGitHubApiCall this "PUT"
                      (GitHubAgent.contentsEndpoint owner repoName (ZipProcessor.file_path file))
                      (Js.FileData
                         (GitHubAgent.orString (GitHubAgent.opt_commitMessage options)
                            ("Add " ++ ZipProcessor.file_name file))
                         (ZipProcessor.file_content file)
                         (GitHubAgent.orString (GitHubAgent.opt_branch options) "main") sha)) w1
                 = (Runs.apiOutcome answer, w2)
                 /\ exists events,
                     Js.trace w2 = (Js.trace w ++ events)%list
                     /\ Runs.requestsOf events
                        = [Protocol.lookupRequest owner repoName file;
                           Protocol.writeRequest owner repoName file options sha]
                     /\ Runs.responsesOf events = [found; answer]) as Hwrite.
    { intros sha.
      destruct (ProtocolFacts.makeGitHubApiCall_run remote this "PUT"
                  (GitHubAgent.contentsEndpoint owner repoName (ZipProcessor.file_path file))
                  (Js.FileData
                     (GitHubAgent.orString (GitHubAgent.opt_commitMessage options)
                        ("Add " ++ ZipProcessor.file_name file))
                     (ZipProcessor.file_content file)
                     (GitHubAgent.orString (GitHubAgent.opt_branch options) "main") sha) w1)
        as (pauses2 & answer & took2 & -> & Htrace2).
      eexists answer, _. split; [reflexivity|].
      eexists. rewrite Htrace2, Htrace1, Htrace0, <- !app_assoc. split; [reflexivity|].
      rewrite !RunFacts.requestsOf_app, !RunFacts.responsesOf_app,
        !ProtocolFacts.requestsOf_pauses, !RunFacts.responsesOf_pauses.
      split; reflexivity. }
    assert (exists events,
               Js.trace w1 = (Js.trace w ++ events)%list
               /\ Runs.requestsOf events = [Protocol.lookupRequest owner repoName file]
               /\ Runs.responsesOf events = [found]) as Hlookup.
    { eexists. rewrite Htrace1, Htrace0, <- !app_assoc. split; [reflexivity|].
      rewrite !RunFacts.requestsOf_app, !RunFacts.responsesOf_app,
        !ProtocolFacts.requestsOf_pauses, !RunFacts.responsesOf_pauses.
      split; reflexivity. }
    destruct found as [existing|status statusText errorData|message]; cbn [Runs.apiOutcome].
    + cbn [Js.exec].
      destruct (Hwrite (Js.json_sha existing)) as (answer & w2 & -> & events & Ht & Hq & Hr).
      exists events. split; [exact Ht|]. rewrite Hr. split; [exact Hq|].
      now exists answer.
    + unfold GitHubAgent.statusIs. cbn [GitHubAgent.statusOf].
      destruct (status =? 404) eqn:H404.
      * cbn [Js.exec].
        destruct (Hwrite "") as (answer & w2 & -> & events & Ht & Hq & Hr).
        exists events. split; [exact Ht|]. rewrite Hr. cbv iota beta. rewrite H404.
        split; [exact Hq|]. now exists answer.
      * cbn [Js.exec]. destruct Hlookup as (events & Ht & Hq & Hr).
        exists events. split; [exact Ht|]. rewrite Hr. cbv iota beta. rewrite H404.
        split; [exact Hq|]. split; reflexivity.
    + cbn [GitHubAgent.statusIs GitHubAgent.statusOf Js.exec].
      destruct Hlookup as (events & Ht & Hq & Hr).
      exists events. split; [exact Ht|]. rewrite Hr. split; [exact Hq|]. split; reflexivity.
  - cbn [Js.exec].
    destruct (ProtocolFacts.makeGitHubApiCall_run remote this "PUT"
                (GitHubAgent.contentsEndpoint owner repoName (ZipProcessor.file_path file))
                (Js.FileData
                   (GitHubAgent.orString (GitHubAgent.opt_commitMessage options)
                      ("Add " ++ ZipProcessor.file_name file))
                   (ZipProcessor.file_content file)
                   (GitHubAgent.orString (GitHubAgent.opt_branch options) "main") "") w0)
      as (pauses2 & answer & took2 & -> & Htrace2).
    cbn [fst snd]. eexists. rewrite Htrace2, Htrace0, <- !app_assoc. split; [reflexivity|].
    rewrite !RunFacts.requestsOf_app, !RunFacts.responsesOf_app,
      !ProtocolFacts.requestsOf_pauses, !RunFacts.responsesOf_pauses.
    split; [reflexivity|]. now exists answer.
Qed.

(* ===================================================================== *)
(** * Proofs: a run always returns *)
(* ===================================================================== *)

Module EndFacts.
Import JsString Js ZipProcessor GitHubAgent Runs RunFacts BatchFacts Protocol.

(** ** Calls that end well *)

Lemma throwsOnly_weaken {A : Type} (Q Q' : Thrown -> Prop) (p : Prog A) :
  (forall e, Q e -> Q' e) -> throwsOnly Q p -> throwsOnly Q' p.
Proof.
  intros HQ. induction p as [a|e| |X op k IH]; simpl; auto.
Qed.

Lemma endsWell_throwsOnly {A : Type} remote (p : Prog A) :
  throwsOnly isErrorObject p -> endsWell remote p.
Proof.
  intros Hp w. destruct (exec remote p w) as [c w'] eqn:Hrun.
  pose proof (exec_throwsOnly remote _ _ Hp _ _ _ Hrun) as H.
  destruct c; exact H.
Qed.

Lemma endsWell_bind {A B : Type} remote (p : Prog A) (f : A -> Prog B) :
  endsWell remote p -> (forall a, endsWell remote (f a)) -> endsWell remote (bind p f).
Proof.
  intros Hp Hf w. rewrite exec_bind. specialize (Hp w).
  destruct (exec remote p w) as [[a|e|] w1]; [apply Hf | exact Hp | exact Hp].
Qed.

Section Methods.
Variable localeCompare : string -> string -> Z.
Variable generateReadmeContent : string -> list ExtractedFile -> Generated.
Variable base64 : string -> string.
Variable remote : Remote.
Variable this : Agent.

Lemma retryLoop_throws {A : Type} (op : Prog A) :
  throwsOnly (fun _ => True) op ->
  forall remaining attempt lastError,
    throwsOnly (fun _ => True) (retryLoop this op remaining attempt lastError).
Proof.
  intros Hop. induction remaining as [|r IH]; intros attempt lastError; [exact I|].
  cbn [retryLoop]. apply (throwsOnly_tryCatch (fun _ => True)); [exact Hop|]. intros e _.
  apply throwsOnly_bind; [|intros _; apply IH].
  destruct (attempt <? maxRetries this); simpl; auto.
Qed.

Lemma settle_throws {A : Type} Q (p : Prog A) :
  throwsOnly (fun _ => True) p -> throwsOnly Q (settle p).
Proof.
  intros Hp. unfold settle. apply (throwsOnly_tryCatch (fun _ => True)).
  - apply throwsOnly_bind; [exact Hp | intros; exact I].
  - intros e _. exact I.
Qed.

Lemma promiseAll_throws {A : Type} Q (promises : list (Prog A)) :
  Forall (throwsOnly Q) promises -> throwsOnly Q (promiseAll promises).
Proof.
  induction 1 as [|p rest Hp _ IH]; [exact I|]. cbn [promiseAll].
  apply throwsOnly_bind; [exact Hp|]. intros x.
  apply throwsOnly_bind; [exact IH|]. intros; exact I.
Qed.

Lemma tallyAll_throws batchResults :
  forall results, throwsOnly isErrorObject (tallyAll results batchResults).
Proof.
  induction batchResults as [|[file outcome] rest IH]; intros results; [exact I|].
  cbn [tallyAll]. apply throwsOnly_bind; [|intros; apply IH].
  destruct outcome as [j|[m s|]]; exact I.
Qed.

Lemma processBatch_throws owner repoName batch results options :
  throwsOnly isErrorObject (processBatch this owner repoName batch results options).
Proof.
  unfold processBatch. apply throwsOnly_bind; [|intros; apply tallyAll_throws].
  apply promiseAll_throws. apply List.Forall_forall. intros p Hp.
  apply in_map_iff in Hp as (f & <- & _).
  apply throwsOnly_bind; [|intros; exact I]. apply settle_throws.
  apply retryLoop_throws.
  apply (throwsOnly_weaken isErrorObject); [intros; exact I|].
  apply uploadSingleFile_throws.
Qed.

Lemma batchLoop_throws owner repoName options batches :
  forall results, throwsOnly isErrorObject (batchLoop this owner repoName batches results options).
Proof.
  induction batches as [|batch rest IH]; intros results; [exact I|].
  cbn [batchLoop]. apply throwsOnly_bind; [apply processBatch_throws|]. intros results'.
  apply throwsOnly_bind; [destruct rest; simpl; auto|]. intros _. apply IH.
Qed.

Lemma uploadFilesToRepository_throws owner repoName files options :
  0 < batchSize this ->
  throwsOnly isErrorObject
    (uploadFilesToRepository localeCompare this owner repoName files options).
Proof.
  intros Hb. unfold uploadFilesToRepository, createBatches.
  destruct (Z.ltb_spec 0 (batchSize this)); [|lia]. apply batchLoop_throws.
Qed.

(** The readiness wait ends well: it hangs in no case. *)
Lemma polls_error owner repoName startTime maxWaitTime w outcome w' :
  Polls remote this owner repoName startTime maxWaitTime w outcome w' ->
  settlesWell (completionOf outcome).
Proof.
  induction 1 as [w Hout | w json w1 Hin Hlook | w error w1 Hin Hlook H404
                  | w error w1 outcome w' Hin Hlook H404 Hrest IH].
  - exact I.
  - exact I.
  - unfold statusLookup in Hlook.
    exact (exec_throwsOnly remote _ _ (makeGitHubApiCall_throws this _ _ _) _ _ _ Hlook).
  - exact IH.
Qed.

Lemma waitForRepositoryReady_endsWell owner repoName maxWaitTime :
  endsWell remote (waitForRepositoryReady this owner repoName maxWaitTime).
Proof.
  intros w. unfold waitForRepositoryReady. cbn [bind perform exec].
  destruct (WaitFacts.waitLoop_polls remote this owner repoName (clock w) maxWaitTime
              (waitFuel maxWaitTime) w) as (outcome & w' & Hrun & Hpolls).
  - pose proof (WaitFacts.waitFuel_suffices maxWaitTime). lia.
  - unfold waitFuel. lia.
  - rewrite Hrun. exact (polls_error _ _ _ _ _ _ _ Hpolls).
Qed.

Lemma validateInput_throws folderName extractedFiles :
  throwsOnly isErrorObject (validateInput folderName extractedFiles).
Proof.
  unfold validateInput.
  repeat match goal with |- context [if ?b then _ else _] => destruct b end; exact I.
Qed.

(** The body of the [try] of [createRepositoryAndUploadFiles]. *)
Lemma run_endsWell folderName extractedFiles options (startTime : Z) :
  0 < batchSize this ->
  endsWell remote
    (validateInput folderName extractedFiles ;;;
     repoData <- createRepository this folderName options ;;
     waitForRepositoryReady this (owner this) folderName 30000 ;;;
     uploadResults <-
       uploadFilesToRepository localeCompare this (owner this) folderName extractedFiles options ;;
     (if notFalse (opt_createReadme options)
      then _ <- createReadmeFile generateReadmeContent base64 this (owner this) folderName
                  (filesAfterUpload localeCompare extractedFiles options) ;;
           Ret tt
      else Ret tt) ;;;
     finished <- perform DateNow ;;
     Ret (RunSuccess repoData uploadResults (finished - startTime)
            ("成功创建仓库 " ++ folderName ++ " 并上传 "
               ++ pretty (successCount uploadResults) ++ " 个文件")
            finished)).
Proof.
  intros Hb.
  apply endsWell_bind; [apply endsWell_throwsOnly, validateInput_throws|]. intros _.
  apply endsWell_bind; [apply endsWell_throwsOnly, makeGitHubApiCall_throws|]. intros repoData.
  apply endsWell_bind; [apply waitForRepositoryReady_endsWell|]. intros _.
  apply endsWell_bind;
    [apply endsWell_throwsOnly, uploadFilesToRepository_throws; exact Hb|].
  intros uploadResults.
  apply endsWell_bind.
  - destruct (notFalse (opt_createReadme options)); [|intros w; exact I].
    apply endsWell_bind; [|intros ? w; exact I].
    apply endsWell_throwsOnly. unfold createReadmeFile.
    destruct (generateReadmeContent _ _); [apply uploadSingleFile_throws | exact I].
  - intros _ w. exact I.
Qed.

End Methods.

End EndFacts.

(** X18: whatever the remote side answers, [createRepositoryAndUploadFiles]
    returns a result object: it neither throws nor hangs (the batch size
    being positive, as it is unless the configuration makes it negative). *)
Theorem createRepositoryAndUploadFiles_always_returns
    (localeCompare : string -> string -> Z)
    (generateReadmeContent : string -> list ZipProcessor.ExtractedFile
                             -> GitHubAgent.Generated)
    (base64 : string -> string)
    (remote : Js.Remote) (this : GitHubAgent.Agent) (folderName : string)
    (extractedFiles : list ZipProcessor.ExtractedFile) (options : GitHubAgent.Options)
    (w : Js.World)
    (Hbatch : 0 < GitHubAgent.batchSize this) :
  exists result w',
    Js.exec remote
      (GitHubAgent.createRepositoryAndUploadFiles localeCompare generateReadmeContent base64
         this folderName extractedFiles options) w
    = (Js.Returned result, w').
Proof.
  unfold GitHubAgent.createRepositoryAndUploadFiles.
  cbn [Js.bind Js.perform Js.exec]. rewrite RunFacts.exec_tryCatch.
  pose proof (EndFacts.run_endsWell localeCompare generateReadmeContent base64 remote this
                folderName extractedFiles options (Js.clock w) Hbatch w) as Hends.
  destruct (Js.exec remote _ w) as [[result|[message status|]|] w1];
    cbn [fst Protocol.settlesWell Runs.isErrorObject] in Hends; try contradiction.
  - eauto.
  - cbn [GitHubAgent.messageOf Js.bind Js.perform Js.exec]. eauto.
Qed.

Lemma createRepositoryAndUploadFiles_always_returns_witness :
  let file := ZipProcessor.fileInfoOf 0 "a.txt"
                (ZipProcessor.mkEntry false (Some "aGk=") (Some (Some 2, Some 2)) None) "aGk=" in
  let remote : Js.Remote := fun w r =>
    (if (List.length (Runs.requestsOf (Js.trace w)) <? 2)%nat
     then Js.Success (Js.mkJson "" "" "https://github.com/me/repo")
     else Js.Rejected "socket hang up", 5) in
  let this := GitHubAgent.newAgent (GitHubAgent.mkConfig "me" None None None None) in
  exists result w',
    Js.exec remote
      (GitHubAgent.createRepositoryAndUploadFiles
         (fun _ _ => 0) (fun _ _ => GitHubAgent.ReadmeText "# repo") (fun s => s) this "repo" [file]
         GitHubAgent.noOptions)
      (GitHubAgent.freshWorld 1000000)
    = (Js.Returned result, w').
Proof.
  intros file remote this.
  apply (createRepositoryAndUploadFiles_always_returns (fun _ _ => 0) (fun _ _ => GitHubAgent.ReadmeText "# repo")
           (fun s => s) remote this "repo" [file] GitHubAgent.noOptions).
  reflexivity.
Defined.

(* ===================================================================== *)
(** * Proofs: the requests of a run *)
(* ===================================================================== *)

Module RequestFacts.
Import JsString Js ZipProcessor GitHubAgent Runs RunFacts BatchFacts Protocol.

Section Methods.
Variable localeCompare : string -> string -> Z.
Variable generateReadmeContent : string -> list ExtractedFile -> Generated.
Variable base64 : string -> string.
Variable this : Agent.

Lemma uploadSingleFile_contentRequests owner repoName file options :
  fetchesOnly (contentRequest owner repoName (file_path file))
    (uploadSingleFile this owner repoName file options).
Proof.
  unfold uploadSingleFile.
  apply fetchesOnly_bind; [apply enforceRateLimit_fetches|]. intros _.
  apply fetchesOnly_bind.
  - destruct (notFalse (opt_checkExisting options)); [|exact I].
    apply fetchesOnly_tryCatch.
    + apply fetchesOnly_bind; [|intros; exact I].
      apply makeGitHubApiCall_fetches. split; [reflexivity|]. left. split; reflexivity.
    + intros e. destruct (statusIs e 404); exact I.
  - intros sha. apply makeGitHubApiCall_fetches. split; [reflexivity|]. right.
    split; [reflexivity|]. cbn. eauto.
Qed.

Lemma batchLoop_sends (P : Request -> Prop) owner repoName options batches :
  (forall f, In f (concat batches) ->
             fetchesOnly P (uploadSingleFile this owner repoName f options)) ->
  forall results, fetchesOnly P (batchLoop this owner repoName batches results options).
Proof.
  induction batches as [|batch rest IH]; intros Hsub results; [exact I|].
  cbn [batchLoop]. apply fetchesOnly_bind.
  - unfold processBatch. apply fetchesOnly_bind; [|intros; apply tallyAll_fetches].
    apply promiseAll_fetches. apply List.Forall_forall. intros p Hp.
    apply in_map_iff in Hp as (f & <- & Hf).
    apply fetchesOnly_bind; [|intros; exact I].
    unfold settle. apply fetchesOnly_tryCatch; [|intros; exact I].
    apply fetchesOnly_bind; [|intros; exact I].
    apply retryLoop_fetches. apply Hsub. simpl. apply in_or_app. now left.
  - intros results'. apply fetchesOnly_bind; [destruct rest; exact I|]. intros _.
    apply IH. intros f Hf. apply Hsub. simpl. apply in_or_app. now right.
Qed.

Lemma waitLoop_sends (P : Request -> Prop) owner repoName startTime maxWaitTime :
  P (apiRequest "GET" ("/repos/" ++ owner ++ "/" ++ repoName) NoBody) ->
  forall fuel, fetchesOnly P (waitLoop this fuel owner repoName startTime maxWaitTime).
Proof.
  intros HP. induction fuel as [|fuel IH]; [exact I|].
  cbn [waitLoop bind perform fetchesOnly]. intros now.
  destruct (now - startTime <? maxWaitTime); [|exact I].
  apply fetchesOnly_tryCatch.
  - apply fetchesOnly_bind; [|intros; exact I]. now apply makeGitHubApiCall_fetches.
  - intros e. destruct (statusIs e 404); [|exact I].
    first [exact IH | apply fetchesOnly_bind; [exact I | intros _; apply IH]].
Qed.

Lemma run_sends folderName extractedFiles options :
  fetchesOnly (runRequest (owner this) folderName extractedFiles options)
    (createRepositoryAndUploadFiles localeCompare generateReadmeContent base64 this
       folderName extractedFiles options).
Proof.
  unfold createRepositoryAndUploadFiles. cbn [bind perform fetchesOnly]. intros startTime.
  apply fetchesOnly_tryCatch.
  - apply fetchesOnly_bind.
    { unfold validateInput.
      repeat match goal with |- context [if ?b then _ else _] => destruct b end; exact I. }
    intros _. apply fetchesOnly_bind.
    { apply makeGitHubApiCall_fetches. left. split; [reflexivity|]. split; [reflexivity|].
      cbn. eauto. }
    intros repoData. apply fetchesOnly_bind.
    { unfold waitForRepositoryReady. cbn [bind perform fetchesOnly]. intros t.
      apply waitLoop_sends. right. left. repeat split. }
    intros _. apply fetchesOnly_bind.
    { unfold uploadFilesToRepository.
      destruct (createBatches _ _) as [batches|] eqn:Hb; [|exact I].
      apply batchLoop_sends. intros f Hf. rewrite (createBatches_concat _ _ _ Hb) in Hf.
      destruct (in_filterAndSortFiles localeCompare options f extractedFiles Hf) as [Hin Hpass].
      apply (fetchesOnly_weaken (contentRequest (owner this) folderName (file_path f)));
        [|apply uploadSingleFile_contentRequests].
      intros r Hr. right. right. right. now exists f. }
    intros uploadResults. apply fetchesOnly_bind.
    { destruct (notFalse (opt_createReadme options)); [|exact I].
      apply fetchesOnly_bind; [|intros; exact I].
      unfold createReadmeFile.
      destruct (generateReadmeContent _ _) as [readme|message]; [|exact I].
      apply (fetchesOnly_weaken (contentRequest (owner this) folderName "README.md"));
        [|exact (uploadSingleFile_contentRequests (owner this) folderName
                   (readmeFile base64 readme) readmeOptions)].
      intros r Hr. right. right. now left. }
    intros _ t. exact I.
  - intros e. apply fetchesOnly_bind; [destruct e; exact I|]. intros message t. exact I.
Qed.

End Methods.

End RequestFacts.

(** X19: all that a run sends is: the request that creates the repository,
    lookups of that repository, and, for [README.md] and for the files that
    pass the filter, lookups of the path in that repository and writes to it.
    No other method, endpoint or repository is touched. *)
Theorem run_sends_only_requests_for_its_repository
    (localeCompare : string -> string -> Z)
    (generateReadmeContent : string -> list ZipProcessor.ExtractedFile
                             -> GitHubAgent.Generated)
    (base64 : string -> string)
    (remote : Js.Remote) (this : GitHubAgent.Agent) (folderName : string)
    (extractedFiles : list ZipProcessor.ExtractedFile) (options : GitHubAgent.Options)
    (w : Js.World) :
  let run := Js.exec remote
               (GitHubAgent.createRepositoryAndUploadFiles localeCompare generateReadmeContent
                  base64 this folderName extractedFiles options) w in
  exists events,
    Js.trace (snd run) = (Js.trace w ++ events)%list
    /\ Forall (Protocol.runRequest (GitHubAgent.owner this) folderName extractedFiles options)
              (Runs.requestsOf events).
Proof.
  intros run. destruct run as [c w'] eqn:Hrun.
  exact (RunFacts.exec_fetchesOnly remote _ _
           (RequestFacts.run_sends localeCompare generateReadmeContent base64 this
              folderName extractedFiles options) _ _ _ Hrun).
Qed.

(* ===================================================================== *)
(** * Proofs: the counters of the upload, and the batches *)
(* ===================================================================== *)

Module CountFacts.
Import JsString Js ZipProcessor GitHubAgent Runs RunFacts BatchFacts Protocol.

(** ** The counters and the details *)

Lemma recount_snoc uploaded d :
  recount (uploaded ++ [d])
  = {| successCount := successCount (recount uploaded)
                       + (if hasStatus success d then 1 else 0);
       failedCount := failedCount (recount uploaded)
                      + (if hasStatus failed d then 1 else 0);
       skippedCount := 0;
       details := (uploaded ++ [d])%list;
       totalSize := totalSize (recount uploaded) + sizeOf d |}.
Proof.
  unfold recount. cbn [successCount failedCount totalSize].
  rewrite !List.filter_app, !List.length_app, map_app. cbn [map List.filter].
  rewrite NumberFacts.sum_snoc.
  destruct (hasStatus success d), (hasStatus failed d); cbn [List.length];
    f_equal; lia.
Qed.

Lemma statuses_partition uploaded :
  Forall notSkipped uploaded ->
  (List.length (List.filter (hasStatus success) uploaded)
   + List.length (List.filter (hasStatus failed) uploaded))%nat
  = List.length uploaded.
Proof.
  induction 1 as [|d l Hd _ IH]; [reflexivity|].
  cbn [List.filter]. unfold notSkipped in Hd.
  assert (hasStatus success d = match detail_status d with success => true | _ => false end)
    as -> by (unfold hasStatus; destruct (detail_status d); reflexivity).
  assert (hasStatus failed d = match detail_status d with failed => true | _ => false end)
    as -> by (unfold hasStatus; destruct (detail_status d); reflexivity).
  destruct (detail_status d); [| |congruence]; cbn [List.length]; lia.
Qed.

Section Batches.
Variable remote : Remote.
Variable this : Agent.
Variables owner repoName : string.
Variable options : Options.

Lemma tally_recount results file outcome w results' w' :
  exec remote (tally results (file, outcome)) w = (Returned results', w') ->
  results = recount (details results) -> results' = recount (details results').
Proof.
  unfold tally. destruct outcome as [j|[m s|]]; simpl; intros [= <- <-] Hr;
    cbn [details]; rewrite recount_snoc, <- Hr; cbn [hasStatus detail_status sizeOf detail_size];
    rewrite Hr at 3; cbn [skippedCount recount]; f_equal; lia.
Qed.

Lemma tallyAll_recount batchResults :
  forall results w results' w',
    exec remote (tallyAll results batchResults) w = (Returned results', w') ->
    results = recount (details results) -> results' = recount (details results').
Proof.
  induction batchResults as [|[file outcome] rest IH]; intros results w results' w' H Hr.
  - now injection H as <- <-.
  - cbn [tallyAll] in H. rewrite exec_bind in H.
    destruct (exec remote (tally results (file, outcome)) w) as [[r1| |] w1] eqn:Ht;
      try discriminate H.
    exact (IH _ _ _ _ H (tally_recount _ _ _ _ _ _ Ht Hr)).
Qed.

Lemma batchLoop_recount batches :
  forall results w results' w',
    exec remote (batchLoop this owner repoName batches results options) w
    = (Returned results', w') ->
    results = recount (details results) -> results' = recount (details results').
Proof.
  induction batches as [|batch rest IH]; intros results w results' w' H Hr.
  - now injection H as <- <-.
  - cbn [batchLoop] in H. rewrite exec_bind in H.
    destruct (exec remote (processBatch _ _ _ _ _ _) w) as [[r1| |] w1] eqn:Hb;
      try discriminate H.
    rewrite exec_bind in H.
    destruct (exec remote _ w1) as [[[]| |] w2] eqn:Hd in H; try discriminate H.
    apply (IH _ _ _ _ H).
    unfold processBatch in Hb. rewrite exec_bind in Hb.
    destruct (exec remote (promiseAll _) w) as [[l| |] w0]; try discriminate Hb.
    exact (tallyAll_recount _ _ _ _ _ Hb Hr).
Qed.

(** ** Without an attempt *)

Lemma withRetry_without_attempt {A : Type} (op : Prog A) :
  maxRetries this <= 0 -> withRetry this op = Throw UndefinedValue.
Proof.
  intros Hm. unfold withRetry.
  replace (Z.to_nat (maxRetries this)) with 0%nat by lia. reflexivity.
Qed.

Lemma promiseAll_without_attempt batch w :
  maxRetries this <= 0 ->
  exec remote
    (promiseAll
       (map (fun file =>
               outcome <- settle (uploadSingleFileWithRetry this owner repoName file options) ;;
               Ret (file, outcome)) batch)) w
  = (Returned (map (fun file => (file, RejectedWith UndefinedValue)) batch), w).
Proof.
  intros Hm. induction batch as [|f batch IH]; [reflexivity|].
  cbn [map promiseAll]. unfold uploadSingleFileWithRetry at 1.
  rewrite (withRetry_without_attempt _ Hm). cbn [settle bind tryCatch].
  rewrite exec_bind, IH. reflexivity.
Qed.

End Batches.

(** ** Cutting into batches *)

Lemma chunks_nil fuel n : chunks fuel n [] = [].
Proof. destruct fuel; reflexivity. Qed.

Lemma chunks_spec n : (0 < n)%nat ->
  forall fuel files,
    (List.length files <= fuel)%nat ->
    Forall (fun batch => (1 <= List.length batch <= n)%nat) (chunks fuel n files)
    /\ (forall i, (S i < List.length (chunks fuel n files))%nat ->
                  List.length (nth i (chunks fuel n files) []) = n)
    /\ List.length (chunks fuel n files) = ((List.length files + n - 1) / n)%nat.
Proof.
  intros Hn. induction fuel as [|fuel IH]; intros files Hlen.
  - destruct files; [|simpl in Hlen; lia]. simpl.
    split; [constructor|]. split; [intros i Hi; lia|].
    symmetry. apply Nat.div_small. lia.
  - destruct files as [|f files].
    { simpl. split; [constructor|]. split; [intros i Hi; lia|].
      symmetry. apply Nat.div_small. lia. }
    cbn [chunks]. set (l := f :: files) in *.
    assert (List.length l = S (List.length files)) as Hl by reflexivity.
    destruct (IH (skipn n l)) as (Hall & Hfull & Hcount).
    { rewrite length_skipn. lia. }
    assert (List.length (firstn n l) = Nat.min n (List.length l)) as Hfirst
        by apply length_firstn.
    split; [constructor; [lia | exact Hall]|].
    destruct (Nat.le_gt_cases (List.length l) n) as [Hshort|Hlong].
    + assert (skipn n l = []) as Hrest by (apply skipn_all2; exact Hshort).
      rewrite Hrest, chunks_nil in *. cbn [List.length].
      split; [intros i Hi; lia|].
      apply Nat.div_unique with (r := (List.length l - 1)%nat); lia.
    + split.
      * intros [|i] Hi; cbn [nth]; [lia|]. apply Hfull. cbn [List.length] in Hi. lia.
      * cbn [List.length]. rewrite Hcount, length_skipn.
        replace (List.length l + n - 1)%nat with ((List.length l - n + n - 1) + 1 * n)%nat by lia.
        rewrite Nat.div_add by lia. lia.
Qed.

End CountFacts.

(** X20: whenever [uploadFilesToRepository] returns, its counters are those of
    its details: [successCount] and [failedCount] count the details of each
    status, [totalSize] adds up the sizes of the successes; there is one
    detail for each file that passed the filter, so the two counters add up
    to the number of those files. *)
Theorem uploadFilesToRepository_counts_every_file
    (localeCompare : string -> string -> Z) (remote : Js.Remote)
    (this : GitHubAgent.Agent) (owner repoName : string)
    (files : list ZipProcessor.ExtractedFile) (options : GitHubAgent.Options)
    (w w' : Js.World) (results : GitHubAgent.Results)
    (Hrun : Js.exec remote
              (GitHubAgent.uploadFilesToRepository localeCompare this owner repoName
                 files options) w
            = (Js.Returned results, w')) :
  results = Protocol.recount (GitHubAgent.details results)
  /\ List.length (GitHubAgent.details results)
     = List.length (GitHubAgent.filterAndSortFiles localeCompare files options)
  /\ GitHubAgent.successCount results + GitHubAgent.failedCount results
     = Z.of_nat (List.length (GitHubAgent.filterAndSortFiles localeCompare files options)).
Proof.
  destruct (BatchFacts.uploadFilesToRepository_grows _ _ _ _ _ _ _ _ _ _ Hrun)
    as [_ (added & Hdetails & Hpaths & Hstatus)].
  simpl in Hdetails.
  assert (results = Protocol.recount (GitHubAgent.details results)) as Hcount.
  { unfold GitHubAgent.uploadFilesToRepository in Hrun.
    destruct (GitHubAgent.createBatches _ _) as [batches|]; [|discriminate Hrun].
    exact (CountFacts.batchLoop_recount remote this owner repoName options batches
             _ _ _ _ Hrun eq_refl). }
  assert (List.length (GitHubAgent.details results)
          = List.length (GitHubAgent.filterAndSortFiles localeCompare files options)) as Hlen.
  { rewrite Hdetails, <- (length_map GitHubAgent.detail_path), Hpaths. apply length_map. }
  split; [exact Hcount|]. split; [exact Hlen|].
  pose proof (f_equal GitHubAgent.successCount Hcount) as Hs.
  pose proof (f_equal GitHubAgent.failedCount Hcount) as Hf.
  cbn [Protocol.recount GitHubAgent.successCount GitHubAgent.failedCount] in Hs, Hf.
  rewrite Hs, Hf, <- Hlen, Hdetails.
  rewrite <- (CountFacts.statuses_partition added Hstatus). lia.
Qed.

Lemma uploadFilesToRepository_counts_every_file_witness :
  let file p n := ZipProcessor.fileInfoOf 0 p
                    (ZipProcessor.mkEntry false (Some "") (Some (Some n, Some n)) None) "" in
  let files := [file "a.txt" 10; file "b.txt" 3; file "c.txt" 4] in
  let localeCompare a b := match String.compare a b with Lt => -1 | Eq => 0 | Gt => 1 end in
  let remote : Js.Remote := fun _ r =>
    (if String.eqb (Js.req_method r) "GET"
     then Js.Failure 404 "Not Found" (Js.mkJson "" "" "")
     else if String.eqb (Js.req_endpoint r)
                        "https://api.github.com/repos/me/repo/contents/b.txt"
          then Js.Failure 422 "Unprocessable Entity" (Js.mkJson "" "" "")
          else Js.Success (Js.mkJson "" "" ""), 5) in
  let this := GitHubAgent.newAgent (GitHubAgent.mkConfig "me" None None None None) in
  exists results,
    fst (Js.exec remote
           (GitHubAgent.uploadFilesToRepository localeCompare this "me" "repo" files
              GitHubAgent.noOptions) (GitHubAgent.freshWorld 1000000))
    = Js.Returned results
    /\ GitHubAgent.successCount results + GitHubAgent.failedCount results = 3.
Proof.
  intros file files localeCompare remote this.
  set (run := Js.exec remote
                (GitHubAgent.uploadFilesToRepository localeCompare this "me" "repo" files
                   GitHubAgent.noOptions) (GitHubAgent.freshWorld 1000000)).
  assert (exists results, run = (Js.Returned results, snd run)) as (results & Hrun).
  { vm_compute. eexists. reflexivity. }
  exists results. split; [now rewrite Hrun|].
  destruct (uploadFilesToRepository_counts_every_file localeCompare remote this "me" "repo"
              files GitHubAgent.noOptions _ _ _ Hrun) as (_ & _ & Hsum).
  rewrite Hsum. vm_compute. reflexivity.
Defined.

(** X21: with [maxRetries] zero or negative the retry wrapper makes no attempt
    and throws [undefined]; reading the message of that makes the first batch
    throw a [TypeError], so that [uploadFilesToRepository] fails with it,
    having sent no request, as soon as one file passes the filter. *)
Theorem nonpositive_maxRetries_fails_the_upload
    (localeCompare : string -> string -> Z) (remote : Js.Remote)
    (this : GitHubAgent.Agent) (owner repoName : string)
    (files : list ZipProcessor.ExtractedFile) (options : GitHubAgent.Options)
    (w : Js.World)
    (Hretries : GitHubAgent.maxRetries this <= 0)
    (Hbatch : 0 < GitHubAgent.batchSize this)
    (Hsome : GitHubAgent.filterAndSortFiles localeCompare files options <> []) :
  (forall file,
      Js.exec remote
        (GitHubAgent.uploadSingleFileWithRetry this owner repoName file options) w
      = (Js.Threw Js.UndefinedValue, w))
  /\ Js.exec remote
       (GitHubAgent.uploadFilesToRepository localeCompare this owner repoName files options) w
     = (Js.Threw (Js.ErrorObj GitHubAgent.typeErrorMessage None), w).
Proof.
  split.
  - intros file. unfold GitHubAgent.uploadSingleFileWithRetry.
    now rewrite (CountFacts.withRetry_without_attempt this _ Hretries).
  - unfold GitHubAgent.uploadFilesToRepository, GitHubAgent.createBatches.
    destruct (Z.ltb_spec 0 (GitHubAgent.batchSize this)); [|lia].
    destruct (GitHubAgent.filterAndSortFiles localeCompare files options) as [|f rest];
      [congruence|].
    cbn [List.length GitHubAgent.chunks GitHubAgent.batchLoop].
    destruct (Z.to_nat (GitHubAgent.batchSize this)) as [|n] eqn:Hn; [lia|].
    cbn [firstn]. rewrite RunFacts.exec_bind. unfold GitHubAgent.processBatch.
    rewrite RunFacts.exec_bind.
    rewrite (CountFacts.promiseAll_without_attempt remote this owner repoName options _ w
               Hretries).
    reflexivity.
Qed.

Lemma nonpositive_maxRetries_fails_the_upload_witness :
  let file := ZipProcessor.fileInfoOf 0 "a.txt"
                (ZipProcessor.mkEntry false (Some "") (Some (Some 1, Some 1)) None) "" in
  let remote : Js.Remote := fun _ _ => (Js.Success (Js.mkJson "" "" ""), 5) in
  let this := GitHubAgent.newAgent (GitHubAgent.mkConfig "me" (Some (-1)) None None None) in
  Js.exec remote
    (GitHubAgent.uploadFilesToRepository (fun _ _ => 0) this "me" "repo" [file]
       GitHubAgent.noOptions) (GitHubAgent.freshWorld 1000)
  = (Js.Threw (Js.ErrorObj GitHubAgent.typeErrorMessage None), GitHubAgent.freshWorld 1000).
Proof.
  intros file remote this.
  apply (nonpositive_maxRetries_fails_the_upload (fun _ _ => 0) remote this "me" "repo"
           [file] GitHubAgent.noOptions (GitHubAgent.freshWorld 1000)).
  - vm_compute. discriminate.
  - reflexivity.
  - discriminate.
Defined.

(** X22: [createBatches] with a positive batch size cuts the list into
    consecutive batches: put end to end they give the list back; none is
    empty or larger than the batch size; all but the last are full; and
    their number is the length of the list divided by the batch size,
    rounded up. *)
Theorem createBatches_cuts_consecutive_full_batches
    (files : list ZipProcessor.ExtractedFile) (batchSize : Z)
    (Hsize : 0 < batchSize) :
  exists batches,
    GitHubAgent.createBatches files batchSize = Some batches
    /\ concat batches = files
    /\ Forall (fun batch => 1 <= Z.of_nat (List.length batch) <= batchSize) batches
    /\ (forall i, (S i < List.length batches)%nat ->
                  Z.of_nat (List.length (nth i batches [])) = batchSize)
    /\ Z.of_nat (List.length batches)
       = (Z.of_nat (List.length files) + batchSize - 1) / batchSize.
Proof.
  unfold GitHubAgent.createBatches. destruct (Z.ltb_spec 0 batchSize); [|lia].
  eexists. split; [reflexivity|].
  assert (0 < Z.to_nat batchSize)%nat as Hn by lia.
  destruct (CountFacts.chunks_spec _ Hn (List.length files) files (le_n _))
    as (Hall & Hfull & Hcount).
  split; [apply BatchFacts.chunks_concat; lia|].
  split; [eapply List.Forall_impl; [|exact Hall]; simpl; intros; lia|].
  split; [intros i Hi; rewrite (Hfull i Hi); lia|].
  rewrite Hcount, Nat2Z.inj_div. f_equal; lia.
Qed.

Lemma createBatches_cuts_consecutive_full_batches_witness :
  let file p := ZipProcessor.fileInfoOf 0 p
                  (ZipProcessor.mkEntry false (Some "") (Some (Some 1, Some 1)) None) "" in
  let files := [file "a"; file "b"; file "c"; file "d"; file "e"] in
  exists batches,
    GitHubAgent.createBatches files 2 = Some batches
    /\ concat batches = files
    /\ Z.of_nat (List.length batches) = 3.
Proof.
  intros file files.
  destruct (createBatches_cuts_consecutive_full_batches files 2)
    as (batches & Hb & Hconcat & _ & _ & Hcount); [lia|].
  exists batches. split; [exact Hb|]. split; [exact Hconcat|]. exact Hcount.
Defined.

(* ===================================================================== *)
(** * Proofs: the order of the upload, and retries that succeed *)
(* ===================================================================== *)

Module SortFacts.
Import JsString Js ZipProcessor GitHubAgent Runs RunFacts BatchFacts Protocol.

Section Sorting.
Variable localeCompare : string -> string -> Z.
Hypothesis Hflip : forall a b, Z.sgn (localeCompare b a) = - Z.sgn (localeCompare a b).
Hypothesis Htrans : forall a b c,
    localeCompare a b <= 0 -> localeCompare b c <= 0 -> localeCompare a c <= 0.
Hypothesis Heq : forall a b, localeCompare a b = 0 -> a = b.

Abbreviation before := (Protocol.before localeCompare).

Lemma compareFiles_flip a b :
  Z.sgn (compareFiles localeCompare b a) = - Z.sgn (compareFiles localeCompare a b).
Proof.
  unfold compareFiles. rewrite (String.eqb_sym (file_directory b)).
  destruct (String.eqb (file_directory a) (file_directory b)); apply Hflip.
Qed.

Lemma before_trans a b c : before a b -> before b c -> before a c.
Proof.
  unfold Protocol.before, compareFiles.
  destruct (String.eqb_spec (file_directory a) (file_directory b)) as [Hab|Hab],
           (String.eqb_spec (file_directory b) (file_directory c)) as [Hbc|Hbc],
           (String.eqb_spec (file_directory a) (file_directory c)) as [Hac|Hac];
    cbn [negb]; intros H1 H2;
    first [ congruence
          | exact (Htrans _ _ _ H1 H2)
          | rewrite Hab; exact H2
          | rewrite <- Hbc; exact H1
          | exfalso; apply Hab, Heq; rewrite <- Hac in H2;
            pose proof (Hflip (file_directory a) (file_directory b)); lia ].
Qed.

Lemma insertSorted_sorted x l :
  sortedBy before l -> sortedBy before (insertSorted localeCompare x l).
Proof.
  induction l as [|y rest IH]; intros Hs; [split; [constructor | exact I]|].
  destruct Hs as [Hy Hrest]. cbn [insertSorted].
  destruct (Z.ltb_spec 0 (compareFiles localeCompare y x)) as [Hgt|Hle].
  - assert (before x y) as Hxy.
    { unfold Protocol.before. pose proof (compareFiles_flip y x). lia. }
    split; [|split; assumption]. constructor; [exact Hxy|].
    eapply List.Forall_impl; [|exact Hy]. intros z Hz. exact (before_trans _ _ _ Hxy Hz).
  - split; [|now apply IH].
    apply (Permutation_Forall (insertSorted_perm localeCompare x rest)).
    constructor; [exact Hle | exact Hy].
Qed.

Lemma sortFiles_sorted files : sortedBy before (sortFiles localeCompare files).
Proof.
  unfold sortFiles.
  assert (forall acc, sortedBy before acc ->
                      sortedBy before
                        (fold_left (fun sorted x => insertSorted localeCompare x sorted) files acc))
    as H.
  { induction files as [|f files IH]; intros acc Hacc; [exact Hacc|].
    cbn [fold_left]. apply IH. now apply insertSorted_sorted. }
  apply H. exact I.
Qed.

End Sorting.

Lemma sortedBy_impl {A : Type} (R R' : A -> A -> Prop) l :
  (forall a b, R a b -> R' a b) -> sortedBy R l -> sortedBy R' l.
Proof.
  intros HR. induction l as [|x l IH]; [auto|]. intros [Hx Hl].
  split; [|auto]. eapply List.Forall_impl; [|exact Hx]. auto.
Qed.

(** ** The order of [String.compare], as a value of [localeCompare] *)

Lemma compare_not_Gt_trans a :
  forall b c, String.compare a b <> Gt -> String.compare b c <> Gt ->
              String.compare a c <> Gt.
Proof.
  induction a as [|x a IH]; intros [|y b] [|z c]; simpl; try congruence.
  unfold Ascii.compare.
  destruct (N.compare_spec (N_of_ascii x) (N_of_ascii y)),
           (N.compare_spec (N_of_ascii y) (N_of_ascii z)),
           (N.compare_spec (N_of_ascii x) (N_of_ascii z));
    try congruence; try lia.
  apply IH.
Qed.

Lemma codeOrder_flip a b : Z.sgn (codeOrder b a) = - Z.sgn (codeOrder a b).
Proof.
  unfold codeOrder. rewrite (String.compare_antisym a b).
  destruct (String.compare b a); reflexivity.
Qed.

Lemma codeOrder_trans a b c : codeOrder a b <= 0 -> codeOrder b c <= 0 -> codeOrder a c <= 0.
Proof.
  unfold codeOrder. intros H1 H2.
  pose proof (compare_not_Gt_trans a b c) as H.
  destruct (String.compare a b), (String.compare b c), (String.compare a c);
    try lia; exfalso; apply H; congruence.
Qed.

Lemma codeOrder_eq a b : codeOrder a b = 0 -> a = b.
Proof.
  unfold codeOrder. intros H. apply String.compare_eq_iff.
  destruct (String.compare a b); [reflexivity | lia | lia].
Qed.

End SortFacts.

(** X23: when [localeCompare] orders the strings totally, the list that
    [filterAndSortFiles] returns holds the files that pass the filter, each
    as often as the input does, in order: by directory, and by name within a
    directory. *)
Theorem filterAndSortFiles_sorts_by_directory_then_name
    (localeCompare : string -> string -> Z)
    (files : list ZipProcessor.ExtractedFile) (options : GitHubAgent.Options)
    (Hflip : forall a b, Z.sgn (localeCompare b a) = - Z.sgn (localeCompare a b))
    (Htrans : forall a b c,
        localeCompare a b <= 0 -> localeCompare b c <= 0 -> localeCompare a c <= 0)
    (Heq : forall a b, localeCompare a b = 0 -> a = b) :
  let sorted := GitHubAgent.filterAndSortFiles localeCompare files options in
  Permutation (List.filter (GitHubAgent.passesFilter options) files) sorted
  /\ Protocol.sortedBy
       (fun a b =>
          if String.eqb (ZipProcessor.file_directory a) (ZipProcessor.file_directory b)
          then localeCompare (ZipProcessor.file_name a) (ZipProcessor.file_name b) <= 0
          else localeCompare (ZipProcessor.file_directory a) (ZipProcessor.file_directory b) < 0)
       sorted.
Proof.
  intros sorted. split; [apply BatchFacts.sortFiles_perm|].
  apply (SortFacts.sortedBy_impl (Protocol.before localeCompare)).
  - intros a b. unfold Protocol.before, GitHubAgent.compareFiles.
    destruct (String.eqb_spec (ZipProcessor.file_directory a) (ZipProcessor.file_directory b))
      as [Hd|Hd]; cbn [negb]; [auto|].
    intros Hle. destruct (Z.eq_dec (localeCompare (ZipProcessor.file_directory a)
                                      (ZipProcessor.file_directory b)) 0) as [Hz|Hz]; [|lia].
    destruct (Hd (Heq _ _ Hz)).
  - apply SortFacts.sortFiles_sorted; assumption.
Qed.

Lemma filterAndSortFiles_sorts_by_directory_then_name_witness :
  let file p := ZipProcessor.fileInfoOf 0 p
                  (ZipProcessor.mkEntry false (Some "") (Some (Some 1, Some 1)) None) "" in
  let files := [file "src/b.js"; file "README.md"; file "docs/x.md"; file "src/a.js"] in
  map ZipProcessor.file_path
      (GitHubAgent.filterAndSortFiles Protocol.codeOrder files GitHubAgent.noOptions)
  = ["README.md"; "docs/x.md"; "src/a.js"; "src/b.js"]
  /\ Protocol.sortedBy
       (fun a b =>
          if String.eqb (ZipProcessor.file_directory a) (ZipProcessor.file_directory b)
          then Protocol.codeOrder (ZipProcessor.file_name a) (ZipProcessor.file_name b) <= 0
          else Protocol.codeOrder (ZipProcessor.file_directory a)
                 (ZipProcessor.file_directory b) < 0)
       (GitHubAgent.filterAndSortFiles Protocol.codeOrder files GitHubAgent.noOptions).
Proof.
  intros file files.
  destruct (filterAndSortFiles_sorts_by_directory_then_name Protocol.codeOrder files
              GitHubAgent.noOptions SortFacts.codeOrder_flip SortFacts.codeOrder_trans
              SortFacts.codeOrder_eq) as [_ Hsorted].
  split; [vm_compute; reflexivity | exact Hsorted].
Defined.

Module RetryFacts.
Import JsString Js ZipProcessor GitHubAgent Runs RunFacts.

Section Retrying.
Variable remote : Remote.
Variable this : Agent.

(** After [n + 1] failed attempts, with attempts left: the loop is about to
    make the next attempt, after the pause that follows the last failure. *)
Lemma retryLoop_after_failures {A : Type} (op : Prog A) n :
  forall r a last w e w1,
    attemptsFail remote op (backoffPauses (retryDelay this) (a + 1) n) w e w1 ->
    a + Z.of_nat n < maxRetries this ->
    exec remote (retryLoop this op (S n + r) a last) w
    = exec remote (retryLoop this op r (a + Z.of_nat n + 1) e)
        (slept (retryDelay this * 2 ^ (a + Z.of_nat n - 1)) w1).
Proof.
  induction n as [|n IH]; intros r a last w e w1 Hfail Hroom.
  - cbn [attemptsFail backoffPauses seq map] in Hfail.
    rewrite (retryLoop_fail_step remote this _ _ _ _ _ _ _ Hfail).
    assert ((a <? maxRetries this) = true) as -> by lia.
    now rewrite !Z.add_0_r.
  - rewrite backoffPauses_cons in Hfail. destruct Hfail as (e1 & w0 & Hfirst & Hrest).
    change (S (S n) + r)%nat with (S (S n + r)).
    rewrite (retryLoop_fail_step remote this _ _ _ _ _ _ _ Hfirst).
    assert ((a <? maxRetries this) = true) as -> by lia.
    replace (a + 1 - 2) with (a - 1) in Hrest by lia.
    rewrite (IH r (a + 1) e1 _ e w1 Hrest) by lia.
    f_equal; [f_equal; lia|]. f_equal. f_equal. f_equal. lia.
Qed.

End Retrying.

End RetryFacts.

(** X24: the retry wrapper stops at the first attempt that succeeds: when the
    first [n + 1] attempts fail, with the pauses of the backoff between
    them, and attempt [n + 2], made [retryDelay * 2^n] later, succeeds (it
    being within [maxRetries]), the result of that attempt is the result of
    the wrapper, and nothing is done after it. *)
Theorem retry_wrapper_stops_at_the_first_success
    (remote : Js.Remote) (this : GitHubAgent.Agent) (A : Type)
    (uploadAttempt : Js.Prog A) (n : nat) (w w1 w2 : Js.World) (error : Js.Thrown)
    (result : A)
    (Hroom : Z.of_nat n + 2 <= GitHubAgent.maxRetries this)
    (Hfailed : Runs.attemptsFail remote uploadAttempt
                 (Runs.backoffPauses (GitHubAgent.retryDelay this) 2 n) w error w1)
    (Hsucceeds : Js.exec remote uploadAttempt
                   (Runs.slept (GitHubAgent.retryDelay this * 2 ^ Z.of_nat n) w1)
                 = (Js.Returned result, w2)) :
  Js.exec remote (GitHubAgent.withRetry this uploadAttempt) w = (Js.Returned result, w2).
Proof.
  unfold GitHubAgent.withRetry.
  replace (Z.to_nat (GitHubAgent.maxRetries this))
    with (S n + S (Z.to_nat (GitHubAgent.maxRetries this) - n - 2))%nat by lia.
  rewrite (RetryFacts.retryLoop_after_failures remote this uploadAttempt n _ 1 _ w error w1)
    by (assumption || lia).
  replace (1 + Z.of_nat n - 1) with (Z.of_nat n) by lia.
  exact (RunFacts.retryLoop_success remote this _ _ _ _ _ _ _ Hsucceeds).
Qed.

(** Two answers of 502, then the upload goes through, at the third and last
    attempt. *)
Lemma retry_wrapper_stops_at_the_first_success_witness :
  let file := ZipProcessor.fileInfoOf 0 "a.txt"
                (ZipProcessor.mkEntry false (Some "") (Some (Some 1, Some 1)) None) "" in
  let remote : Js.Remote := fun w r =>
    (if (List.length (Runs.requestsOf (Js.trace w)) <? 2)%nat
     then Js.Failure 502 "Bad Gateway" (Js.mkJson "" "" "")
     else if String.eqb (Js.req_method r) "GET"
          then Js.Failure 404 "Not Found" (Js.mkJson "" "" "")
          else Js.Success (Js.mkJson "" "abc" ""), 5) in
  let this := GitHubAgent.newAgent (GitHubAgent.mkConfig "me" None None None None) in
  fst (Js.exec remote
         (GitHubAgent.uploadSingleFileWithRetry this "me" "repo" file GitHubAgent.noOptions)
         (GitHubAgent.freshWorld 1000000))
  = Js.Returned (Js.mkJson "" "abc" "").
Proof.
  intros file remote this.
  set (attempt := GitHubAgent.uploadSingleFile this "me" "repo" file GitHubAgent.noOptions).
  set (w := GitHubAgent.freshWorld 1000000).
  set (first := Js.exec remote attempt w).
  set (second := Js.exec remote attempt (Runs.slept 1000 (snd first))).
  set (third := Js.exec remote attempt (Runs.slept 2000 (snd second))).
  unfold GitHubAgent.uploadSingleFileWithRetry. fold attempt.
  rewrite (retry_wrapper_stops_at_the_first_success remote this _ attempt 1 w
             (snd second) (snd third)
             (Js.ErrorObj "GitHub API调用失败: 502 Bad Gateway" (Some 502))
             (Js.mkJson "" "abc" "")).
  - reflexivity.
  - vm_compute. discriminate.
  - exists (Js.ErrorObj "GitHub API调用失败: 502 Bad Gateway" (Some 502)), (snd first).
    split; vm_compute; reflexivity.
  - vm_compute. reflexivity.
Defined.

(* ===================================================================== *)
(** * Proofs: the README statistics, the connection test and processZipFile *)
(* ===================================================================== *)

Module ReadmeFacts.
Import JsString JsNumber JsObject ZipProcessor Readme.

(** The part of the statistics of [generateStatistics] that
    [calculateFileStatistics] keeps as well, and its own total. *)
Lemma fold_countFile files :
  forall stats full,
    stat_totalFiles stats = totalFiles full ->
    stat_fileTypes stats = fileTypes full ->
    stat_directories stats = directories full ->
    let stats' := fold_left countFile files stats in
    let full' := fold_left statsStep files full in
    stat_totalFiles stats' = totalFiles full'
    /\ stat_fileTypes stats' = fileTypes full'
    /\ stat_directories stats' = directories full'
    /\ stat_totalSize stats'
       = stat_totalSize stats
         + fold_right Z.add 0 (map (fun f => orZero (file_size f)) files).
Proof.
  induction files as [|f files IH]; intros stats full Hn Ht Hd.
  - repeat split; try assumption. simpl. lia.
  - cbn [fold_left map fold_right].
    destruct (IH (countFile stats f) (statsStep full f)) as (Hn' & Ht' & Hd' & Hs');
      try (cbn [countFile statsStep stat_totalFiles stat_fileTypes stat_directories
                totalFiles fileTypes directories];
           rewrite ?Hn, ?Ht, ?Hd; reflexivity).
    repeat split; try assumption. cbv zeta in Hs'. rewrite Hs'.
    cbn [countFile stat_totalSize]. lia.
Qed.

End ReadmeFacts.

(** X25: the statistics that the README is written from agree with those of
    [ZipProcessor.generateStatistics] on the number of files, the histogram
    of extensions and the list of directories. Their total size, added up
    under [|| 0], is the sum of the sizes that there are: it is the total of
    [generateStatistics] when every file has a size, and where a file has
    none only [generateStatistics] gives [NaN]. *)
Theorem calculateFileStatistics_agrees_with_generateStatistics
    (files : list ZipProcessor.ExtractedFile) :
  let stats := Readme.calculateFileStatistics files in
  let full := ZipProcessor.generateStatistics files in
  Readme.stat_totalFiles stats = ZipProcessor.totalFiles full
  /\ Readme.stat_fileTypes stats = ZipProcessor.fileTypes full
  /\ Readme.stat_directories stats = ZipProcessor.directories full
  /\ Readme.stat_totalSize stats
     = fold_right Z.add 0
         (map (fun f => JsNumber.orZero (ZipProcessor.file_size f)) files)
  /\ ZipProcessor.totalSize full
     = (if forallb Tallies.hasSize files
        then JsNumber.Int (Readme.stat_totalSize stats)
        else JsNumber.NaN).
Proof.
  cbv zeta.
  destruct (ReadmeFacts.fold_countFile files
              (Readme.mkFileStatistics (Z.of_nat (List.length files)) 0 ∅ [])
              (Tallies.initialStats (Z.of_nat (List.length files)))
              eq_refl eq_refl eq_refl) as (Hn & Ht & Hd & Hs).
  cbv zeta in Hn, Ht, Hd, Hs. cbn [Readme.stat_totalSize] in Hs.
  destruct (StatisticsFacts.fold_statsStep_totals (Z.of_nat (List.length files)) files)
    as (_ & Hfull & _).
  unfold Readme.calculateFileStatistics, ZipProcessor.generateStatistics.
  cbn [ZipProcessor.totalFiles ZipProcessor.totalSize ZipProcessor.fileTypes
       ZipProcessor.directories].
  fold (Tallies.initialStats (Z.of_nat (List.length files))).
  split; [exact Hn|]. split; [exact Ht|]. split; [exact Hd|].
  rewrite Z.add_0_l in Hs. split; [exact Hs|].
  rewrite Hfull. unfold JsNumber.total.
  rewrite NumberFacts.forallb_map, map_map.
  destruct (forallb _ files); [|reflexivity]. f_equal. symmetry. exact Hs.
Qed.

Lemma calculateFileStatistics_agrees_with_generateStatistics_witness :
  let file p data := ZipProcessor.fileInfoOf 0 p
                       (ZipProcessor.mkEntry false (Some "") (Some data) None) "" in
  let files := [file "pkg/main.py" (Some 10, Some 8); file "pkg/__init__.py" (None, None)] in
  Readme.stat_totalSize (Readme.calculateFileStatistics files) = 10
  /\ ZipProcessor.totalSize (ZipProcessor.generateStatistics files) = JsNumber.NaN.
Proof.
  intros file files.
  destruct (calculateFileStatistics_agrees_with_generateStatistics files)
    as (_ & _ & _ & Hsum & Hfull).
  split; [exact Hsum | exact Hfull].
Defined.

(** X26: [testConnections] sends one request, [GET /user], and always returns
    its report: [github] and [overall] tell whether that request succeeded,
    and [errors] is empty exactly when it did. *)
Theorem testConnections_reports_the_one_lookup
    (remote : Js.Remote) (this : WorkflowController.Controller) (w : Js.World) :
  let run := Js.exec remote (WorkflowController.testConnections this) w in
  exists answer events results,
    fst run = Js.Returned results
    /\ Js.trace (snd run) = (Js.trace w ++ events)%list
    /\ Runs.requestsOf events = [Runs.apiRequest "GET" "/user" Js.NoBody]
    /\ Runs.responsesOf events = [answer]
    /\ WorkflowController.github results = Runs.isSuccess answer
    /\ WorkflowController.overall results = Runs.isSuccess answer
    /\ (WorkflowController.errors results = [] <-> Runs.isSuccess answer = true).
Proof.
  cbv zeta. unfold WorkflowController.testConnections.
  rewrite RunFacts.exec_bind, RunFacts.exec_tryCatch, RunFacts.exec_bind.
  destruct (ProtocolFacts.makeGitHubApiCall_run remote
              (WorkflowController.githubAgent this) "GET" "/user" Js.NoBody w)
    as (pauses & answer & took & -> & Htrace).
  assert (exists events,
             Js.trace (Runs.fetched (Runs.apiRequest "GET" "/user" Js.NoBody) answer took
                         (Runs.rateLimited (WorkflowController.githubAgent this) w))
             = (Js.trace w ++ events)%list
             /\ Runs.requestsOf events = [Runs.apiRequest "GET" "/user" Js.NoBody]
             /\ Runs.responsesOf events = [answer]) as (events & Ht & Hq & Hr).
  { eexists. rewrite Htrace. split; [reflexivity|].
    rewrite RunFacts.requestsOf_app, RunFacts.responsesOf_app,
      ProtocolFacts.requestsOf_pauses, RunFacts.responsesOf_pauses.
    split; reflexivity. }
  exists answer, events.
  destruct answer as [json|status statusText errorData|message];
    cbn [Runs.apiOutcome Js.exec GitHubAgent.messageOf Js.bind fst snd Runs.isSuccess];
    eexists; (split; [reflexivity|]); (split; [exact Ht|]); (split; [exact Hq|]);
    (split; [exact Hr|]); cbn [WorkflowController.github WorkflowController.overall
                                WorkflowController.errors fst snd];
    (split; [reflexivity|]); (split; [reflexivity|]); split; intros H;
    first [reflexivity | discriminate H].
Qed.

(** X27: [processZipFile] on an archive that the library could read. When the
    paths of the readable files form a tree, it returns the result object,
    whose [fileCount] and whose [statistics.totalFiles] are the number of
    files extracted; when some file is used as a directory by a later one, it
    throws an error with the prefix of the method, whatever the rest of the
    archive is. *)
Theorem processZipFile_returns_or_fails_as_a_whole
    (loadAsync : string -> ZipProcessorApi.Loaded)
    (structureErrorMessage : list ZipProcessor.ExtractedFile -> string)
    (remote : Js.Remote) (zipData originalFileName : string) (w : Js.World)
    (files : list (string * ZipProcessor.ZipEntry))
    (Hloaded : loadAsync zipData = ZipProcessorApi.LoadedFiles files) :
  let extracted := ZipProcessor.extractAllFiles (Js.clock w) files in
  let run := Js.exec remote
               (ZipProcessorApi.processZipFile loadAsync structureErrorMessage zipData
                  originalFileName) w in
  (Counting.treeLike extracted ->
   exists result,
     run = (Js.Returned result, w)
     /\ ZipProcessorApi.result_folderName result
        = FolderName.generateFolderName originalFileName
     /\ ZipProcessorApi.result_extractedFiles result = extracted
     /\ ZipProcessorApi.result_fileCount result = Z.of_nat (List.length extracted)
     /\ ZipProcessor.totalFiles (ZipProcessorApi.result_statistics result)
        = ZipProcessorApi.result_fileCount result
     /\ ZipProcessor.buildFileStructure extracted
        = Some (ZipProcessorApi.result_fileStructure result))
  /\ (forall before a between b after,
         extracted = (before ++ a :: between ++ b :: after)%list ->
         ZipProcessor.liesUnder (ZipProcessor.pathParts a) (ZipProcessor.pathParts b) = true ->
         run = (Js.Threw (Js.ErrorObj ("ZIP文件处理失败: " ++ structureErrorMessage extracted)
                            None), w)).
Proof.
  cbv zeta. unfold ZipProcessorApi.processZipFile. rewrite Hloaded.
  cbn [Js.bind Js.perform Js.exec]. split.
  - intros Htree.
    destruct (StructureFacts.buildFileStructure_succeeds _ Htree) as (own & proto & ->).
    eexists. split; [reflexivity|].
    cbn [ZipProcessorApi.result_folderName ZipProcessorApi.result_extractedFiles
         ZipProcessorApi.result_fileCount ZipProcessorApi.result_statistics
         ZipProcessorApi.result_fileStructure].
    split; [reflexivity|]. split; [reflexivity|]. split; [reflexivity|].
    split; [|reflexivity].
    exact (proj1 (StatisticsFacts.fold_statsStep_totals _ _)).
  - intros before a between b after Hsplit Hunder.
    assert (ZipProcessor.buildFileStructure
              (ZipProcessor.extractAllFiles (Js.clock w) files) = None) as ->; [|reflexivity].
    rewrite Hsplit.
    exact (ConflictFacts.file_then_directory_fails before a between b after Hunder).
Qed.

(** An archive with a directory entry, two files and an entry that cannot be
    read: two files are extracted. *)
Lemma processZipFile_returns_or_fails_as_a_whole_witness :
  let entries :=
    [("src/", ZipProcessor.mkEntry true None None None);
     ("src/a.js", ZipProcessor.mkEntry false (Some "YQ==") (Some (Some 1, Some 21)) None);
     ("broken.bin", ZipProcessor.mkEntry false None None None);
     ("README.md", ZipProcessor.mkEntry false (Some "Yg==") (Some (Some 1, Some 21)) None)] in
  let loadAsync (zipData : string) := ZipProcessorApi.LoadedFiles entries in
  let structureErrorMessage (files : list ZipProcessor.ExtractedFile) := "" in
  let remote : Js.Remote := fun _ _ => (Js.Success (Js.mkJson "" "" ""), 5) in
  exists result,
    Js.exec remote
      (ZipProcessorApi.processZipFile loadAsync structureErrorMessage "UEsDBA==" "Demo.zip")
      (GitHubAgent.freshWorld 1000)
    = (Js.Returned result, GitHubAgent.freshWorld 1000)
    /\ ZipProcessorApi.result_folderName result = "demo"
    /\ ZipProcessorApi.result_fileCount result = 2.
Proof.
  intros entries loadAsync structureErrorMessage remote.
  destruct (processZipFile_returns_or_fails_as_a_whole loadAsync structureErrorMessage remote
              "UEsDBA==" "Demo.zip" (GitHubAgent.freshWorld 1000) entries eq_refl)
    as [Hreturns _].
  destruct Hreturns as (result & Hrun & Hname & _ & Hcount & _).
  - split.
    + intros f g Hf Hg. simpl in Hf, Hg.
      repeat match goal with H : _ \/ _ |- _ => destruct H as [<-|H] end;
        try reflexivity; contradiction.
    + intros f c Hf Hc. simpl in Hf.
      repeat match goal with H : _ \/ _ |- _ => destruct H as [<-|H] end;
        try contradiction;
        (vm_compute in Hc;
         repeat match goal with H : _ \/ _ |- _ => destruct H as [<-|H] end;
         try reflexivity; contradiction).
  - exists result. split; [exact Hrun|]. split; [exact Hname | exact Hcount].
Defined.

(* ===================================================================== *)
(** * Proofs: the run that succeeds, and the length of the readiness wait *)
(* ===================================================================== *)

Module HappyFacts.
Import JsString Js ZipProcessor GitHubAgent Runs RunFacts BatchFacts Protocol.

Section Obliging.
Variable remote : Remote.
Variable this : Agent.
Hypothesis Hok : forall w r, isSuccess (fst (remote w r)) = true.

Lemma call_succeeds method endpoint data w :
  exists json w', exec remote (makeGitHubApiCall this method endpoint data) w
                  = (Returned json, w').
Proof.
  rewrite exec_makeGitHubApiCall. cbv zeta.
  pose proof (Hok (rateLimited this w) (apiRequest method endpoint data)) as H.
  destruct (fst (remote _ _)) as [json| |]; try discriminate H. cbn [apiOutcome]. eauto.
Qed.

Lemma uploadSingleFile_succeeds owner repoName file options :
  alwaysSucceeds remote (uploadSingleFile this owner repoName file options).
Proof.
  intros w. unfold uploadSingleFile.
  rewrite exec_bind, exec_enforceRateLimit, exec_bind.
  destruct (notFalse (opt_checkExisting options)).
  - rewrite exec_tryCatch, exec_bind.
    destruct (call_succeeds "GET" (contentsEndpoint owner repoName (file_path file)) NoBody
                (rateLimited this w)) as (existing & w1 & ->).
    cbn [exec]. apply call_succeeds.
  - cbn [exec]. apply call_succeeds.
Qed.

Lemma waitForRepositoryReady_at_once owner repoName maxWaitTime w :
  0 < maxWaitTime ->
  exists w', exec remote (waitForRepositoryReady this owner repoName maxWaitTime) w
             = (Returned tt, w').
Proof.
  intros Hpos. unfold waitForRepositoryReady. cbn [bind perform exec].
  unfold waitFuel. replace (Z.to_nat (maxWaitTime / 1000) + 2)%nat
    with (S (Z.to_nat (maxWaitTime / 1000) + 1)) by lia.
  rewrite WaitFacts.waitLoop_step.
  destruct (Z.ltb_spec (clock w - clock w) maxWaitTime); [|lia].
  unfold statusLookup.
  destruct (call_succeeds "GET" ("/repos/" ++ owner ++ "/" ++ repoName) NoBody w)
    as (json & w1 & ->). eauto.
Qed.

End Obliging.

Lemma all_succeeding (batches : list (list ExtractedFile)) :
  succeeding (concat (map (map (fun _ => true)) batches))
  = Z.of_nat (List.length (concat batches))
  /\ failing (concat (map (map (fun _ => true)) batches)) = 0.
Proof.
  unfold succeeding, failing. rewrite <- concat_map.
  generalize (concat batches). intros l.
  induction l as [|x l [IH1 IH2]]; [split; reflexivity|].
  cbn [map List.filter negb List.length]. split; [lia | exact IH2].
Qed.

(** Every upload succeeds: every file that passes the filter is counted as
    a success. *)
Lemma uploads_succeed localeCompare remote this owner repoName files options w :
  (forall w r, isSuccess (fst (remote w r)) = true) ->
  1 <= maxRetries this -> 0 < batchSize this ->
  exists uploadResults w',
    exec remote (uploadFilesToRepository localeCompare this owner repoName files options) w
    = (Returned uploadResults, w')
    /\ successCount uploadResults
       = Z.of_nat (List.length (filterAndSortFiles localeCompare files options))
    /\ failedCount uploadResults = 0
    /\ skippedCount uploadResults = 0.
Proof.
  intros Hok Hretries Hbatch. unfold uploadFilesToRepository.
  destruct (createBatches _ _) as [batches|] eqn:Hb.
  - destruct (batchLoop_counts remote this owner repoName
                options Hretries batches (map (map (fun _ => true)) batches))
      with (results := emptyResults) (w := w)
      as (results & w' & Hrun & Hs & Hf & Hk).
    + clear - Hok. induction batches as [|batch batches IH]; constructor; [|exact IH].
      induction batch as [|f batch IHb]; constructor; [|exact IHb].
      apply uploadSingleFile_succeeds. exact Hok.
    + exists results, w'. split; [exact Hrun|].
      destruct (all_succeeding batches) as [Hall Hnone].
      rewrite Hs, Hf, Hk, Hall, Hnone, (createBatches_concat _ _ _ Hb).
      repeat split.
  - unfold createBatches in Hb.
    destruct (Z.ltb_spec 0 (batchSize this)); [discriminate Hb | lia].
Qed.

End HappyFacts.

(** X28: when the remote side answers every request with success and the
    text of the README, if one is asked for, can be generated
    ([generateReadmeContent] does not throw on the files), a run on valid
    input (with at least one attempt per file and a positive batch size)
    returns a success result: the repository as it was answered, one success
    for each file that passes the filter, and no failure. *)
Theorem run_succeeds_when_every_request_does
    (localeCompare : string -> string -> Z)
    (generateReadmeContent : string -> list ZipProcessor.ExtractedFile
                             -> GitHubAgent.Generated)
    (base64 : string -> string)
    (remote : Js.Remote) (this : GitHubAgent.Agent) (folderName : string)
    (extractedFiles : list ZipProcessor.ExtractedFile) (options : GitHubAgent.Options)
    (w : Js.World)
    (Hvalid : GitHubAgent.validateInput folderName extractedFiles = Js.Ret tt)
    (Hretries : 1 <= GitHubAgent.maxRetries this)
    (Hbatch : 0 < GitHubAgent.batchSize this)
    (Hok : forall w r, Runs.isSuccess (fst (remote w r)) = true)
    (Hreadme : GitHubAgent.notFalse (GitHubAgent.opt_createReadme options) = true ->
               exists readme,
                 generateReadmeContent folderName
                   (GitHubAgent.filesAfterUpload localeCompare extractedFiles options)
                 = GitHubAgent.ReadmeText readme) :
  exists repository uploadResults processingTime timestamp w',
    Js.exec remote
      (GitHubAgent.createRepositoryAndUploadFiles localeCompare generateReadmeContent base64
         this folderName extractedFiles options) w
    = (Js.Returned
         (GitHubAgent.RunSuccess repository uploadResults processingTime
            ("成功创建仓库 " ++ folderName ++ " 并上传 "
               ++ pretty (GitHubAgent.successCount uploadResults) ++ " 个文件")
            timestamp),
       w')
    /\ GitHubAgent.successCount uploadResults
       = Z.of_nat (List.length
                     (GitHubAgent.filterAndSortFiles localeCompare extractedFiles options))
    /\ GitHubAgent.failedCount uploadResults = 0
    /\ GitHubAgent.skippedCount uploadResults = 0.
Proof.
  unfold GitHubAgent.createRepositoryAndUploadFiles.
  cbn [Js.bind Js.perform Js.exec].
  rewrite RunFacts.exec_tryCatch, RunFacts.exec_bind, Hvalid. cbn [Js.exec].
  rewrite RunFacts.exec_bind. unfold GitHubAgent.createRepository.
  destruct (HappyFacts.call_succeeds remote this Hok "POST" "/user/repos"
              (Js.RepoConfig folderName
                 (GitHubAgent.orString (GitHubAgent.opt_description options)
                    ("自动创建的仓库，来源于ZIP文件: " ++ folderName))
                 (GitHubAgent.opt_private options)) w) as (repository & w1 & ->).
  rewrite RunFacts.exec_bind.
  destruct (HappyFacts.waitForRepositoryReady_at_once remote this Hok
              (GitHubAgent.owner this) folderName 30000 w1 ltac:(lia)) as (w2 & ->).
  rewrite RunFacts.exec_bind.
  destruct (HappyFacts.uploads_succeed localeCompare remote this (GitHubAgent.owner this)
              folderName extractedFiles options w2 Hok Hretries Hbatch)
    as (uploadResults & w3 & -> & Hs & Hf & Hk).
  rewrite RunFacts.exec_bind.
  destruct (GitHubAgent.notFalse (GitHubAgent.opt_createReadme options)).
  - rewrite RunFacts.exec_bind. unfold GitHubAgent.createReadmeFile.
    destruct (Hreadme eq_refl) as (readme & ->).
    destruct (HappyFacts.uploadSingleFile_succeeds remote this Hok (GitHubAgent.owner this)
                folderName (GitHubAgent.readmeFile base64 readme)
                GitHubAgent.readmeOptions w3) as (json & w4 & ->).
    cbn [Js.exec Js.bind Js.perform].
    eexists _, _, _, _, _. split; [reflexivity|]. auto.
  - cbn [Js.exec Js.bind Js.perform].
    eexists _, _, _, _, _. split; [reflexivity|]. auto.
Qed.

Lemma run_succeeds_when_every_request_does_witness :
  let file p n := ZipProcessor.fileInfoOf 0 p
                    (ZipProcessor.mkEntry false (Some "") (Some (Some n, Some n)) None) "" in
  let files := [file "src/a.js" 10; file "README_source.md" 5; file "big.bin" 900] in
  let options := GitHubAgent.mkOptions (Some 100) None None None "" "" "" false in
  let remote : Js.Remote := fun _ _ => (Js.Success (Js.mkJson "" "abc" "https://github.com/me/demo"), 5) in
  let this := GitHubAgent.newAgent (GitHubAgent.mkConfig "me" None None None None) in
  exists repository uploadResults processingTime message timestamp w',
    Js.exec remote
      (GitHubAgent.createRepositoryAndUploadFiles Protocol.codeOrder (fun _ _ => GitHubAgent.ReadmeText "# demo")
         (fun s => s) this "demo" files options) (GitHubAgent.freshWorld 1000000)
    = (Js.Returned
         (GitHubAgent.RunSuccess repository uploadResults processingTime message timestamp), w')
    /\ GitHubAgent.successCount uploadResults = 2.
Proof.
  intros file files options remote this.
  destruct (run_succeeds_when_every_request_does Protocol.codeOrder (fun _ _ => GitHubAgent.ReadmeText "# demo")
              (fun s => s) remote this "demo" files options (GitHubAgent.freshWorld 1000000))
    as (repository & uploadResults & processingTime & timestamp & w' & Hrun & Hs & _).
  - reflexivity.
  - vm_compute. discriminate.
  - reflexivity.
  - reflexivity.
  - intros _. now exists "# demo".
  - eexists repository, uploadResults, processingTime, _, timestamp, w'.
    split; [exact Hrun|]. rewrite Hs. reflexivity.
Defined.

(** X31: when the README is asked for and [generateReadmeContent] throws on
    the files (a [TypeError], as for the path [toString/length]), the run
    returns a failure result with the message of that error and without the
    repository or the counts, although the remote side answered every
    request with success: the repository was created and the files were
    uploaded before. *)
Theorem run_fails_when_the_readme_cannot_be_generated
    (localeCompare : string -> string -> Z)
    (generateReadmeContent : string -> list ZipProcessor.ExtractedFile
                             -> GitHubAgent.Generated)
    (base64 : string -> string)
    (remote : Js.Remote) (this : GitHubAgent.Agent) (folderName : string)
    (extractedFiles : list ZipProcessor.ExtractedFile) (options : GitHubAgent.Options)
    (w : Js.World) (message : string)
    (Hvalid : GitHubAgent.validateInput folderName extractedFiles = Js.Ret tt)
    (Hretries : 1 <= GitHubAgent.maxRetries this)
    (Hbatch : 0 < GitHubAgent.batchSize this)
    (Hok : forall w r, Runs.isSuccess (fst (remote w r)) = true)
    (Hwanted : GitHubAgent.notFalse (GitHubAgent.opt_createReadme options) = true)
    (Hthrows : generateReadmeContent folderName
                 (GitHubAgent.filesAfterUpload localeCompare extractedFiles options)
               = GitHubAgent.ReadmeThrows message) :
  exists processingTime timestamp w',
    Js.exec remote
      (GitHubAgent.createRepositoryAndUploadFiles localeCompare generateReadmeContent base64
         this folderName extractedFiles options) w
    = (Js.Returned
         (GitHubAgent.RunFailure message folderName
            (Z.of_nat (List.length extractedFiles)) processingTime timestamp),
       w').
Proof.
  unfold GitHubAgent.createRepositoryAndUploadFiles.
  cbn [Js.bind Js.perform Js.exec].
  rewrite RunFacts.exec_tryCatch, RunFacts.exec_bind, Hvalid. cbn [Js.exec].
  rewrite RunFacts.exec_bind. unfold GitHubAgent.createRepository.
  destruct (HappyFacts.call_succeeds remote this Hok "POST" "/user/repos"
              (Js.RepoConfig folderName
                 (GitHubAgent.orString (GitHubAgent.opt_description options)
                    ("自动创建的仓库，来源于ZIP文件: " ++ folderName))
                 (GitHubAgent.opt_private options)) w) as (repository & w1 & ->).
  rewrite RunFacts.exec_bind.
  destruct (HappyFacts.waitForRepositoryReady_at_once remote this Hok
              (GitHubAgent.owner this) folderName 30000 w1 ltac:(lia)) as (w2 & ->).
  rewrite RunFacts.exec_bind.
  destruct (HappyFacts.uploads_succeed localeCompare remote this (GitHubAgent.owner this)
              folderName extractedFiles options w2 Hok Hretries Hbatch)
    as (uploadResults & w3 & -> & _).
  rewrite RunFacts.exec_bind, Hwanted, RunFacts.exec_bind.
  unfold GitHubAgent.createReadmeFile. rewrite Hthrows.
  cbn [Js.exec Js.bind Js.perform GitHubAgent.messageOf].
  eexists _, _, _. reflexivity.
Qed.

Lemma run_fails_when_the_readme_cannot_be_generated_witness :
  let file p n := ZipProcessor.fileInfoOf 0 p
                    (ZipProcessor.mkEntry false (Some "") (Some (Some n, Some n)) None) "" in
  let files := [file "src/a.js" 10; file "toString/length" 5] in
  let message := "Cannot assign to read only property 'length' of function "
                 ++ "'function toString() { [native code] }'" in
  let generateReadmeContent (repoName : string) (files : list ZipProcessor.ExtractedFile) :=
    GitHubAgent.ReadmeThrows message in
  let remote : Js.Remote := fun _ _ => (Js.Success (Js.mkJson "" "abc" ""), 5) in
  let this := GitHubAgent.newAgent (GitHubAgent.mkConfig "me" None None None None) in
  exists processingTime timestamp w',
    Js.exec remote
      (GitHubAgent.createRepositoryAndUploadFiles Protocol.codeOrder generateReadmeContent
         (fun s => s) this "demo" files GitHubAgent.noOptions)
      (GitHubAgent.freshWorld 1000000)
    = (Js.Returned (GitHubAgent.RunFailure message "demo" 2 processingTime timestamp), w').
Proof.
  intros file files message generateReadmeContent remote this.
  apply (run_fails_when_the_readme_cannot_be_generated Protocol.codeOrder
           generateReadmeContent (fun s => s) remote this "demo" files GitHubAgent.noOptions
           (GitHubAgent.freshWorld 1000000) message).
  - reflexivity.
  - vm_compute. discriminate.
  - reflexivity.
  - reflexivity.
  - reflexivity.
  - reflexivity.
Defined.

Module WaitBoundFacts.
Import JsString Js ZipProcessor GitHubAgent Runs RunFacts Protocol.

Lemma length_requestsOf_lookup pauses at_time r resp :
  List.length (requestsOf (map Slept pauses ++ [Fetched at_time r resp])) = 1%nat.
Proof.
  now rewrite requestsOf_app, ProtocolFacts.requestsOf_pauses.
Qed.

(** Every round that does not end the wait lasts a second at least: the
    lookup number [n] is sent [1000 * (n - 1)] ms or more into the wait. *)
Lemma polls_lookups remote this owner repoName startTime maxWaitTime w outcome w' :
  Polls remote this owner repoName startTime maxWaitTime w outcome w' ->
  exists events,
    trace w' = (trace w ++ events)%list
    /\ (requestsOf events = []
        \/ 1000 * (Z.of_nat (List.length (requestsOf events)) - 1)
           < maxWaitTime - (clock w - startTime)).
Proof.
  induction 1 as [w Hout | w json w1 Hin Hlook | w error w1 Hin Hlook H404
                  | w error w1 outcome w' Hin Hlook H404 Hrest IH].
  - exists []. rewrite app_nil_r. split; [reflexivity | now left].
  - destruct (WaitFacts.lookup_run remote this owner repoName w)
      as (pauses & t & r & resp & took & Hrun & Htrace).
    rewrite Hrun in Hlook. injection Hlook as _ <-.
    eexists. split; [exact Htrace|]. right. rewrite length_requestsOf_lookup. lia.
  - destruct (WaitFacts.lookup_run remote this owner repoName w)
      as (pauses & t & r & resp & took & Hrun & Htrace).
    rewrite Hrun in Hlook. injection Hlook as _ <-.
    eexists. split; [exact Htrace|]. right. rewrite length_requestsOf_lookup. lia.
  - pose proof (WaitFacts.lookup_clock _ _ _ _ _ _ _ Hlook) as Hclock.
    destruct (WaitFacts.lookup_run remote this owner repoName w)
      as (pauses & t & r & resp & took & Hrun & Htrace).
    rewrite Hrun in Hlook. injection Hlook as _ <-.
    destruct IH as (events & Hevents & Hbound).
    exists ((map Slept pauses ++ [Fetched t r resp]) ++ Slept 1000 :: events)%list.
    split.
    + rewrite Hevents. cbn [slept trace]. rewrite Htrace, <- !app_assoc. reflexivity.
    + right. rewrite requestsOf_app, List.length_app, length_requestsOf_lookup.
      change (requestsOf (Slept 1000 :: events)) with (requestsOf events).
      cbn [slept clock] in Hbound.
      destruct Hbound as [->|Hbound]; [simpl; lia|].
      replace (Z.max 0 1000) with 1000 in Hbound by lia. lia.
Qed.

End WaitBoundFacts.

(** X29: the readiness wait sends at most one lookup per second of its budget:
    no more than [maxWaitTime / 1000], rounded up (30 for the 30000 ms of a
    run), and none when the budget is zero or negative. *)
Theorem readiness_wait_makes_one_lookup_per_second_at_most
    (remote : Js.Remote) (this : GitHubAgent.Agent) (owner repoName : string)
    (maxWaitTime : Z) (w : Js.World) :
  let run := Js.exec remote
               (GitHubAgent.waitForRepositoryReady this owner repoName maxWaitTime) w in
  exists events,
    Js.trace (snd run) = (Js.trace w ++ events)%list
    /\ Z.of_nat (List.length (Runs.requestsOf events))
       <= Z.max 0 ((maxWaitTime + 999) / 1000).
Proof.
  cbv zeta. unfold GitHubAgent.waitForRepositoryReady. cbn [Js.bind Js.perform Js.exec].
  destruct (WaitFacts.waitLoop_polls remote this owner repoName (Js.clock w) maxWaitTime
              (GitHubAgent.waitFuel maxWaitTime) w) as (outcome & w' & -> & Hpolls).
  - pose proof (WaitFacts.waitFuel_suffices maxWaitTime). lia.
  - unfold GitHubAgent.waitFuel. lia.
  - destruct (WaitBoundFacts.polls_lookups _ _ _ _ _ _ _ _ _ Hpolls)
      as (events & Htrace & Hbound).
    exists events. split; [exact Htrace|].
    destruct Hbound as [->|Hbound]; [simpl; lia|].
    rewrite Z.sub_diag, Z.sub_0_r in Hbound.
    assert (Z.of_nat (List.length (Runs.requestsOf events)) <= (maxWaitTime + 999) / 1000);
      [|lia].
    apply Z.div_le_lower_bound; lia.
Qed.

(* ===================================================================== *)
(** * Proofs: dashes in the folder name *)
(* ===================================================================== *)

(** X30: the folder name [generateFolderName] returns never has two dashes
    in a row and neither starts nor ends with a dash, whatever the file name
    was. *)
Theorem generateFolderName_has_no_stray_dashes (originalFileName : string) :
  let folderName := FolderName.generateFolderName originalFileName in
  Sanitized.noDoubleDash folderName = true
  /\ Sanitized.startsWithDash folderName = false
  /\ Sanitized.endsWithDash folderName = false.
Proof.
  intros folderName.
  pose proof (FolderNameFacts.generateFolderName_sanitized originalFileName) as Hs.
  fold folderName in Hs. unfold Sanitized.sanitized in Hs.
  apply andb_true_iff in Hs as [Hs Hend].
  apply andb_true_iff in Hs as [Hs Hstart].
  apply andb_true_iff in Hs as [_ Hdouble].
  apply negb_true_iff in Hend, Hstart. auto.
Qed.
